(** * fydemy/cms: validation, login hardening, storage and markdown layers

    A shallow embedding of the security-relevant core of [packages/core]:
    [utils/validation.ts], [utils/rate-limit.ts], [auth/login.ts],
    [auth/session.ts], [content/storage.ts], [content/markdown.ts],
    [content/directory.ts], [content/collection.ts], [content/upload.ts],
    the endpoints of [api/handlers.ts] and [api/upload.ts] and the route
    guard of [middleware/auth.ts].

    Conventions.
    - A JavaScript string is represented by the bytes of its UTF-8 encoding
      ([string]); ASCII patterns ([".."], ["/"], character classes) act on
      bytes exactly as they act on code units, [Buffer.byteLength] is the
      byte count and [.length] is recovered by [JS.length].
    - A function that may throw returns a [result]; an [async] function is
      modelled by the value its promise settles to ([Ok] = fulfilled,
      [Throw] = rejected).
    - [Date.now()] and [process.env] are explicit arguments. *)

From Stdlib Require Import ZArith String Ascii List Lia Bool.
From Stdlib Require Import Numbers.DecimalString Numbers.DecimalZ Numbers.DecimalFacts.
From stdpp Require Import base option list gmap strings.

Local Open Scope Z_scope.

(* ================================================================== *)
(** ** Errors and results *)

(** The [Error] values raised by the modelled code, one constructor per
    message (or per backend failure). *)
Inductive error : Type :=
  | InvalidFilePath          (* "Invalid file path" *)
  | NullByteDetected         (* "Invalid file path: null byte detected" *)
  | DirectoryTraversal       (* "Invalid file path: directory traversal detected" *)
  | DangerousCharacters      (* "Invalid file path: contains dangerous characters" *)
  | UsernameRequired         (* "Username is required" *)
  | UsernameTooLong          (* "Username must be 100 characters or less" *)
  | UsernameBadCharacters    (* "Username must contain only letters, ..." *)
  | PasswordRequired         (* "Password is required" *)
  | PasswordTooLong          (* "Password must be 1000 characters or less" *)
  | FileTooLarge (size : Z)  (* "File size (...) / Content size (...) exceeds ..." *)
  | MisconfiguredAuth        (* "CMS_ADMIN_USERNAME and CMS_ADMIN_PASSWORD must be set ..." *)
  | MisconfiguredSecret      (* "CMS_SESSION_SECRET must be at least 32 characters" *)
  | FileNotFoundOrEmpty      (* "File not found" / "File not found or empty" *)
  | ENOENT                   (* fs: no such file or directory *)
  | EISDIR                   (* fs: unlink of a directory *)
  | HttpNotFound             (* octokit RequestError, status 404 *)
  | NoSuchKey                (* S3 GetObject on a missing key *)
  | BackendError (code : Z)  (* any other failure of a backend or library *)
  | MalformedBody.           (* request.json() rejected *)

Inductive result (A : Type) : Type :=
  | Ok (a : A)
  | Throw (e : error).
Arguments Ok {A} a.
Arguments Throw {A} e.

Global Instance result_ret : MRet result := fun A a => Ok a.
Global Instance result_bind : MBind result := fun A B k r =>
  match r with
  | Ok a => k a
  | Throw e => Throw e
  end.

(** [try { ... } catch { ... }] *)
Definition try_catch {A} (body : result A) (handler : error -> result A) : result A :=
  match body with
  | Ok a => Ok a
  | Throw e => handler e
  end.

Definition throws {A} (r : result A) : Prop := exists e, r = Throw e.

(* ================================================================== *)
(** ** JavaScript strings *)

Module JS.

Fixpoint startsWith (pat s : string) : bool :=
  match pat, s with
  | EmptyString, _ => true
  | String a pat', String b s' => Ascii.eqb a b && startsWith pat' s'
  | String _ _, EmptyString => false
  end.

(** [s.includes(pat)] *)
Fixpoint includes (pat s : string) : bool :=
  startsWith pat s
  || match s with
     | EmptyString => false
     | String _ s' => includes pat s'
     end.

Fixpoint endsWith_char (c : ascii) (s : string) : bool :=
  match s with
  | EmptyString => false
  | String a EmptyString => Ascii.eqb a c
  | String _ s' => endsWith_char c s'
  end.

Fixpoint existsChar (p : ascii -> bool) (s : string) : bool :=
  match s with
  | EmptyString => false
  | String a s' => p a || existsChar p s'
  end.

Fixpoint forallChar (p : ascii -> bool) (s : string) : bool :=
  match s with
  | EmptyString => true
  | String a s' => p a && forallChar p s'
  end.

Definition code (a : ascii) : N := N_of_ascii a.

Definition between (lo hi : N) (a : ascii) : bool :=
  ((lo <=? code a) && (code a <=? hi))%N.

(** [[a-zA-Z0-9_-]] *)
Definition isWordChar (a : ascii) : bool :=
  between 97 122 a || between 65 90 a || between 48 57 a
  || (code a =? 95)%N || (code a =? 45)%N.

(** [/^[a-zA-Z0-9_-]+$/.test(s)] *)
Definition isWord (s : string) : bool :=
  match s with
  | EmptyString => false
  | _ => forallChar isWordChar s
  end.

Definition NUL : ascii := ascii_of_N 0.

(** [s.replace(/\x00/g, "")] *)
Fixpoint stripNul (s : string) : string :=
  match s with
  | EmptyString => EmptyString
  | String a s' =>
      if (code a =? 0)%N then stripNul s' else String a (stripNul s')
  end.

(** [s.length]: the number of UTF-16 code units of the string whose
    UTF-8 bytes are [s]. A continuation byte (10xxxxxx) adds nothing, a
    four-byte lead (11110xxx) stands for a surrogate pair. *)
Fixpoint length (s : string) : Z :=
  match s with
  | EmptyString => 0
  | String a s' =>
      (if between 128 191 a then 0 else if between 240 247 a then 2 else 1)
      + length s'
  end.

(** [Buffer.byteLength(s, "utf-8")] *)
Definition byteLength (s : string) : Z := Z.of_nat (String.length s).

Definition toLowerChar (a : ascii) : ascii :=
  if between 65 90 a then ascii_of_N (code a + 32) else a.

Fixpoint toLowerASCII (s : string) : string :=
  match s with
  | EmptyString => EmptyString
  | String a s' => String (toLowerChar a) (toLowerASCII s')
  end.

(** [s.split(sep)] for a one-character separator. *)
Fixpoint split_go (sep : ascii) (cur : string) (s : string) : list string :=
  match s with
  | EmptyString => [String.rev cur]
  | String a s' =>
      if Ascii.eqb a sep then String.rev cur :: split_go sep EmptyString s'
      else split_go sep (String a cur) s'
  end.
Definition split (sep : ascii) (s : string) : list string :=
  split_go sep EmptyString s.

(** [parts.join(sep)] *)
Fixpoint join (sep : string) (parts : list string) : string :=
  match parts with
  | [] => EmptyString
  | [p] => p
  | p :: ps => p +:+ sep +:+ join sep ps
  end.

(** The line terminators that [.] of a regular expression does not
    match: LF, CR, U+2028 and U+2029 (the last two as UTF-8). *)
Definition LS : string :=
  String (ascii_of_N 226) (String (ascii_of_N 128) (String (ascii_of_N 168) EmptyString)).
Definition PS : string :=
  String (ascii_of_N 226) (String (ascii_of_N 128) (String (ascii_of_N 169) EmptyString)).
Definition hasLineTerminator (s : string) : bool :=
  existsChar (fun a => (code a =? 10)%N || (code a =? 13)%N) s
  || includes LS s || includes PS s.

Definition LF : ascii := ascii_of_N 10.
Definition CR : ascii := ascii_of_N 13.
Definition LFs : string := String LF EmptyString.

Fixpoint take (n : nat) (s : string) : string :=
  match n, s with
  | S n', String a s' => String a (take n' s')
  | _, _ => EmptyString
  end.

Fixpoint drop (n : nat) (s : string) : string :=
  match n, s with
  | S n', String _ s' => drop n' s'
  | _, _ => s
  end.

(** [s.indexOf(pat)]; [None] is -1. *)
Fixpoint indexOf (pat s : string) : option nat :=
  if startsWith pat s then Some 0%nat
  else
    match s with
    | EmptyString => None
    | String _ s' => S <$> indexOf pat s'
    end.

(** [s.search(/\r?\n/)] *)
Fixpoint searchNewline (s : string) : option nat :=
  match s with
  | EmptyString => None
  | String a s' =>
      if Ascii.eqb a LF || (Ascii.eqb a CR && startsWith LFs s') then Some 0%nat
      else S <$> searchNewline s'
  end.

(** [s.replace(pat, "")] for a string pattern: the first occurrence goes. *)
Fixpoint removeFirst (pat s : string) : string :=
  if startsWith pat s then drop (String.length pat) s
  else
    match s with
    | EmptyString => EmptyString
    | String a s' => String a (removeFirst pat s')
    end.

(** ECMAScript white space and line terminators, as UTF-8: one byte
    (TAB, LF, VT, FF, CR, SP), two bytes (U+00A0) and three bytes (U+1680,
    U+2000 to U+200A, U+2028, U+2029, U+202F, U+205F, U+3000, U+FEFF). *)
Definition isSpace1 (a : ascii) : bool :=
  between 9 13 a || (code a =? 32)%N.
Definition isSpace2 (a b : ascii) : bool :=
  (code a =? 194)%N && (code b =? 160)%N.
Definition isSpace3 (a b c : ascii) : bool :=
  ((code a =? 225)%N && (code b =? 154)%N && (code c =? 128)%N)
  || ((code a =? 226)%N && (code b =? 128)%N
      && (between 128 138 c || between 168 169 c || (code c =? 175)%N))
  || ((code a =? 226)%N && (code b =? 129)%N && (code c =? 159)%N)
  || ((code a =? 227)%N && (code b =? 128)%N && (code c =? 128)%N)
  || ((code a =? 239)%N && (code b =? 187)%N && (code c =? 191)%N).

Fixpoint trimStartWith (sp2 : ascii -> ascii -> bool)
    (sp3 : ascii -> ascii -> ascii -> bool) (s : string) : string :=
  match s with
  | EmptyString => EmptyString
  | String a s1 =>
      if isSpace1 a then trimStartWith sp2 sp3 s1
      else
        match s1 with
        | String b s2 =>
            if sp2 a b then trimStartWith sp2 sp3 s2
            else
              match s2 with
              | String c s3 =>
                  if sp3 a b c then trimStartWith sp2 sp3 s3 else s
              | EmptyString => s
              end
        | EmptyString => s
        end
  end.

Definition trimStart (s : string) : string := trimStartWith isSpace2 isSpace3 s.

(** Trailing white space is leading white space of the reversed bytes. *)
Definition trimEnd (s : string) : string :=
  String.rev
    (trimStartWith (fun a b => isSpace2 b a) (fun a b c => isSpace3 c b a)
       (String.rev s)).

(** [s.trim()] *)
Definition trim (s : string) : string := trimEnd (trimStart s).

(** [s.slice(0, -1)]: the string without its last character (continuation
    bytes go with their lead byte). *)
Fixpoint dropLastRev (r : string) : string :=
  match r with
  | EmptyString => EmptyString
  | String a r' => if between 128 191 a then dropLastRev r' else r'
  end.
Definition dropLastChar (s : string) : string :=
  String.rev (dropLastRev (String.rev s)).

(** [String(n)] for an integer. *)
Definition ofInt (n : Z) : string := NilZero.string_of_int (Z.to_int n).

(** [s.endsWith(pat)]: some suffix of [s] is [pat]. *)
Fixpoint endsWith (pat s : string) : bool :=
  String.eqb pat s
  || match s with
     | EmptyString => false
     | String _ s' => endsWith pat s'
     end.

(** [s.replace(/pat$/, "")] for a literal [pat]: a final [pat] goes. *)
Fixpoint removeSuffix (pat s : string) : string :=
  if String.eqb pat s then EmptyString
  else
    match s with
    | EmptyString => EmptyString
    | String a s' => String a (removeSuffix pat s')
    end.

End JS.

(* ================================================================== *)
(** ** Node's [path] module (POSIX flavour) *)

Module Path.

(** One step of [normalizeString]: [res] is the stack of segments kept
    so far, innermost first. *)
Definition pushSegment (allowAboveRoot : bool) (res : list string) (seg : string)
  : list string :=
  if String.eqb seg "" || String.eqb seg "." then res
  else if String.eqb seg ".." then
    match res with
    | top :: rest =>
        if String.eqb top ".." then (if allowAboveRoot then seg :: res else res)
        else rest
    | [] => if allowAboveRoot then [seg] else []
    end
  else seg :: res.

Definition normalizeString (p : string) (allowAboveRoot : bool) : string :=
  JS.join "/" (rev (fold_left (pushSegment allowAboveRoot) (JS.split "/" p) [])).

(** [path.normalize(p)] *)
Definition normalize (p : string) : string :=
  if String.eqb p "" then "."
  else
    let isAbsolute := JS.startsWith "/" p in
    let trailingSeparator := JS.endsWith_char "/" p in
    let path := normalizeString p (negb isAbsolute) in
    if String.eqb path "" then
      (if isAbsolute then "/" else if trailingSeparator then "./" else ".")
    else
      let path := if trailingSeparator then path +:+ "/" else path in
      if isAbsolute then "/" +:+ path else path.

(** [path.join(...parts)] *)
Definition join (parts : list string) : string :=
  let joined := JS.join "/" (filter (fun p => p ≠ "") parts) in
  if String.eqb joined "" then "." else normalize joined.

(** [path.basename(p)]: the last segment that is not empty, trailing
    separators set aside. *)
Definition basename (p : string) : string :=
  List.last (List.filter (fun seg => negb (String.eqb seg "")) (JS.split "/" p))
    EmptyString.

(** A segment that [normalizeString] records: neither empty nor [.]. *)
Definition named (seg : string) : bool :=
  negb (String.eqb seg "" || String.eqb seg ".").

(** The recorded segments of a path, in order. *)
Definition segments (p : string) : list string :=
  List.filter named (JS.split "/" p).

End Path.


(* ================================================================== *)
(** ** JavaScript values

    JSON bodies, frontmatter and JWT claims. An object is the list of its
    own enumerable properties in the order [Object.entries] yields them. *)

Inductive value : Type :=
  | VUndefined
  | VNull
  | VBool (b : bool)
  | VNum (n : Z)
  | VStr (s : string)
  | VArr (items : list value)
  | VObj (props : list (string * value))
  | VOther.                    (* functions, symbols, bigints *)

Abbreviation object := (list (string * value)).

(** [obj[key]] for an own property; [undefined] when absent. *)
Fixpoint getProperty (key : string) (obj : object) : value :=
  match obj with
  | [] => VUndefined
  | (k, v) :: rest => if String.eqb k key then v else getProperty key rest
  end.

Fixpoint assign (key : string) (v : value) (obj : object) : object :=
  match obj with
  | [] => [(key, v)]
  | (k, w) :: rest =>
      if String.eqb k key then (k, v) :: rest else (k, w) :: assign key v rest
  end.

(** [obj[key] = v] on an ordinary object. Assigning to ["__proto__"] runs
    the setter inherited from [Object.prototype] and creates no own
    property. *)
Definition setProperty (key : string) (v : value) (obj : object) : object :=
  if String.eqb key "__proto__" then obj else assign key v obj.

(** [!v] is [negb (truthy v)]. *)
Definition truthy (v : value) : bool :=
  match v with
  | VUndefined | VNull => false
  | VBool b => b
  | VNum n => negb (n =? 0)
  | VStr s => negb (String.eqb s "")
  | VArr _ | VObj _ | VOther => true
  end.

(* ================================================================== *)
(** ** utils/validation.ts *)

Module Validation.

Definition MAX_USERNAME_LENGTH : Z := 100.
Definition MAX_PASSWORD_LENGTH : Z := 1000.
Definition MAX_FILE_SIZE : Z := 10 * 1024 * 1024.

Definition isSeparator (a : ascii) : bool :=
  (JS.code a =? 47)%N || (JS.code a =? 92)%N.

(** [.replace(/^(\.\.(\/|\\|$))+/, "")] *)
Fixpoint stripLeadingDotDot (s : string) : string :=
  match s with
  | String a (String b rest) =>
      if (JS.code a =? 46)%N && (JS.code b =? 46)%N then
        match rest with
        | EmptyString => EmptyString
        | String c rest' => if isSeparator c then stripLeadingDotDot rest' else s
        end
      else s
  | _ => s
  end.

(** The character class of the third pattern: [<], [>], [:], the double
    quote, [|], [?] and [*]. *)
Definition isDangerousChar (a : ascii) : bool :=
  existsb (N.eqb (JS.code a)) [60; 62; 58; 34; 124; 63; 42]%N.

Definition reservedNames : list string :=
  ["con"; "prn"; "aux"; "nul";
   "com0"; "com1"; "com2"; "com3"; "com4"; "com5"; "com6"; "com7"; "com8"; "com9";
   "lpt0"; "lpt1"; "lpt2"; "lpt3"; "lpt4"; "lpt5"; "lpt6"; "lpt7"; "lpt8"; "lpt9"].

Fixpoint dropPrefix (pat s : string) : option string :=
  match pat, s with
  | EmptyString, _ => Some s
  | String a pat', String b s' =>
      if Ascii.eqb a b then dropPrefix pat' s' else None
  | String _ _, EmptyString => None
  end.

(** The fifth pattern (Windows reserved names, flag [i]): one of the
    device names, then either the end of the string or a dot and any
    characters that [.] matches up to the end. *)
Definition isReservedName (s : string) : bool :=
  existsb
    (fun name =>
       match dropPrefix name (JS.toLowerASCII s) with
       | Some EmptyString => true
       | Some (String dot ext) =>
           (JS.code dot =? 46)%N && negb (JS.hasLineTerminator ext)
       | None => false
       end)
    reservedNames.

Definition NULs : string := String JS.NUL EmptyString.

Definition dangerousPatterns : list (string -> bool) :=
  [ JS.includes "..";
    (fun s => match s with String c _ => isSeparator c | EmptyString => false end);
    JS.existsChar isDangerousChar;
    JS.includes NULs;
    isReservedName ].

Definition validateFilePath (filePath : string) : result string :=
  if String.eqb filePath "" then Throw InvalidFilePath
  else if JS.includes NULs filePath then Throw NullByteDetected
  else if JS.includes ".." filePath then Throw DirectoryTraversal
  else
    let normalized := stripLeadingDotDot (Path.normalize filePath) in
    if JS.startsWith "/" normalized || JS.startsWith "\" normalized then
      Throw DirectoryTraversal
    else if existsb (fun pattern => pattern normalized) dangerousPatterns then
      Throw DangerousCharacters
    else Ok normalized.

Definition validateUsername (username : value) : result bool :=
  match username with
  | VStr s =>
      if String.eqb s "" then Throw UsernameRequired
      else if JS.length s >? MAX_USERNAME_LENGTH then Throw UsernameTooLong
      else if negb (JS.isWord s) then Throw UsernameBadCharacters
      else Ok true
  | _ => Throw UsernameRequired
  end.

Definition validatePassword (password : value) : result bool :=
  match password with
  | VStr s =>
      if String.eqb s "" then Throw PasswordRequired
      else if JS.length s >? MAX_PASSWORD_LENGTH then Throw PasswordTooLong
      else Ok true
  | _ => Throw PasswordRequired
  end.

Definition validateFileSize (size : Z) : result bool :=
  if size >? MAX_FILE_SIZE then Throw (FileTooLarge size) else Ok true.

(** The function applied to the items of an array value. *)
Definition sanitizeItem (item : value) : value :=
  match item with
  | VStr s => VStr (JS.stripNul s)
  | _ => item
  end.

(** The body of the loop over [Object.entries(data)]: [recur] is the
    treatment of one value, [None] when no branch of the [if] chain
    applies. *)
Definition sanitizeEntry (recur : value -> option value)
    (sanitized : object) (entry : string * value) : object :=
  if negb (JS.isWord entry.1) then sanitized
  else
    match recur entry.2 with
    | Some v => setProperty entry.1 v sanitized
    | None => sanitized
    end.

Fixpoint sanitizeValue (v : value) : option value :=
  match v with
  | VStr s => Some (VStr (JS.stripNul s))
  | VNum _ | VBool _ | VNull => Some v
  | VArr items => Some (VArr (map sanitizeItem items))
  | VObj props => Some (VObj (fold_left (sanitizeEntry sanitizeValue) props []))
  | VUndefined | VOther => None
  end.

Definition sanitizeFrontmatter (data : object) : object :=
  fold_left (sanitizeEntry sanitizeValue) data [].

(** Values and objects that sanitization leaves as they are. *)
Definition clean (v : value) : Prop := sanitizeValue v = Some v.

Definition cleanEntry (entry : string * value) : Prop :=
  JS.isWord entry.1 = true /\ entry.1 <> "__proto__" /\ clean entry.2.

Definition cleanObject (obj : object) : Prop :=
  NoDup obj.*1 /\ Forall cleanEntry obj.

End Validation.


(* ================================================================== *)
(** ** utils/rate-limit.ts *)

Module RateLimit.

Record RateLimitEntry : Type := { count : Z; resetTime : Z }.

(** [rateLimitStore], a [Map<string, RateLimitEntry>]. *)
Abbreviation store := (gmap string RateLimitEntry).

Definition MAX_ATTEMPTS : Z := 5.
Definition WINDOW_MS : Z := 15 * 60 * 1000.

(** What [checkRateLimit] returns; the third field is the returned
    [resetTime]. *)
Record status : Type := { isLimited : bool; remaining : Z; resetAt : Z }.

(** [!entry || now > entry.resetTime], the test that opens a new window. *)
Definition expired (now : Z) (entry : option RateLimitEntry) : bool :=
  match entry with
  | None => true
  | Some e => now >? resetTime e
  end.

Definition checkRateLimit (now : Z) (identifier : string) (rateLimitStore : store)
  : status * store :=
  let fresh :=
    ({| isLimited := false; remaining := MAX_ATTEMPTS; resetAt := now + WINDOW_MS |},
     <[identifier := {| count := 0; resetTime := now + WINDOW_MS |}]> rateLimitStore) in
  match rateLimitStore !! identifier with
  | None => fresh
  | Some entry =>
      if now >? resetTime entry then fresh
      else if count entry >=? MAX_ATTEMPTS then
        ({| isLimited := true; remaining := 0; resetAt := resetTime entry |},
         rateLimitStore)
      else
        ({| isLimited := false; remaining := MAX_ATTEMPTS - count entry;
            resetAt := resetTime entry |},
         rateLimitStore)
  end.

Definition incrementRateLimit (now : Z) (identifier : string) (rateLimitStore : store)
  : store :=
  let fresh :=
    <[identifier := {| count := 1; resetTime := now + WINDOW_MS |}]> rateLimitStore in
  match rateLimitStore !! identifier with
  | None => fresh
  | Some entry =>
      if now >? resetTime entry then fresh
      else
        (* entry.count++ on the object held by the map *)
        <[identifier := {| count := count entry + 1; resetTime := resetTime entry |}]>
          rateLimitStore
  end.

Definition resetRateLimit (identifier : string) (rateLimitStore : store) : store :=
  delete identifier rateLimitStore.

Definition cleanupRateLimitStore (now : Z) (rateLimitStore : store) : store :=
  filter (fun kv => ¬ (now > resetTime kv.2)) rateLimitStore.

(** The attempt counter of an identifier; 0 when it has no entry. *)
Definition attempts (identifier : string) (rateLimitStore : store) : Z :=
  match rateLimitStore !! identifier with
  | Some e => count e
  | None => 0
  end.

(** [n] calls of [incrementRateLimit(identifier)], the [i]-th at time
    [nows !! i]. *)
Definition incrementMany (nows : list Z) (identifier : string) (rateLimitStore : store)
  : store :=
  fold_left (fun st now => incrementRateLimit now identifier st) nows rateLimitStore.

End RateLimit.

(* ================================================================== *)
(** ** process.env *)

Abbreviation env := (gmap string string).

(** [!!process.env.X]: set and not empty. *)
Definition configured (e : env) (name : string) : option string :=
  match e !! name with
  | Some v => if String.eqb v "" then None else Some v
  | None => None
  end.

(* ================================================================== *)
(** ** auth/login.ts *)

Module Login.

(** [timingSafeEqual(a, b)]: both buffers hold UTF-8 bytes; with equal
    lengths [crypto.timingSafeEqual] is byte equality, with different
    lengths the dummy comparison is discarded. [Buffer.from] of a
    non-string throws and the [catch] answers [false]. *)
Definition timingSafeEqual (a : value) (b : string) : bool :=
  match a with
  | VStr a =>
      if negb (Nat.eqb (String.length a) (String.length b)) then false
      else String.eqb a b
  | _ => false
  end.

Definition validateCredentials (e : env) (username password : value) : result bool :=
  match (_ ← Validation.validateUsername username;
         Validation.validatePassword password) with
  | Throw _ => Ok false
  | Ok _ =>
      match configured e "CMS_ADMIN_USERNAME", configured e "CMS_ADMIN_PASSWORD" with
      | Some envUsername, Some envPassword =>
          let usernameMatch := timingSafeEqual username envUsername in
          let passwordMatch := timingSafeEqual password envPassword in
          Ok (usernameMatch && passwordMatch)
      | _, _ => Throw MisconfiguredAuth
      end
  end.

End Login.

(* ================================================================== *)
(** ** auth/session.ts *)

Module Session.

Definition SESSION_DURATION : Z := 60 * 60 * 24 * 7.

Definition getSecretKey (e : env) : result string :=
  match configured e "CMS_SESSION_SECRET" with
  | Some secret =>
      if JS.length secret <? 32 then Throw MisconfiguredSecret else Ok secret
  | None => Throw MisconfiguredSecret
  end.

(** [typeof payload.username === "string" && typeof payload.exp === "number"] *)
Definition wellFormedPayload (payload : object) : bool :=
  match getProperty "username" payload, getProperty "exp" payload with
  | VStr _, VNum _ => true
  | _, _ => false
  end.

Section Jose.

(** The [jose] library: [jwtVerify(token, key)] settles to the claims of
    the token or rejects; [SignJWT ... .sign(key)] settles to a token. *)
Variable jwtVerify : string -> string -> result object.
Variable signJWT : object -> string -> result string.

Definition createSession (e : env) (now : Z) (username : string) : result string :=
  let payload :=
    [("username", VStr username); ("exp", VNum (now / 1000 + SESSION_DURATION))] in
  key ← getSecretKey e;
  signJWT payload key.

Definition verifySession (e : env) (token : string) : result (option object) :=
  try_catch
    (key ← getSecretKey e;
     payload ← jwtVerify token key;
     if wellFormedPayload payload then Ok (Some payload) else Ok None)
    (fun _ => Ok None).

End Jose.

Definition SESSION_COOKIE_NAME : string := "cms-session".

(** The cookies of the request, as [cookies()] of [next/headers] shows
    them inside a request: name to value. *)
Abbreviation cookieStore := (gmap string string).

Section Cookies.

Variable jwtVerify : string -> string -> result object.

Definition getSessionFromCookies (e : env) (cookies : cookieStore)
  : result (option object) :=
  match cookies !! SESSION_COOKIE_NAME with
  | Some token =>
      if String.eqb token "" then Ok None else verifySession jwtVerify e token
  | None => Ok None
  end.

End Cookies.

End Session.


(* ================================================================== *)
(** ** content/storage.ts: the three providers

    Each provider is modelled over the state of its backend as the
    backend's API shows it. The methods embedded here are [readFile],
    [deleteFile] and [exists]. *)

Module Storage.

Class StorageProvider (P B : Type) : Type := {
  readFile : P -> string -> B -> result string * B;
  deleteFile : P -> string -> B -> result unit * B;
  exists_ : P -> string -> B -> bool * B
}.

(** *** LocalStorage over [fs/promises] *)

Inductive node : Type :=
  | RegularFile (content : string)
  | Directory.

(** The file system: what exists at each absolute path. *)
Abbreviation fs := (gmap string node).

Definition fs_readFile (fullPath : string) (disk : fs) : result string :=
  match disk !! fullPath with
  | Some (RegularFile content) => Ok content
  | Some Directory => Throw EISDIR
  | None => Throw ENOENT
  end.

Definition fs_unlink (fullPath : string) (disk : fs) : result unit * fs :=
  match disk !! fullPath with
  | Some (RegularFile _) => (Ok tt, delete fullPath disk)
  | Some Directory => (Throw EISDIR, disk)
  | None => (Throw ENOENT, disk)
  end.

Definition fs_access (fullPath : string) (disk : fs) : result unit :=
  match disk !! fullPath with
  | Some _ => Ok tt
  | None => Throw ENOENT
  end.

Record LocalStorage : Type := {
  cwd : string;                       (* process.cwd() *)
  localBaseDir : string               (* "public/content" by default *)
}.

Definition getFullPath (this : LocalStorage) (filePath : string) : string :=
  Path.join [cwd this; localBaseDir this; filePath].

Global Instance LocalStorage_provider : StorageProvider LocalStorage fs := {|
  readFile this filePath disk :=
    (fs_readFile (getFullPath this filePath) disk, disk);
  deleteFile this filePath disk :=
    fs_unlink (getFullPath this filePath) disk;
  exists_ this filePath disk :=
    (match fs_access (getFullPath this filePath) disk with
     | Ok _ => true
     | Throw _ => false
     end, disk)
|}.

(** *** GitHubStorage over the contents API *)

(** What [repos.getContent] answers for a path of the branch: a file
    object (it has [sha] and [content]) or the array listing a
    directory. *)
Inductive contents : Type :=
  | FileObject (sha content : string)
  | Listing (names : list string).

Abbreviation repository := (gmap string contents).

Definition octokit_getContent (path : string) (repo : repository) : result contents :=
  match repo !! path with
  | Some data => Ok data
  | None => Throw HttpNotFound
  end.

(** [repos.deleteFile] removes the blob when [sha] is its current one. *)
Definition octokit_deleteFile (path sha : string) (repo : repository)
  : result unit * repository :=
  match repo !! path with
  | Some (FileObject current _) =>
      if String.eqb current sha then (Ok tt, delete path repo)
      else (Throw (BackendError 409), repo)
  | Some (Listing _) => (Throw (BackendError 422), repo)
  | None => (Throw HttpNotFound, repo)
  end.

Record GitHubStorage : Type := {
  owner : string;
  repo : string;
  branch : string;
  githubBaseDir : string              (* "public/content" *)
}.

Definition getGitHubPath (this : GitHubStorage) (filePath : string) : string :=
  githubBaseDir this +:+ "/" +:+ filePath.

Global Instance GitHubStorage_provider : StorageProvider GitHubStorage repository := {|
  readFile this filePath repo :=
    (data ← octokit_getContent (getGitHubPath this filePath) repo;
     match data with
     | FileObject _ content => Ok content
     | Listing _ => Throw FileNotFoundOrEmpty
     end, repo);
  deleteFile this filePath repo :=
    let githubPath := getGitHubPath this filePath in
    match octokit_getContent githubPath repo with
    | Throw e => (Throw e, repo)
    | Ok (FileObject sha _) => octokit_deleteFile githubPath sha repo
    | Ok (Listing _) => (Ok tt, repo)
    end;
  exists_ this filePath repo :=
    (match octokit_getContent (getGitHubPath this filePath) repo with
     | Ok _ => true
     | Throw _ => false
     end, repo)
|}.

(** *** CloudflareR2Storage over the S3 API *)

(** The bucket: the body stored under each key. *)
Abbreviation bucket := (gmap string string).

Definition s3_GetObject (key : string) (objects : bucket) : result string :=
  match objects !! key with
  | Some body => Ok body
  | None => Throw NoSuchKey
  end.

(** [DeleteObjectCommand]: the S3 API answers 204 whether or not the key
    held an object. *)
Definition s3_DeleteObject (key : string) (objects : bucket) : result unit * bucket :=
  (Ok tt, delete key objects).

Record CloudflareR2Storage : Type := {
  bucketName : string;
  publicUrl : string;
  r2BaseDir : string                  (* "content" *)
}.

Definition getR2Path (this : CloudflareR2Storage) (filePath : string) : string :=
  r2BaseDir this +:+ "/" +:+ filePath.

Global Instance CloudflareR2Storage_provider
  : StorageProvider CloudflareR2Storage bucket := {|
  readFile this filePath objects :=
    (bodyContents ← s3_GetObject (getR2Path this filePath) objects;
     if String.eqb bodyContents "" then Throw FileNotFoundOrEmpty
     else Ok bodyContents, objects);
  deleteFile this filePath objects :=
    s3_DeleteObject (getR2Path this filePath) objects;
  exists_ this filePath objects :=
    (match s3_GetObject (getR2Path this filePath) objects with
     | Ok _ => true
     | Throw _ => false
     end, objects)
|}.

(** An error that reports a missing item. *)
Definition isNotFound (e : error) : bool :=
  match e with
  | ENOENT | HttpNotFound | NoSuchKey | FileNotFoundOrEmpty => true
  | _ => false
  end.

End Storage.


(* ================================================================== *)
(** ** The [gray-matter] library, default options

    [matter(input)] and [matter.stringify(content, data)] as
    [content/markdown.ts] calls them: delimiters [---], language [yaml],
    no excerpt, no sections. The front-matter engines are parameters:
    [engineParse language block] is the data the library derives from a
    raw block (the engine's parser; an empty object, without calling the
    engine, for a block that is blank once comment lines are removed) and
    [engineStringify language data] is what the engine prints. An engine
    that is not registered or that rejects its input throws. The memo
    table [matter.cache] is left out: a cached file holds the same data
    and content as a fresh parse. *)

Module GrayMatter.

Record file : Type := {
  data : object;
  content : string;
  language : string     (* file.language || opts.language *)
}.

Definition BOM : string :=
  String (ascii_of_N 239) (String (ascii_of_N 187) (String (ascii_of_N 191) EmptyString)).

Definition stripBom (s : string) : string :=
  if JS.startsWith BOM s then JS.drop 3 s else s.

(** [newline(str)] of [lib/stringify.js] *)
Definition newline (s : string) : string :=
  if JS.endsWith_char JS.LF s then s else s +:+ JS.LFs.

Definition opening : string := "---".
Definition closing : string := String JS.LF "---".

(** The body that follows the closing delimiter: one leading CR and one
    leading LF are removed. *)
Definition afterClosing (s : string) : string :=
  let s := match s with
           | String a s' => if Ascii.eqb a JS.CR then s' else s
           | EmptyString => s
           end in
  match s with
  | String a s' => if Ascii.eqb a JS.LF then s' else s
  | EmptyString => s
  end.

(** Empty, or ending with a line feed. *)
Definition terminated (s : string) : Prop :=
  s = "" \/ JS.endsWith_char JS.LF s = true.

Section Engines.

Variable engineParse : string -> string -> result object.
Variable engineStringify : string -> object -> result string.

Definition parseMatter (input : string) : result file :=
  let untouched := {| data := []; content := input; language := "yaml" |} in
  if negb (JS.startsWith opening input) then Ok untouched
  else if JS.startsWith "-" (JS.drop 3 input) then Ok untouched
  else
    let str := JS.drop 3 input in
    let raw :=
      match JS.searchNewline str with
      | Some i => JS.take i str
      | None => JS.dropLastChar str
      end in
    let name := JS.trim raw in
    let language := if String.eqb name "" then "yaml" else name in
    let str := if String.eqb name "" then str else JS.drop (String.length raw) str in
    let closeIndex := JS.indexOf closing str in
    let block :=
      match closeIndex with
      | Some i => JS.take i str
      | None => str
      end in
    data ← engineParse language block;
    let content :=
      match closeIndex with
      | Some i => afterClosing (JS.drop (i + 4) str)
      | None => EmptyString
      end in
    Ok {| data := data; content := content; language := language |}.

Definition matter (input : string) : result file :=
  if String.eqb input "" then
    Ok {| data := []; content := input; language := "yaml" |}
  else parseMatter (stripBom input).

(** [Object.assign({}, ...sources)] *)
Definition assignAll (sources : list object) : object :=
  fold_left
    (fun target source =>
       fold_left (fun t kv => setProperty kv.1 kv.2 t) source target)
    sources [].

Definition stringify (f : file) (data : object) : result string :=
  let str := content f in
  let data := assignAll [GrayMatter.data f; data] in
  text ← engineStringify (language f) data;
  let matter := JS.trim text in
  let buf :=
    if String.eqb matter "{}" then EmptyString
    else newline opening +:+ newline matter +:+ newline opening in
  Ok (buf +:+ newline str).

(** [matter.stringify(file, data)] for a string [file] *)
Definition matter_stringify (content : string) (data : object) : result string :=
  f ← matter content;
  stringify f data.

End Engines.

End GrayMatter.

(* ================================================================== *)
(** ** Programs that call the storage provider

    The content layer obtains a provider from [getStorageProvider()] and
    awaits its methods. A program is the tree of those calls; [run]
    executes it against any provider, given as a handler over the state
    of its backend, and records the calls made. *)

Module Provider.

Inductive EntryType : Type := file | directory.

Global Instance EntryType_eq_dec : EqDecision EntryType.
Proof. solve_decision. Defined.

Record FileEntry : Type := { path : string; name : string; type : EntryType }.

Inductive StorageCall : Type -> Type :=
  | readFile (filePath : string) : StorageCall string
  | writeFile (filePath content : string) : StorageCall unit
  | deleteFile (filePath : string) : StorageCall unit
  | listFiles (directory : string) : StorageCall (list FileEntry)
  | exists_ (filePath : string) : StorageCall bool
  | uploadFile (filePath buffer : string) : StorageCall string.

(** The path argument of a call. *)
Definition callPath {X} (c : StorageCall X) : string :=
  match c with
  | readFile p | writeFile p _ | deleteFile p | listFiles p | exists_ p
  | uploadFile p _ => p
  end.

Inductive io (A : Type) : Type :=
  | Return (a : A)
  | Raise (e : error)
  | Await {X : Type} (call : StorageCall X) (k : result X -> io A).
Arguments Return {A} a.
Arguments Raise {A} e.
Arguments Await {A X} call k.

Fixpoint io_bind {A B} (f : A -> io B) (m : io A) : io B :=
  match m with
  | Return a => f a
  | Raise e => Raise e
  | Await c k => Await c (fun r => io_bind f (k r))
  end.

Global Instance io_ret : MRet io := fun A a => Return a.
Global Instance io_mbind : MBind io := fun A B f m => io_bind f m.

(** [await storage.method(...)]: a rejection is rethrown. *)
Definition await {X} (c : StorageCall X) : io X :=
  Await c (fun r => match r with Ok x => Return x | Throw e => Raise e end).

(** A synchronous computation inside an [async] function. *)
Definition lift {A} (r : result A) : io A :=
  match r with
  | Ok a => Return a
  | Throw e => Raise e
  end.

(** [try { m } catch (error) { h }] *)
Fixpoint io_catch {A} (m : io A) (h : error -> io A) : io A :=
  match m with
  | Return a => Return a
  | Raise e => h e
  | Await c k => Await c (fun r => io_catch (k r) h)
  end.

Inductive invocation : Type :=
  | Invoked {X : Type} (call : StorageCall X).

Definition invokedPath (i : invocation) : string :=
  match i with Invoked c => callPath c end.

Definition isWrite (i : invocation) : bool :=
  match i with
  | Invoked (writeFile _ _) => true
  | Invoked _ => false
  end.

(** A provider over backend states [B]. *)
Definition handler (B : Type) : Type :=
  forall X, StorageCall X -> B -> result X * B.

(** The outcome of a program, the final backend state and the calls made,
    in order. *)
Fixpoint run {B A} (h : handler B) (m : io A) (b : B)
  : result A * B * list invocation :=
  match m with
  | Return a => (Ok a, b, [])
  | Raise e => (Throw e, b, [])
  | Await c k =>
      let '(r, b') := h _ c b in
      let '(out, b'', log) := run h (k r) b' in
      (out, b'', Invoked c :: log)
  end.

Definition outcome {B A} (h : handler B) (m : io A) (b : B) : result A :=
  (run h m b).1.1.
Definition finalState {B A} (h : handler B) (m : io A) (b : B) : B :=
  (run h m b).1.2.
Definition calls {B A} (h : handler B) (m : io A) (b : B) : list invocation :=
  (run h m b).2.

End Provider.

(* ================================================================== *)
(** ** content/storage.ts, continued: the R2 provider as a whole and the
       choice of a provider

    [PutObject] stores a body under a key. What [ListObjectsV2] answers
    for a prefix and the delimiter [/] is a parameter: the listing only
    rearranges that answer. *)

Module Backend.

(** [PutObjectCommand] *)
Definition s3_PutObject (key body : string) (objects : Storage.bucket)
  : result unit * Storage.bucket :=
  (Ok tt, <[key := body]> objects).

(** The answer to [ListObjectsV2Command]: the [Prefix] of each common
    prefix and the [Key] of each object, where the service sent them. *)
Record ListObjectsV2Output : Type := {
  CommonPrefixes : option (list (option string));
  Contents : option (list (option string))
}.

Section CloudflareR2.

Variable s3_ListObjectsV2 : string -> Storage.bucket -> result ListObjectsV2Output.

Definition writeFile (this : Storage.CloudflareR2Storage) (filePath content : string)
    (objects : Storage.bucket) : result unit * Storage.bucket :=
  s3_PutObject (Storage.getR2Path this filePath) content objects.

Definition uploadFile (this : Storage.CloudflareR2Storage) (filePath buffer : string)
    (objects : Storage.bucket) : result string * Storage.bucket :=
  let uploadPath := "uploads/" +:+ filePath in
  let '(sent, objects') := s3_PutObject uploadPath buffer objects in
  (_ ← sent; Ok (Storage.publicUrl this +:+ "/" +:+ uploadPath), objects').

(** The body of the loop over [response.CommonPrefixes]. *)
Definition directoryEntry (this : Storage.CloudflareR2Storage) (directory : string)
    (prefix : option string) : option Provider.FileEntry :=
  match prefix with
  | Some p =>
      if String.eqb p "" then None
      else
        let name :=
          JS.removeFirst "/"
            (JS.removeFirst
               (if String.eqb directory "" then EmptyString else directory +:+ "/")
               (JS.removeFirst (Storage.r2BaseDir this +:+ "/") p)) in
        if String.eqb name "" then None
        else
          Some {| Provider.path :=
                    if String.eqb directory "" then name else directory +:+ "/" +:+ name;
                  Provider.name := name;
                  Provider.type := Provider.directory |}
  | None => None
  end.

(** The body of the loop over [response.Contents]; [prefix] is the
    prefix that was listed. *)
Definition fileEntry (this : Storage.CloudflareR2Storage) (prefix : string)
    (key : option string) : option Provider.FileEntry :=
  match key with
  | Some k =>
      if String.eqb k "" || String.eqb k prefix then None
      else
        let fullPath := JS.removeFirst (Storage.r2BaseDir this +:+ "/") k in
        let name := Path.basename fullPath in
        if JS.endsWith ".md" name then
          Some {| Provider.path := fullPath; Provider.name := name;
                  Provider.type := Provider.file |}
        else None
  | None => None
  end.

Definition listFiles (this : Storage.CloudflareR2Storage) (directory : string)
    (objects : Storage.bucket) : result (list Provider.FileEntry) * Storage.bucket :=
  let prefix :=
    if String.eqb directory "" then Storage.r2BaseDir this +:+ "/"
    else Storage.r2BaseDir this +:+ "/" +:+ directory +:+ "/" in
  match s3_ListObjectsV2 prefix objects with
  | Ok response =>
      (Ok (omap (directoryEntry this directory) (default [] (CommonPrefixes response))
           ++ omap (fileEntry this prefix) (default [] (Contents response))),
       objects)
  | Throw _ => (Ok [], objects)
  end.

(** The six methods of [CloudflareR2Storage], as a provider that the
    content layer can run against. *)
Definition r2Provider (this : Storage.CloudflareR2Storage)
  : Provider.handler Storage.bucket :=
  fun X call =>
    match call in Provider.StorageCall X
          return Storage.bucket -> result X * Storage.bucket with
    | Provider.readFile filePath => Storage.readFile this filePath
    | Provider.writeFile filePath content => writeFile this filePath content
    | Provider.deleteFile filePath => Storage.deleteFile this filePath
    | Provider.listFiles directory => listFiles this directory
    | Provider.exists_ filePath => fun objects =>
        let '(found, objects') := Storage.exists_ this filePath objects in
        (Ok found, objects')
    | Provider.uploadFile filePath buffer => uploadFile this filePath buffer
    end.

End CloudflareR2.

(** *** Constructors and [getStorageProvider] *)

Inductive configurationError : Type :=
  | R2SettingsMissing        (* "CLOUDFLARE_ACCOUNT_ID, ... must be set for Cloudflare R2 storage" *)
  | GitHubSettingsMissing    (* "GITHUB_TOKEN and GITHUB_REPO must be set for production" *)
  | GitHubRepoMalformed.     (* "GITHUB_REPO must be in format owner/repo" *)

Inductive chosen (A : Type) : Type :=
  | Built (a : A)
  | Misconfigured (why : configurationError).
Arguments Built {A} a.
Arguments Misconfigured {A} why.

Definition newCloudflareR2Storage (e : env) : chosen Storage.CloudflareR2Storage :=
  match configured e "CLOUDFLARE_ACCOUNT_ID",
        configured e "CLOUDFLARE_ACCESS_KEY_ID",
        configured e "CLOUDFLARE_SECRET_ACCESS_KEY",
        configured e "NEXT_PUBLIC_R2_PUBLIC_URL",
        configured e "R2_BUCKET_NAME" with
  | Some _, Some _, Some _, Some publicUrl, Some bucketName =>
      Built {| Storage.bucketName := bucketName;
               Storage.publicUrl :=
                 if JS.endsWith_char "/" publicUrl then JS.dropLastChar publicUrl
                 else publicUrl;
               Storage.r2BaseDir := "content" |}
  | _, _, _, _, _ => Misconfigured R2SettingsMissing
  end.

Definition newGitHubStorage (e : env) : chosen Storage.GitHubStorage :=
  match configured e "GITHUB_TOKEN", configured e "GITHUB_REPO" with
  | Some _, Some repoInfo =>
      match JS.split "/" repoInfo with
      | owner :: repo :: _ =>
          if String.eqb owner "" || String.eqb repo "" then
            Misconfigured GitHubRepoMalformed
          else
            Built {| Storage.owner := owner; Storage.repo := repo;
                     Storage.branch := default "main" (configured e "GITHUB_BRANCH");
                     Storage.githubBaseDir := "public/content" |}
      | _ => Misconfigured GitHubRepoMalformed
      end
  | _, _ => Misconfigured GitHubSettingsMissing
  end.

Inductive provider : Type :=
  | R2 (this : Storage.CloudflareR2Storage)
  | GitHub (this : Storage.GitHubStorage)
  | Local (this : Storage.LocalStorage).

(** [getStorageProvider()]; [cwd] is [process.cwd()]. *)
Definition getStorageProvider (e : env) (cwd : string) : chosen provider :=
  match configured e "CLOUDFLARE_ACCOUNT_ID",
        configured e "CLOUDFLARE_ACCESS_KEY_ID",
        configured e "CLOUDFLARE_SECRET_ACCESS_KEY" with
  | Some _, Some _, Some _ =>
      match newCloudflareR2Storage e with
      | Built this => Built (R2 this)
      | Misconfigured why => Misconfigured why
      end
  | _, _, _ =>
      if bool_decide (e !! "NODE_ENV" = Some "production")
         && bool_decide (is_Some (configured e "GITHUB_TOKEN")) then
        match newGitHubStorage e with
        | Built this => Built (GitHub this)
        | Misconfigured why => Misconfigured why
        end
      else
        Built (Local {| Storage.cwd := cwd; Storage.localBaseDir := "public/content" |})
  end.

End Backend.


(* ================================================================== *)
(** ** content/markdown.ts, content/directory.ts, content/collection.ts,
       content/upload.ts *)

Module Content.

Import Provider.

Record MarkdownData : Type := { content : string; data : object }.

Record CollectionItem : Type := {
  itemContent : string;
  itemData : object;
  slug : string
}.

Section Engines.

Variable engineParse : string -> string -> result object.
Variable engineStringify : string -> object -> result string.

Definition parseMarkdown (rawContent : string) : result MarkdownData :=
  f ← GrayMatter.matter engineParse rawContent;
  Ok {| content := GrayMatter.content f; data := GrayMatter.data f |}.

Definition stringifyMarkdown (data : object) (content : string) : result string :=
  GrayMatter.matter_stringify engineParse engineStringify content data.

Definition getMarkdownContent (filePath : string) : io MarkdownData :=
  validatedPath ← lift (Validation.validateFilePath filePath);
  rawContent ← await (readFile validatedPath);
  let size := JS.byteLength rawContent in
  if size >? Validation.MAX_FILE_SIZE then Raise (FileTooLarge size)
  else lift (parseMarkdown rawContent).

Definition saveMarkdownContent (filePath : string) (data : object) (content : string)
  : io unit :=
  validatedPath ← lift (Validation.validateFilePath filePath);
  let sanitizedData := Validation.sanitizeFrontmatter data in
  markdown ← lift (stringifyMarkdown sanitizedData content);
  let size := JS.byteLength markdown in
  if size >? Validation.MAX_FILE_SIZE then Raise (FileTooLarge size)
  else await (writeFile validatedPath markdown).

Definition deleteMarkdownContent (filePath : string) : io unit :=
  validatedPath ← lift (Validation.validateFilePath filePath);
  await (deleteFile validatedPath).

Definition listMarkdownFiles (directory : string) : io (list string) :=
  validatedDir ←
    (if String.eqb directory "" then Return EmptyString
     else lift (Validation.validateFilePath directory));
  entries ← await (listFiles validatedDir);
  Return (map path (filter (fun entry => type entry = file) entries)).

Definition markdownFileExists (filePath : string) : io bool :=
  validatedPath ← lift (Validation.validateFilePath filePath);
  await (exists_ validatedPath).

(** content/directory.ts *)
Definition listDirectory (directory : string) : io (list FileEntry) :=
  await (listFiles directory).

(** content/collection.ts. What [getCollectionItem] does with the provider
    its first statement obtained; that statement is [withStorageProvider]
    below. *)
Definition getCollectionItem (folderName slug : string) : io (option CollectionItem) :=
  let filePath := folderName +:+ "/" +:+ slug +:+ ".md" in
  io_catch
    (found ← await (exists_ filePath);
     if negb found then Return None
     else
       rawContent ← await (readFile filePath);
       parsed ← lift (parseMarkdown rawContent);
       Return (Some {| itemContent := content parsed; itemData := data parsed;
                       slug := slug |}))
    (fun _ => Return None).

End Engines.

(** content/upload.ts; [timestamp] is [Date.now()]. *)
Definition uploadFile (timestamp : Z) (fileName buffer : string) : io string :=
  let ext := List.last (JS.split "." fileName) EmptyString in
  let nameWithoutExt := JS.removeFirst ("." +:+ ext) fileName in
  let uniqueFileName :=
    nameWithoutExt +:+ "-" +:+ JS.ofInt timestamp +:+ "." +:+ ext in
  await (Provider.uploadFile uniqueFileName buffer).

(** content/collection.ts, the listings *)

(** [file.path.split("/").pop().replace(/\.md$/, "")] *)
Definition slugOfPath (p : string) : string :=
  JS.removeSuffix ".md" (List.last (JS.split "/" p) EmptyString).

(** [Promise.all(files.map(async (file) => ...))]: every call is issued,
    in the order of the list, before any answer is looked at. *)
Fixpoint awaitEach {X} (calls : list (StorageCall X)) : io (list (result X)) :=
  match calls with
  | [] => Return []
  | call :: later =>
      Await call (fun answer => answers ← awaitEach later; Return (answer :: answers))
  end.

(** All of the values, or the first rejection: the provider answers in
    the order asked, so the first promise to reject is the first of the
    list that rejects. *)
Fixpoint all {A} (settled : list (result A)) : result (list A) :=
  match settled with
  | [] => Ok []
  | first :: later => a ← first; rest ← all later; Ok (a :: rest)
  end.

Section Collections.

Variable engineParse : string -> string -> result object.

(** The body of the [async] function mapped over the files, after its
    [readFile] settled. *)
Definition collectionItem (file : FileEntry) (answer : result string)
  : result CollectionItem :=
  rawContent ← answer;
  parsed ← parseMarkdown engineParse rawContent;
  Ok {| itemContent := content parsed; itemData := data parsed;
        slug := slugOfPath (path file) |}.

Definition getCollectionItems (folderName : string) : io (list CollectionItem) :=
  entries ← await (listFiles folderName);
  let mdFiles :=
    filter (fun entry => type entry = Provider.file
                         /\ JS.endsWith ".md" (path entry) = true) entries in
  answers ← awaitEach (map (fun file => readFile (path file)) mdFiles);
  lift (all (zip_with collectionItem mdFiles answers)).

Definition getCollections (baseDir : string) : io (list string) :=
  entries ← await (listFiles baseDir);
  Return
    (filter (fun name => name ≠ "")
       (map (fun entry => List.last (JS.split "/" (path entry)) EmptyString)
          (filter (fun entry => type entry = directory) entries))).

End Collections.

(** [const storage = getStorageProvider()], the first statement of the
    functions of content/collection.ts, followed by the rest of the
    function run against the provider built. In [getCollectionItem] the
    statement stands before the [try]: when a constructor throws, the
    [async] function rejects with that error and no provider method is
    called. [serve] is the backend behind each provider. *)
Definition withStorageProvider {B A : Type} (serve : Backend.provider -> handler B)
    (e : env) (cwd : string) (body : io A) (b : B)
  : Backend.chosen (result A * B * list invocation) :=
  match Backend.getStorageProvider e cwd with
  | Backend.Built storage => Backend.Built (run (serve storage) body b)
  | Backend.Misconfigured why => Backend.Misconfigured why
  end.

End Content.

(* ================================================================== *)
(** ** api/handlers.ts: the login endpoint *)

Module Handlers.

Record request : Type := {
  headers : gmap string string;
  json : result value                 (* what [await request.json()] settles to *)
}.

Record response : Type := {
  status : Z;
  body : object;
  retryAfterHeader : option string;
  sessionCookie : option string
}.

Definition jsonResponse (status : Z) (body : object) : response :=
  {| status := status; body := body; retryAfterHeader := None;
     sessionCookie := None |}.

(** The values of [Date.now()] at its call sites. *)
Record clock : Type := {
  atCheck : Z;        (* inside checkRateLimit *)
  atRetryAfter : Z;   (* computing retryAfter *)
  atIncrement : Z;    (* inside incrementRateLimit *)
  atSession : Z       (* inside createSession *)
}.

(** [a || b] on optional strings: the first that is set and not empty. *)
Definition orElse (a : option string) (b : option string) : option string :=
  match a with
  | Some s => if String.eqb s "" then b else Some s
  | None => b
  end.

Definition clientIp (req : request) : string :=
  let forwarded :=
    (fun v => List.hd EmptyString (JS.split "," v)) <$> headers req !! "x-forwarded-for" in
  default "unknown" (orElse (orElse forwarded (headers req !! "x-real-ip")) None).

(** [Math.ceil(ms / 1000)] *)
Definition ceilSeconds (ms : Z) : Z := - ((- ms) / 1000).

(** [const { username, password } = body]: reading a property of [null]
    throws; a value without the property yields [undefined]. *)
Definition destructure (body : value) : result (value * value) :=
  match body with
  | VNull | VUndefined => Throw MalformedBody
  | VObj props => Ok (getProperty "username" props, getProperty "password" props)
  | _ => Ok (VUndefined, VUndefined)
  end.

Definition usernameText (username : value) : string :=
  match username with
  | VStr s => s
  | _ => EmptyString
  end.

(** The answers to a failed login and to a rate-limited client. *)
Definition invalidCredentials : response :=
  jsonResponse 401 [("error", VStr "Invalid credentials")].

Definition tooManyAttempts (retryAfter : Z) : response :=
  {| status := 429;
     body := [("error", VStr "Too many login attempts. Please try again later.");
              ("retryAfter", VNum retryAfter)];
     retryAfterHeader := Some (JS.ofInt retryAfter);
     sessionCookie := None |}.

(** The clock readings of one call that matter to the rate limiter fall
    before [deadline]. *)
Definition within (deadline : Z) (t : clock) : Prop :=
  atCheck t <= deadline /\ atIncrement t <= deadline.

Section Jose.

Variable signJWT : object -> string -> result string.

Definition handleLogin (e : env) (t : clock) (req : request)
    (rateLimitStore : RateLimit.store) : response * RateLimit.store :=
  let ip := clientIp req in
  let '(rateLimit, st) := RateLimit.checkRateLimit (atCheck t) ip rateLimitStore in
  let unavailable :=
    jsonResponse 500
      [("error", VStr "Authentication service temporarily unavailable")] in
  if RateLimit.isLimited rateLimit then
    let retryAfter := ceilSeconds (RateLimit.resetAt rateLimit - atRetryAfter t) in
    (tooManyAttempts retryAfter, st)
  else
    match json req ≫= destructure with
    | Throw _ => (unavailable, st)
    | Ok (username, password) =>
        if negb (truthy username) || negb (truthy password) then
          (jsonResponse 400 [("error", VStr "Username and password are required")], st)
        else
          match Login.validateCredentials e username password with
          | Throw _ => (unavailable, st)
          | Ok false =>
              (invalidCredentials,
               RateLimit.incrementRateLimit (atIncrement t) ip st)
          | Ok true =>
              let st := RateLimit.resetRateLimit ip st in
              match Session.createSession signJWT e (atSession t)
                      (usernameText username) with
              | Throw _ => (unavailable, st)
              | Ok token =>
                  ({| status := 200; body := [("success", VBool true)];
                      retryAfterHeader := None; sessionCookie := Some token |}, st)
              end
          end
    end.

(** The same request served once per clock, one call after the other. *)
Fixpoint serve (e : env) (clocks : list clock) (req : request)
    (rateLimitStore : RateLimit.store) : list response * RateLimit.store :=
  match clocks with
  | [] => ([], rateLimitStore)
  | t :: later =>
      let '(answer, st) := handleLogin e t req rateLimitStore in
      let '(answers, st') := serve e later req st in
      (answer :: answers, st')
  end.

End Jose.

(** *** The content, listing and upload endpoints *)

(** The body of a save request, of the declared type
    [{ data?: Record<string, any>; content?: string }]. *)
Record saveBody : Type := {
  bodyData : option object;
  bodyContent : option string
}.

(** What [formData.get("file")] yields: a file, or the text of a field
    that is not a file. *)
Inductive formEntry : Type :=
  | FormFile (name bytes : string)
  | FormText (text : string).

Definition unauthorized : response :=
  jsonResponse 401 [("error", VStr "Unauthorized")].

Definition entryValue (entry : Provider.FileEntry) : value :=
  VObj [("path", VStr (Provider.path entry));
        ("name", VStr (Provider.name entry));
        ("type", VStr match Provider.type entry with
                      | Provider.file => "file"
                      | Provider.directory => "directory"
                      end)].

Section Endpoints.

Import Provider.

Variable jwtVerify : string -> string -> result object.
Variable engineParse : string -> string -> result object.
Variable engineStringify : string -> object -> result string.

Definition handleGetContent (e : env) (cookies : Session.cookieStore)
    (filePath : string) : io response :=
  io_catch
    (session ← lift (Session.getSessionFromCookies jwtVerify e cookies);
     match session with
     | None => Return unauthorized
     | Some _ =>
         content ← Content.getMarkdownContent engineParse filePath;
         Return (jsonResponse 200 [("data", VObj (Content.data content));
                                   ("content", VStr (Content.content content))])
     end)
    (fun _ => Return (jsonResponse 500 [("error", VStr "Failed to read content")])).

Definition handleSaveContent (e : env) (cookies : Session.cookieStore)
    (json : result saveBody) (filePath : string) : io response :=
  io_catch
    (session ← lift (Session.getSessionFromCookies jwtVerify e cookies);
     match session with
     | None => Return unauthorized
     | Some _ =>
         body ← lift json;
         _ ← Content.saveMarkdownContent engineParse engineStringify filePath
               (default [] (bodyData body))
               (default EmptyString (bodyContent body));
         Return (jsonResponse 200 [("success", VBool true)])
     end)
    (fun _ => Return (jsonResponse 500 [("error", VStr "Failed to save content")])).

Definition handleDeleteContent (e : env) (cookies : Session.cookieStore)
    (filePath : string) : io response :=
  io_catch
    (session ← lift (Session.getSessionFromCookies jwtVerify e cookies);
     match session with
     | None => Return unauthorized
     | Some _ =>
         _ ← Content.deleteMarkdownContent filePath;
         Return (jsonResponse 200 [("success", VBool true)])
     end)
    (fun _ => Return (jsonResponse 500 [("error", VStr "Failed to delete content")])).

Definition handleListFiles (e : env) (cookies : Session.cookieStore)
    (directory : string) : io response :=
  io_catch
    (session ← lift (Session.getSessionFromCookies jwtVerify e cookies);
     match session with
     | None => Return unauthorized
     | Some _ =>
         entries ← Content.listDirectory directory;
         Return (jsonResponse 200 [("entries", VArr (map entryValue entries))])
     end)
    (fun _ => Return (jsonResponse 500 [("error", VStr "Failed to list files")])).

(** api/upload.ts; [file] is what [(await request.formData()).get("file")]
    settles to and [timestamp] the [Date.now()] of [uploadFile]. *)
Definition handleUpload (e : env) (cookies : Session.cookieStore) (timestamp : Z)
    (file : result (option formEntry)) : io response :=
  io_catch
    (session ← lift (Session.getSessionFromCookies jwtVerify e cookies);
     match session with
     | None => Return unauthorized
     | Some _ =>
         entry ← lift file;
         match entry with
         | None | Some (FormText EmptyString) =>
             Return (jsonResponse 400 [("error", VStr "No file provided")])
         | Some (FormText _) =>
             (* [file.arrayBuffer] is not a function *)
             Raise (BackendError 0)
         | Some (FormFile name bytes) =>
             publicUrl ← Content.uploadFile timestamp name bytes;
             Return (jsonResponse 200 [("success", VBool true);
                                       ("url", VStr publicUrl);
                                       ("filename", VStr name)])
         end
     end)
    (fun _ => Return (jsonResponse 500 [("error", VStr "Failed to upload file")])).

(** [createContentApiHandlers()]: the three methods, for the segments of
    the catch-all route. *)
Definition contentGET (e : env) (cookies : Session.cookieStore) (path : list string)
  : io response :=
  handleGetContent e cookies (JS.join "/" path).

Definition contentPOST (e : env) (cookies : Session.cookieStore)
    (json : result saveBody) (path : list string) : io response :=
  handleSaveContent e cookies json (JS.join "/" path).

Definition contentDELETE (e : env) (cookies : Session.cookieStore) (path : list string)
  : io response :=
  handleDeleteContent e cookies (JS.join "/" path).

(** [createListApiHandlers()]: [params?.path?.join("/") || ""] *)
Definition listGET (e : env) (cookies : Session.cookieStore)
    (path : option (list string)) : io response :=
  handleListFiles e cookies
    match path with
    | Some segments => JS.join "/" segments
    | None => EmptyString
    end.

End Endpoints.

End Handlers.

(* ================================================================== *)
(** ** middleware/auth.ts *)

Module Middleware.

Record options : Type := {
  loginPath : option string;
  protectedPaths : option (list string)
}.

(** What the middleware answers: [NextResponse.next()], or a redirect to
    the URL of the request with [pathname] replaced and the query
    parameter [from] set. *)
Inductive answer : Type :=
  | next
  | redirect (pathname from : string).

Section Jose.

Variable jwtVerify : string -> string -> result object.

Definition createAuthMiddleware (opts : options) (e : env)
    (cookies : Session.cookieStore) (pathname : string) : result answer :=
  let loginPath :=
    match loginPath opts with
    | Some p => if String.eqb p "" then "/admin/login" else p
    | None => "/admin/login"
    end in
  let protectedPaths := default ["/admin"] (protectedPaths opts) in
  let isProtected := existsb (fun path => JS.startsWith path pathname) protectedPaths in
  if negb isProtected then Ok next
  else if String.eqb pathname loginPath then Ok next
  else
    session ← Session.getSessionFromCookies jwtVerify e cookies;
    match session with
    | None => Ok (redirect loginPath pathname)
    | Some _ => Ok next
    end.

End Jose.

End Middleware.


(* ================================================================== *)
(** ** Stand-ins for the examples

    A provider kept in memory and a front-matter engine for maps of plain
    one-line strings. They instantiate the general statements below at
    concrete inputs and are not part of the modelled code. *)

Module Samples.

Import Provider.

Definition memoryProvider : handler (gmap string string) :=
  fun X call =>
    match call in StorageCall X return gmap string string -> result X * gmap string string with
    | readFile p => fun files =>
        (match files !! p with Some c => Ok c | None => Throw ENOENT end, files)
    | writeFile p c => fun files => (Ok tt, <[p := c]> files)
    | deleteFile p => fun files =>
        (match files !! p with Some _ => Ok tt | None => Throw ENOENT end,
         delete p files)
    | listFiles _ => fun files => (Ok [], files)
    | exists_ p => fun files => (Ok (bool_decide (is_Some (files !! p))), files)
    | uploadFile p c => fun files => (Ok ("/uploads/" +:+ p), files)
    end.

Definition printEntry (kv : string * value) : string :=
  match kv.2 with
  | VStr s => kv.1 +:+ ": " +:+ s +:+ JS.LFs
  | _ => EmptyString
  end.

Definition stringifyFlat (language : string) (data : object) : result string :=
  match data with
  | [] => Ok ("{}" +:+ JS.LFs)
  | _ => Ok (JS.join EmptyString (map printEntry data))
  end.

Definition parseLine (line : string) : object :=
  match JS.indexOf ": " line with
  | Some i => [(JS.take i line, VStr (JS.drop (i + 2) line))]
  | None => []
  end.

Definition parseFlat (language : string) (block : string) : result object :=
  Ok (concat (map parseLine (JS.split JS.LF block))).

End Samples.

(* ================================================================== *)
(** * Properties *)

Local Arguments Ascii.eqb : simpl never.
Local Arguments String.eqb : simpl never.
Local Arguments Login.timingSafeEqual : simpl never.

(** ** Strings *)

Lemma startsWith_cons a pat b s :
  JS.startsWith (String a pat) (String b s)
  = Ascii.eqb a b && JS.startsWith pat s.
Proof. reflexivity. Qed.

Lemma includes_cons pat a s :
  JS.includes pat (String a s)
  = JS.startsWith pat (String a s) || JS.includes pat s.
Proof. reflexivity. Qed.

Lemma startsWith_includes pat s :
  JS.startsWith pat s = true -> JS.includes pat s = true.
Proof. destruct s; simpl; intros ->; reflexivity. Qed.

Lemma startsWith_app pat s t :
  JS.startsWith pat s = true -> JS.startsWith pat (s +:+ t) = true.
Proof.
  revert s. induction pat as [|a pat IH]; intros [|b s]; simpl; try done.
  intros [-> H]%andb_prop. by rewrite IH.
Qed.

Lemma startsWith_slash_inv s :
  JS.startsWith "/" s = true -> exists s', s = String "/" s'.
Proof.
  destruct s as [|a s]; simpl; [done|].
  rewrite andb_true_r, Ascii.eqb_sym. intros ->%Ascii.eqb_eq. eauto.
Qed.

(** ** Validation: file paths *)

Section ValidateFilePath.

Import Validation.

Lemma normalize_keeps_root p :
  JS.startsWith "/" p = true -> JS.startsWith "/" (Path.normalize p) = true.
Proof.
  intros Hp. destruct (startsWith_slash_inv _ Hp) as [p' ->].
  unfold Path.normalize. rewrite Hp.
  change (String.eqb (String "/" p') "") with false. cbv iota.
  repeat match goal with |- context [if ?b then _ else _] => destruct b end;
    reflexivity.
Qed.

Lemma stripLeadingDotDot_keeps_root s :
  JS.startsWith "/" s = true -> stripLeadingDotDot s = s.
Proof.
  intros [s' ->]%startsWith_slash_inv. by destruct s'.
Qed.

(** The order of the guards of [validateFilePath], read off the code. *)
Lemma validateFilePath_traversal p :
  p <> "" ->
  JS.includes NULs p = false ->
  JS.includes ".." p = true
  \/ JS.startsWith "/" (stripLeadingDotDot (Path.normalize p)) = true ->
  validateFilePath p = Throw DirectoryTraversal.
Proof.
  intros Hne Hnul H. unfold validateFilePath.
  apply String.eqb_neq in Hne. rewrite Hne, Hnul.
  destruct (JS.includes ".." p); [done|].
  destruct H as [H|H]; [done|]. by rewrite H.
Qed.

Lemma validateFilePath_nul p :
  JS.includes NULs p = true ->
  validateFilePath p = Throw InvalidFilePath
  \/ validateFilePath p = Throw NullByteDetected.
Proof.
  intros H. unfold validateFilePath. rewrite H.
  destruct (String.eqb p ""); auto.
Qed.

Lemma includes_nonempty pat a s : JS.includes (String a pat) s = true -> s <> "".
Proof. by destruct s. Qed.

(** An accepted path is the normalized input and matches none of the
    dangerous patterns. *)
Lemma validateFilePath_Ok p q :
  validateFilePath p = Ok q ->
  q = stripLeadingDotDot (Path.normalize p)
  /\ existsb (fun pattern => pattern q) dangerousPatterns = false.
Proof.
  unfold validateFilePath. intros H.
  repeat match type of H with
         | (if ?b then _ else _) = _ => destruct b eqn:?; try discriminate
         | (let _ := _ in _) = _ => cbv zeta in H
         end.
  by simplify_eq.
Qed.

Lemma validateFilePath_Ok_no_dotdot p q :
  validateFilePath p = Ok q -> JS.includes ".." q = false.
Proof.
  intros [_ H]%validateFilePath_Ok. simpl in H.
  by apply orb_false_elim in H as [? _].
Qed.

End ValidateFilePath.

(** C6, as the code has it. [validateFilePath] fails for every string
    that contains [..], whatever surrounds it, and for every path that
    begins with [/] or whose normal form begins with [/]. The failure is
    the traversal error when the string holds no null byte; when it holds
    one, the null-byte guard, which comes first, throws its own error. *)
Theorem validateFilePath_rejects_traversal (p : string) :
  (JS.includes ".." p = true ->
     throws (Validation.validateFilePath p)
     /\ (JS.includes Validation.NULs p = false ->
         Validation.validateFilePath p = Throw DirectoryTraversal)
     /\ (JS.includes Validation.NULs p = true ->
         Validation.validateFilePath p = Throw NullByteDetected))
  /\ (JS.startsWith "/" p = true \/ JS.startsWith "/" (Path.normalize p) = true ->
     throws (Validation.validateFilePath p)
     /\ (JS.includes Validation.NULs p = false ->
         Validation.validateFilePath p = Throw DirectoryTraversal)
     /\ (JS.includes Validation.NULs p = true ->
         Validation.validateFilePath p = Throw NullByteDetected)).
Proof.
  assert (Hcases : p <> "" ->
            JS.includes ".." p = true
            \/ JS.startsWith "/"
                 (Validation.stripLeadingDotDot (Path.normalize p)) = true ->
            throws (Validation.validateFilePath p)
            /\ (JS.includes Validation.NULs p = false ->
                Validation.validateFilePath p = Throw DirectoryTraversal)
            /\ (JS.includes Validation.NULs p = true ->
                Validation.validateFilePath p = Throw NullByteDetected)).
  { intros Hne H.
    assert (Hnul : JS.includes Validation.NULs p = true ->
                   Validation.validateFilePath p = Throw NullByteDetected).
    { intros Hnul. unfold Validation.validateFilePath. rewrite Hnul.
      by destruct (String.eqb_spec p ""). }
    split; [|split; [|done]].
    - destruct (JS.includes Validation.NULs p) eqn:Hp.
      + rewrite Hnul by done. by eexists.
      + rewrite validateFilePath_traversal by done. by eexists.
    - intros Hp. by apply validateFilePath_traversal. }
  split.
  - intros H. apply Hcases; [by eapply includes_nonempty | by left].
  - intros H.
    assert (Hroot : JS.startsWith "/" (Path.normalize p) = true).
    { destruct H as [H|H]; [by apply normalize_keeps_root | done]. }
    apply Hcases.
    + intros ->. discriminate Hroot.
    + right. by rewrite stripLeadingDotDot_keeps_root.
Qed.

Lemma validateFilePath_rejects_traversal_witness :
  Validation.validateFilePath "blog/../../etc/passwd" = Throw DirectoryTraversal
  /\ Validation.validateFilePath "/etc/passwd" = Throw DirectoryTraversal.
Proof.
  split.
  - apply (proj1 (proj2 (proj1 (validateFilePath_rejects_traversal
                                  "blog/../../etc/passwd") eq_refl)));
      reflexivity.
  - apply (proj1 (proj2 (proj2 (validateFilePath_rejects_traversal "/etc/passwd")
                           (or_introl eq_refl))));
      reflexivity.
Defined.

(** C6, as the spec words it, fails: a string that contains [..] and a
    null byte is refused with the null-byte error, not the traversal
    error. *)
Lemma validateFilePath_null_byte_before_traversal :
  JS.includes ".." ("../etc/passwd" +:+ Validation.NULs +:+ ".md") = true
  /\ Validation.validateFilePath ("../etc/passwd" +:+ Validation.NULs +:+ ".md")
     = Throw NullByteDetected.
Proof. split; reflexivity. Qed.

(** ** Credential checker *)

(** C2, as the code has it. When the admin username or password is not
    configured (unset or empty), [validateCredentials] throws the
    configuration error for every input that passes [validateUsername]
    and [validatePassword]; an input that fails either validation gets
    [false], with or without configuration. *)
Theorem validateCredentials_misconfigured (e : env) (username password : value) :
  configured e "CMS_ADMIN_USERNAME" = None
  \/ configured e "CMS_ADMIN_PASSWORD" = None ->
  (Validation.validateUsername username = Ok true ->
   Validation.validatePassword password = Ok true ->
   Login.validateCredentials e username password = Throw MisconfiguredAuth)
  /\ (throws (Validation.validateUsername username)
      \/ throws (Validation.validatePassword password) ->
      Login.validateCredentials e username password = Ok false).
Proof.
  intros Hcfg. unfold Login.validateCredentials. split.
  - intros -> ->. simpl.
    destruct Hcfg as [-> | ->]; [done|].
    by destruct (configured e "CMS_ADMIN_USERNAME").
  - intros [[err ->] | [err ->]]; [done|].
    by destruct (Validation.validateUsername username).
Qed.

Lemma validateCredentials_misconfigured_witness :
  Login.validateCredentials ∅ (VStr "admin") (VStr "password") = Throw MisconfiguredAuth.
Proof.
  apply (validateCredentials_misconfigured ∅ (VStr "admin") (VStr "password"));
    [left|..]; reflexivity.
Defined.

(** C2, as the spec words it, fails: with no admin credentials configured
    a malformed username is answered [false], not an error. *)
Lemma validateCredentials_invalid_input_returns_false :
  configured (∅ : env) "CMS_ADMIN_USERNAME" = None
  /\ configured (∅ : env) "CMS_ADMIN_PASSWORD" = None
  /\ Login.validateCredentials ∅ (VStr "admin@test") (VStr "password123") = Ok false.
Proof. repeat split. Qed.

(** ** Session manager *)

(** C7. [verifySession] settles to a value for every token, whatever
    [jose] does: [null] when the secret is unusable, when [jwtVerify]
    rejects (bad signature, expired or malformed token) and when the
    claims lack a string [username] or a numeric [exp]; the claims
    otherwise. *)
Theorem verifySession_never_throws
    (jwtVerify : string -> string -> result object) (e : env) (token : string) :
  (exists r, Session.verifySession jwtVerify e token = Ok r)
  /\ (throws (Session.getSecretKey e) ->
      Session.verifySession jwtVerify e token = Ok None)
  /\ (forall key, Session.getSecretKey e = Ok key ->
      throws (jwtVerify token key) ->
      Session.verifySession jwtVerify e token = Ok None)
  /\ (forall key payload, Session.getSecretKey e = Ok key ->
      jwtVerify token key = Ok payload ->
      Session.verifySession jwtVerify e token
      = Ok (if Session.wellFormedPayload payload then Some payload else None)).
Proof.
  unfold Session.verifySession.
  destruct (Session.getSecretKey e) as [key|err] eqn:Hkey; simpl.
  - destruct (jwtVerify token key) as [payload|err] eqn:Hverify; simpl.
    + split; [|split; [|split]].
      * destruct (Session.wellFormedPayload payload); by eexists.
      * by intros [? ?].
      * intros ? [= <-] [? ?]. congruence.
      * intros ? ? [= <-]. rewrite Hverify. intros [= <-].
        by destruct (Session.wellFormedPayload payload).
    + split; [|split; [|split]]; [by eexists|done| |].
      * by intros ? [= <-] _.
      * intros ? ? [= <-]. by rewrite Hverify.
  - split; [|split; [|split]]; [by eexists|done|done|done].
Qed.

(** ** Rate limiter *)

Section RateLimiter.

Import RateLimit.

Lemma checkRateLimit_unexpired now identifier (st : store) e :
  st !! identifier = Some e ->
  now <= resetTime e ->
  checkRateLimit now identifier st
  = ({| isLimited := count e >=? MAX_ATTEMPTS;
        remaining := Z.max 0 (MAX_ATTEMPTS - count e);
        resetAt := resetTime e |}, st).
Proof.
  intros Hentry Hnow. unfold checkRateLimit. rewrite Hentry.
  destruct (now >? resetTime e) eqn:Hexpired; [lia|].
  unfold MAX_ATTEMPTS. destruct (count e >=? 5) eqn:Hc; do 2 f_equal; lia.
Qed.

Lemma incrementRateLimit_fresh now identifier (st : store) :
  st !! identifier = None ->
  incrementRateLimit now identifier st
  = <[identifier := {| count := 1; resetTime := now + WINDOW_MS |}]> st.
Proof. intros H. unfold incrementRateLimit. by rewrite H. Qed.

Lemma incrementRateLimit_unexpired now identifier (st : store) e :
  st !! identifier = Some e ->
  now <= resetTime e ->
  incrementRateLimit now identifier st
  = <[identifier := {| count := count e + 1; resetTime := resetTime e |}]> st.
Proof.
  intros Hentry Hnow. unfold incrementRateLimit. rewrite Hentry.
  destruct (now >? resetTime e) eqn:Hexpired; [lia|done].
Qed.

(** Increments inside the window only move the counter. *)
Lemma incrementMany_unexpired nows identifier (st : store) e :
  st !! identifier = Some e ->
  Forall (fun now => now <= resetTime e) nows ->
  incrementMany nows identifier st !! identifier
  = Some {| count := count e + Z.of_nat (length nows); resetTime := resetTime e |}.
Proof.
  revert st e. induction nows as [|now nows IH]; intros st e Hentry Hnows.
  - simpl. rewrite Hentry. destruct e. do 2 f_equal. simpl. lia.
  - apply Forall_cons in Hnows as [Hnow Hnows]. simpl.
    fold (incrementMany nows identifier (incrementRateLimit now identifier st)).
    rewrite (incrementRateLimit_unexpired _ _ _ e) by done.
    erewrite IH; [|apply lookup_insert_eq|done].
    simpl. do 2 f_equal. lia.
Qed.

Lemma incrementMany_fresh first nows identifier (st : store) :
  st !! identifier = None ->
  Forall (fun now => now <= first + WINDOW_MS) nows ->
  incrementMany (first :: nows) identifier st !! identifier
  = Some {| count := 1 + Z.of_nat (length nows); resetTime := first + WINDOW_MS |}.
Proof.
  intros Hfresh Hnows. simpl.
  fold (incrementMany nows identifier (incrementRateLimit first identifier st)).
  rewrite incrementRateLimit_fresh by done.
  by rewrite (incrementMany_unexpired nows identifier _
               {| count := 1; resetTime := first + WINDOW_MS |})
    by (done || apply lookup_insert_eq).
Qed.

(** C5. For an entry that has not expired, [checkRateLimit] reports
    limited exactly when the counter has reached 5, with
    [max(0, 5 - count)] attempts left and the entry's own reset time, and
    leaves the store alone; an increment raises that counter by exactly
    one and keeps the reset time. For a fresh identifier, [n] increments
    inside the window opened by the first leave the counter at [n]: the
    identifier is limited from the 5th on and not before, with
    [max(0, 5 - n)] attempts left, so 5 increments leave it limited with
    nothing remaining, a 6th changes neither, and the remainder is never
    negative however many follow. *)
Theorem checkRateLimit_counts (identifier : string) (st : store) :
  (forall e now,
      st !! identifier = Some e -> now <= resetTime e ->
      let r := (checkRateLimit now identifier st).1 in
      (isLimited r = true <-> count e >= 5)
      /\ remaining r = Z.max 0 (5 - count e)
      /\ resetAt r = resetTime e
      /\ (checkRateLimit now identifier st).2 = st
      /\ incrementRateLimit now identifier st !! identifier
         = Some {| count := count e + 1; resetTime := resetTime e |})
  /\ (forall first nows now,
      st !! identifier = None ->
      Forall (fun t => t <= first + WINDOW_MS) (now :: nows) ->
      let n := Z.of_nat (length (first :: nows)) in
      let counted := incrementMany (first :: nows) identifier st in
      let r := (checkRateLimit now identifier counted).1 in
      counted !! identifier = Some {| count := n; resetTime := first + WINDOW_MS |}
      /\ (isLimited r = true <-> n >= 5)
      /\ remaining r = Z.max 0 (5 - n)
      /\ (length nows = 4%nat -> isLimited r = true /\ remaining r = 0)
      /\ (length nows = 5%nat -> isLimited r = true /\ remaining r = 0)
      /\ 0 <= remaining r
      /\ resetAt r = first + WINDOW_MS).
Proof.
  split.
  - intros e now Hentry Hnow.
    rewrite (checkRateLimit_unexpired _ _ _ e) by done.
    rewrite (incrementRateLimit_unexpired _ _ _ e) by done.
    rewrite lookup_insert_eq. simpl.
    unfold MAX_ATTEMPTS. repeat split; lia.
  - intros first nows now Hfresh [Hnow Hnows]%Forall_cons.
    pose proof (incrementMany_fresh first nows identifier st Hfresh Hnows) as Hentry.
    cbv zeta. erewrite checkRateLimit_unexpired; [|exact Hentry|done].
    rewrite Hentry. cbn [length isLimited remaining resetAt fst count resetTime].
    unfold MAX_ATTEMPTS. repeat split; intros; try (do 2 f_equal); lia.
Qed.

Lemma checkRateLimit_counts_witness :
  let r := (checkRateLimit 10 "test-ip-3"
              (incrementMany [0; 1; 2; 3; 4] "test-ip-3" ∅)).1 in
  let r' := (checkRateLimit 10 "test-ip-3"
               (incrementMany [0; 1; 2; 3] "test-ip-3" ∅)).1 in
  (isLimited r = true /\ remaining r = 0)
  /\ (isLimited r' = false /\ remaining r' = 1).
Proof.
  split.
  - refine (proj1 (proj2 (proj2 (proj2 (proj2 (checkRateLimit_counts "test-ip-3" ∅)
                    0 [1; 2; 3; 4] 10 eq_refl _)))) eq_refl).
    repeat constructor; unfold WINDOW_MS; lia.
  - assert (Hwindow : Forall (fun t => t <= 0 + WINDOW_MS) [10; 1; 2; 3])
      by (repeat constructor; unfold WINDOW_MS; lia).
    destruct (proj2 (checkRateLimit_counts "test-ip-3" ∅) 0 [1; 2; 3] 10
                (lookup_empty _) Hwindow)
      as (_ & Hlimited & Hremaining & _).
    split; [|exact Hremaining].
    destruct (isLimited _); [|reflexivity].
    pose proof (proj1 Hlimited eq_refl) as Hfive. simpl in Hfive. lia.
Defined.

End RateLimiter.

(** ** Frontmatter sanitization *)

Section Sanitize.

Import Validation.

(** Structural induction over values, through arrays and objects. *)
Lemma value_induction (P : value -> Prop) :
  P VUndefined -> P VNull -> (forall b, P (VBool b)) -> (forall n, P (VNum n)) ->
  (forall s, P (VStr s)) ->
  (forall items, Forall P items -> P (VArr items)) ->
  (forall props, Forall (fun kv => P kv.2) props -> P (VObj props)) ->
  P VOther ->
  forall v, P v.
Proof.
  intros HU HN HB HZ HS HA HO HX.
  fix IH 1.
  intros [ | | b | n | s | items | props | ];
    [exact HU | exact HN | apply HB | apply HZ | apply HS | | | exact HX].
  - apply HA. induction items as [|i items IHitems];
      constructor; [apply IH | exact IHitems].
  - apply HO. induction props as [|[k v] props IHprops];
      constructor; [apply IH | exact IHprops].
Qed.

Lemma stripNul_idempotent s : JS.stripNul (JS.stripNul s) = JS.stripNul s.
Proof.
  induction s as [|a s IH]; [done|]. simpl.
  destruct (JS.code a =? 0)%N eqn:Ha; [done|]. simpl. by rewrite Ha, IH.
Qed.

Lemma sanitizeItem_idempotent item :
  sanitizeItem (sanitizeItem item) = sanitizeItem item.
Proof. destruct item; simpl; by rewrite ?stripNul_idempotent. Qed.

Lemma assign_keys key v (obj : object) :
  (assign key v obj).*1 = if decide (key ∈ obj.*1) then obj.*1 else obj.*1 ++ [key].
Proof.
  induction obj as [|[k w] obj IH]; [done|]. cbn [assign].
  destruct (String.eqb k key) eqn:Hk; csimpl.
  - apply String.eqb_eq in Hk as ->. rewrite decide_True by set_solver. done.
  - apply String.eqb_neq in Hk. rewrite IH.
    destruct (decide (key ∈ obj.*1)).
    + rewrite decide_True by set_solver. done.
    + rewrite decide_False by set_solver. done.
Qed.

Lemma assign_fresh key v (obj : object) :
  key ∉ obj.*1 -> assign key v obj = obj ++ [(key, v)].
Proof.
  induction obj as [|[k w] obj IH]; [done|]. simpl. intros Hfresh.
  destruct (String.eqb k key) eqn:Hk.
  - apply String.eqb_eq in Hk as ->. set_solver.
  - rewrite IH by set_solver. done.
Qed.

Lemma assign_Forall (P : string * value -> Prop) key v (obj : object) :
  Forall P obj -> P (key, v) -> (forall w, P (key, w) -> P (key, v)) ->
  Forall P (assign key v obj).
Proof.
  intros Hobj Hnew _. induction Hobj as [|[k w] obj Hkw Hobj IH]; simpl.
  - by constructor.
  - destruct (String.eqb k key) eqn:Hk.
    + apply String.eqb_eq in Hk as ->. by constructor.
    + by constructor.
Qed.

Lemma assign_clean key v (obj : object) :
  cleanObject obj -> cleanEntry (key, v) -> cleanObject (assign key v obj).
Proof.
  intros [Hdup Hall] Hentry. split.
  - rewrite assign_keys. destruct (decide (key ∈ obj.*1)); [done|].
    apply NoDup_app. repeat split; [done| |apply NoDup_singleton].
    intros k Hk ->%list_elem_of_singleton. done.
  - by apply assign_Forall.
Qed.

(** One iteration keeps the object under construction clean, provided the
    value it stores is. *)
Lemma sanitizeEntry_clean (sanitized : object) entry :
  (forall v, sanitizeValue entry.2 = Some v -> clean v) ->
  cleanObject sanitized ->
  cleanObject (sanitizeEntry sanitizeValue sanitized entry).
Proof.
  intros Hvalue Hclean. unfold sanitizeEntry.
  destruct (JS.isWord entry.1) eqn:Hword; [|done]. simpl.
  destruct (sanitizeValue entry.2) as [v|] eqn:Hv; [|done].
  unfold setProperty. destruct (String.eqb entry.1 "__proto__") eqn:Hproto; [done|].
  apply assign_clean; [done|]. repeat split; simpl; [done| |by apply Hvalue].
  by apply String.eqb_neq.
Qed.

Lemma sanitize_loop_clean (entries sanitized : object) :
  Forall (fun kv => forall v, sanitizeValue kv.2 = Some v -> clean v) entries ->
  cleanObject sanitized ->
  cleanObject (fold_left (sanitizeEntry sanitizeValue) entries sanitized).
Proof.
  intros Hentries. revert sanitized.
  induction Hentries as [|entry entries Hentry _ IH]; intros sanitized Hclean.
  - done.
  - simpl. apply IH. by apply sanitizeEntry_clean.
Qed.

(** Sanitizing a clean object rebuilds it, entry by entry. *)
Lemma sanitize_loop_rebuilds (obj sanitized : object) :
  cleanObject obj ->
  (forall key, key ∈ obj.*1 -> key ∉ sanitized.*1) ->
  fold_left (sanitizeEntry sanitizeValue) obj sanitized = sanitized ++ obj.
Proof.
  revert sanitized. induction obj as [|[key v] obj IH]; intros sanitized.
  - intros _ _. by rewrite app_nil_r.
  - intros [Hdup Hall] Hdisjoint.
    apply NoDup_cons in Hdup as [Hkey Hdup].
    apply Forall_cons in Hall as [(Hword & Hproto & Hv) Hall]. simpl in *.
    unfold sanitizeEntry at 2. simpl. rewrite Hword. simpl.
    unfold clean in Hv. rewrite Hv. unfold setProperty.
    apply String.eqb_neq in Hproto. rewrite Hproto.
    rewrite assign_fresh by (apply Hdisjoint; set_solver).
    rewrite IH.
    + by rewrite <- app_assoc.
    + done.
    + intros k Hk. rewrite fmap_app. simpl.
      intros [Hin | ->%list_elem_of_singleton]%elem_of_app; [|done].
      eapply Hdisjoint; [|done]. set_solver.
Qed.

Lemma sanitizeValue_clean v v' : sanitizeValue v = Some v' -> clean v'.
Proof.
  revert v'. induction v as [ | | b | n | s | items IH | props IH | ]
    using value_induction; intros v'; simpl; intros [= <-]; unfold clean; simpl;
    try done.
  - by rewrite stripNul_idempotent.
  - rewrite map_map. do 2 f_equal. apply map_ext.
    intros item. apply sanitizeItem_idempotent.
  - do 2 f_equal.
    rewrite sanitize_loop_rebuilds; [done| |set_solver].
    apply sanitize_loop_clean; [done|]. split; [apply NoDup_nil_2|constructor].
Qed.

Lemma sanitizeFrontmatter_clean data : cleanObject (sanitizeFrontmatter data).
Proof.
  apply sanitize_loop_clean.
  - apply Forall_forall. intros kv _ v. apply sanitizeValue_clean.
  - split; [apply NoDup_nil_2|constructor].
Qed.

(** C9. Sanitizing twice is sanitizing once; the keys of a sanitized map
    all match the allowed pattern and its values are left as they are by
    another pass. *)
Theorem sanitizeFrontmatter_idempotent (data : object) :
  sanitizeFrontmatter (sanitizeFrontmatter data) = sanitizeFrontmatter data
  /\ Forall (fun kv => JS.isWord kv.1 = true /\ sanitizeValue kv.2 = Some kv.2)
       (sanitizeFrontmatter data).
Proof.
  pose proof (sanitizeFrontmatter_clean data) as Hclean. split.
  - unfold sanitizeFrontmatter at 1.
    rewrite sanitize_loop_rebuilds; [done|done|set_solver].
  - destruct Hclean as [_ Hall]. eapply Forall_impl; [exact Hall|].
    by intros kv (? & _ & ?).
Qed.

End Sanitize.

(** ** Login handler *)

Section HandleLogin.

Import RateLimit Handlers.

Variable signJWT : object -> string -> result string.

Lemma checkRateLimit_attempts now identifier (st : store) :
  attempts identifier (checkRateLimit now identifier st).2
  = if expired now (st !! identifier) then 0 else attempts identifier st.
Proof.
  unfold checkRateLimit, attempts.
  destruct (st !! identifier) as [entry|] eqn:Hentry; simpl.
  - destruct (now >? resetTime entry); simpl.
    + by rewrite lookup_insert_eq.
    + destruct (count entry >=? MAX_ATTEMPTS); simpl; by rewrite Hentry.
  - by rewrite lookup_insert_eq.
Qed.

(** C10, as the code has it. A request that is not rate-limited and
    whose parsed body is any value but [null] lacking a username or a
    password (an object where one is missing or falsy, or a number, a
    string, a boolean or an array, which have neither) is answered 400
    and leaves the store as [checkRateLimit] left it: the attempt counter
    of the requester is what it was, or 0 where the window had expired or
    no entry existed. A body that parses to [null], or does not parse,
    is answered 500, the store again as [checkRateLimit] left it
    ([undefined], which [request.json()] never yields, would fare like
    [null]). Over
    all requests that are not rate-limited, the store is incremented only
    together with a 401, after [validateCredentials] answered [false];
    every other answer leaves the checked store alone or resets the
    requester. *)
Theorem handleLogin_increments_only_failed_attempts
    (e : env) (t : clock) (req : request) (st : store) :
  let ip := clientIp req in
  let checked := checkRateLimit (atCheck t) ip st in
  let out := handleLogin signJWT e t req st in
  isLimited checked.1 = false ->
  (forall body,
      json req = Ok body ->
      body <> VNull -> body <> VUndefined ->
      (forall props,
          body = VObj props ->
          truthy (getProperty "username" props) = false
          \/ truthy (getProperty "password" props) = false) ->
      status out.1 = 400
      /\ out.2 = checked.2
      /\ attempts ip out.2
         = if expired (atCheck t) (st !! ip) then 0 else attempts ip st)
  /\ (json req = Ok VNull \/ json req = Ok VUndefined \/ throws (json req) ->
      status out.1 = 500
      /\ out.2 = checked.2
      /\ attempts ip out.2
         = if expired (atCheck t) (st !! ip) then 0 else attempts ip st)
  /\ ((status out.1 = 401
       /\ out.2 = incrementRateLimit (atIncrement t) ip checked.2
       /\ exists username password,
           json req ≫= destructure = Ok (username, password)
           /\ Login.validateCredentials e username password = Ok false)
      \/ (status out.1 <> 401
          /\ (out.2 = checked.2 \/ out.2 = resetRateLimit ip checked.2))).
Proof.
  intros ip checked out Hfree.
  pose proof (checkRateLimit_attempts (atCheck t) ip st) as Hattempts.
  subst out. unfold handleLogin. fold ip. fold checked in Hattempts |- *.
  destruct checked as [rateLimit st1]. simpl in Hfree, Hattempts |- *.
  rewrite Hfree. split; [|split].
  - intros body -> Hnull Hundefined Hmissing.
    destruct body as [| |flag|n|text|items|props|]; try done.
    simpl.
    assert (negb (truthy (getProperty "username" props))
            || negb (truthy (getProperty "password" props)) = true) as ->.
    { destruct (Hmissing props eq_refl) as [-> | ->]; [done|apply orb_true_r]. }
    done.
  - intros [-> | [-> | [err ->]]]; done.
  - destruct (json req ≫= destructure) as [[username password]|err] eqn:Hbody;
      [|right; split; [done|by left]].
    destruct (negb (truthy username) || negb (truthy password));
      [right; split; [done|by left]|].
    destruct (Login.validateCredentials e username password) as [[|]|err'] eqn:Hvalid.
    + right. destruct (Session.createSession _ _ _ _); (split; [done|by right]).
    + left. repeat split. by exists username, password.
    + right. split; [done|by left].
Qed.

End HandleLogin.

Lemma handleLogin_increments_only_failed_attempts_witness :
  let req := {| Handlers.headers := ∅; Handlers.json := Ok (VObj [("username", VStr "admin")]) |} in
  let t := {| Handlers.atCheck := 0; Handlers.atRetryAfter := 0;
             Handlers.atIncrement := 0; Handlers.atSession := 0 |} in
  let out := Handlers.handleLogin (fun _ _ => Ok "token") ∅ t req ∅ in
  Handlers.status out.1 = 400
  /\ RateLimit.attempts (Handlers.clientIp req) out.2 = 0.
Proof.
  intros req t out.
  assert (Hfree : RateLimit.isLimited
            (RateLimit.checkRateLimit (Handlers.atCheck t) (Handlers.clientIp req) ∅).1
          = false) by (vm_compute; reflexivity).
  assert (Hmissing : forall props,
            VObj [("username", VStr "admin")] = VObj props ->
            truthy (getProperty "username" props) = false
            \/ truthy (getProperty "password" props) = false).
  { intros props [= <-]. right. reflexivity. }
  destruct (proj1 (handleLogin_increments_only_failed_attempts
                     (fun _ _ => Ok "token") ∅ t req ∅ Hfree)
              (VObj [("username", VStr "admin")]) eq_refl
              ltac:(discriminate) ltac:(discriminate) Hmissing)
    as (Hstatus & _ & Hattempts).
  split; [exact Hstatus|].
  etrans; [exact Hattempts|]. vm_compute. reflexivity.
Defined.

(** C10 fails for one body: [null] has neither a username nor a
    password, the requester is not rate-limited, and the answer is 500,
    not 400; destructuring [null] throws and the [catch] answers. *)
Lemma handleLogin_null_body_answers_500 :
  RateLimit.isLimited
    (RateLimit.checkRateLimit 0
       (Handlers.clientIp {| Handlers.headers := ∅; Handlers.json := Ok VNull |}) ∅).1
  = false
  /\ Handlers.status
       (Handlers.handleLogin (fun _ _ => Ok "token") ∅
          {| Handlers.atCheck := 0; Handlers.atRetryAfter := 0;
             Handlers.atIncrement := 0; Handlers.atSession := 0 |}
          {| Handlers.headers := ∅; Handlers.json := Ok VNull |} ∅).1
     = 500.
Proof. split; vm_compute; reflexivity. Qed.

(** ** Storage providers: deleting what is not there *)

Section DeleteFile.

Import Storage.

(** C4, as the code has it. With nothing at the path, [deleteFile] of the
    local provider rejects with [ENOENT] and that of the GitHub provider
    with the 404 of [getContent], both leaving the backend as it was; the
    R2 provider sends [DeleteObject], which the S3 API answers with
    success whether or not the key exists, so its [deleteFile] resolves
    and the bucket stays as it was. *)
Theorem deleteFile_of_missing_item :
  (forall (this : LocalStorage) filePath (disk : fs),
      disk !! getFullPath this filePath = None ->
      deleteFile this filePath disk = (Throw ENOENT, disk)
      /\ isNotFound ENOENT = true)
  /\ (forall (this : GitHubStorage) filePath (repo : repository),
      repo !! getGitHubPath this filePath = None ->
      deleteFile this filePath repo = (Throw HttpNotFound, repo)
      /\ isNotFound HttpNotFound = true)
  /\ (forall (this : CloudflareR2Storage) filePath (objects : bucket),
      objects !! getR2Path this filePath = None ->
      deleteFile this filePath objects = (Ok tt, objects)).
Proof.
  split; [|split].
  - intros this filePath disk H. split; [|done].
    unfold deleteFile, LocalStorage_provider, fs_unlink. by rewrite H.
  - intros this filePath repo H. split; [|done].
    unfold deleteFile, GitHubStorage_provider, octokit_getContent. by rewrite H.
  - intros this filePath objects H.
    unfold deleteFile, CloudflareR2Storage_provider, s3_DeleteObject.
    by rewrite delete_id.
Qed.

Lemma deleteFile_of_missing_item_witness :
  deleteFile {| cwd := "/srv/app"; localBaseDir := "public/content" |}
    "blog/missing.md" (∅ : fs)
  = (Throw ENOENT, ∅).
Proof.
  apply (proj1 deleteFile_of_missing_item
           {| cwd := "/srv/app"; localBaseDir := "public/content" |}
           "blog/missing.md" ∅).
  reflexivity.
Defined.

(** C4, as the spec words it, fails for the R2 provider: deleting from an
    empty bucket resolves. *)
Lemma r2_deleteFile_of_missing_item_resolves :
  deleteFile {| bucketName := "cms"; publicUrl := "https://cdn.example.com";
                r2BaseDir := "content" |}
    "blog/missing.md" (∅ : bucket)
  = (Ok tt, ∅).
Proof.
  unfold deleteFile, CloudflareR2Storage_provider, s3_DeleteObject.
  by rewrite delete_empty.
Qed.

End DeleteFile.

(** ** Content layer: what reaches the provider *)

Section ContentLayer.

Import Provider Content.

Context {B : Type} (h : handler B).
Variable engineParse : string -> string -> result object.
Variable engineStringify : string -> object -> result string.

Lemma run_Raise {A} e (b : B) : run h (Raise e : io A) b = (Throw e, b, []).
Proof. reflexivity. Qed.

Lemma run_await {X} (c : StorageCall X) (b : B) :
  run h (await c) b = ((h X c b).1, (h X c b).2, [Invoked c]).
Proof.
  simpl. destruct (h X c b) as [[x|e] b']; reflexivity.
Qed.

Lemma run_lift_Throw {A C} (r : result A) (k : A -> io C) e (b : B) :
  r = Throw e -> run h (lift r ≫= k) b = (Throw e, b, []).
Proof. by intros ->. Qed.

Lemma calls_await_bind {X A} (c : StorageCall X) (k : X -> io A) (b : B) :
  exists rest, calls h (await c ≫= k) b = Invoked c :: rest.
Proof.
  unfold calls. simpl. destruct (h X c b) as [r b'].
  destruct (run h _ b') as [[out b''] log]. by eexists.
Qed.

(** C8. With a path that [validateFilePath] accepts, once the sanitized
    frontmatter and the content are serialized: an output above 10 MiB
    makes [saveMarkdownContent] reject with the size error, no provider
    method is called and the backend state is the initial one; any other
    output is handed to [writeFile] under the validated path, that is the
    only call, and the outcome and final state are those of the write. *)
Theorem saveMarkdownContent_size_ceiling
    (b : B) (filePath : string) (data : object) (content : string)
    (validatedPath markdown : string) :
  Validation.validateFilePath filePath = Ok validatedPath ->
  stringifyMarkdown engineParse engineStringify
    (Validation.sanitizeFrontmatter data) content = Ok markdown ->
  let save :=
    saveMarkdownContent engineParse engineStringify filePath data content in
  (JS.byteLength markdown > Validation.MAX_FILE_SIZE ->
   run h save b = (Throw (FileTooLarge (JS.byteLength markdown)), b, []))
  /\ (JS.byteLength markdown <= Validation.MAX_FILE_SIZE ->
      calls h save b = [Invoked (writeFile validatedPath markdown)]
      /\ (outcome h save b, finalState h save b)
         = h unit (writeFile validatedPath markdown) b).
Proof.
  intros Hpath Hmd save. subst save. unfold saveMarkdownContent.
  rewrite Hpath, Hmd. simpl.
  destruct (JS.byteLength markdown >? Validation.MAX_FILE_SIZE) eqn:Hsize.
  - split; [done|lia].
  - split; [lia|]. intros _.
    unfold calls, outcome, finalState.
    fold (await (writeFile validatedPath markdown)). rewrite run_await. simpl.
    by destruct (h unit (writeFile validatedPath markdown) b).
Qed.

(** A rejected path stops [saveMarkdownContent] before anything else. *)
Lemma saveMarkdownContent_invalid_path (b : B) filePath data content e :
  Validation.validateFilePath filePath = Throw e ->
  run h (saveMarkdownContent engineParse engineStringify filePath data content) b
  = (Throw e, b, []).
Proof. intros H. unfold saveMarkdownContent. by rewrite H. Qed.

(** The operations of [content/markdown.ts] validate first: each path they
    hand to the provider is an output of [validateFilePath], or the empty
    path of the content root for [listMarkdownFiles]. *)
Lemma markdown_layer_validates (b : B) filePath data content :
  let accepted i :=
    invokedPath i = "" \/ exists raw, Validation.validateFilePath raw = Ok (invokedPath i) in
  Forall accepted (calls h (getMarkdownContent engineParse filePath) b)
  /\ Forall accepted
       (calls h (saveMarkdownContent engineParse engineStringify filePath data content) b)
  /\ Forall accepted (calls h (deleteMarkdownContent filePath) b)
  /\ Forall accepted (calls h (listMarkdownFiles filePath) b)
  /\ Forall accepted (calls h (markdownFileExists filePath) b).
Proof.
  intros accepted.
  assert (Hone : forall {X A} (c : StorageCall X) (k : X -> io A),
             accepted (Invoked c) ->
             (forall x b', calls h (k x) b' = []) ->
             Forall accepted (calls h (await c ≫= k) b)).
  { intros X A c k Hc Hk. unfold calls. simpl.
    destruct (h X c b) as [[x|e] b'] eqn:Hh; simpl.
    - specialize (Hk x b'). unfold calls in Hk.
      destruct (run h (k x) b') as [[out b''] log]. simpl in *. subst log.
      by apply Forall_singleton.
    - by apply Forall_singleton. }
  assert (Hlast : forall {X} (c : StorageCall X),
             accepted (Invoked c) -> Forall accepted (calls h (await c) b)).
  { intros X c Hc. unfold calls. rewrite run_await. by apply Forall_singleton. }
  unfold getMarkdownContent, saveMarkdownContent, deleteMarkdownContent,
    listMarkdownFiles, markdownFileExists.
  destruct (Validation.validateFilePath filePath) as [validated|e] eqn:Hvalid; simpl.
  - assert (Hok : forall {X} (c : StorageCall X),
               callPath c = validated -> accepted (Invoked c)).
    { intros X c Hc. right. exists filePath. simpl. by rewrite Hc. }
    split; [|split; [|split; [|split]]].
    + apply (Hone _ _ (readFile validated)); [by apply Hok|].
      intros x b'. destruct (_ >? _); [done|]. by destruct (parseMarkdown _ _).
    + destruct (stringifyMarkdown _ _ _ _) as [markdown|e]; [|constructor]. simpl.
      destruct (_ >? _); [constructor|].
      apply (Hlast _ (writeFile validated markdown)). by apply Hok.
    + apply (Hlast _ (deleteFile validated)). by apply Hok.
    + destruct (String.eqb filePath "") eqn:Hroot; simpl.
      * apply (Hone _ _ (listFiles "")); [by left|done].
      * apply (Hone _ _ (listFiles validated)); [by apply Hok|done].
    + apply (Hlast _ (exists_ validated)). by apply Hok.
  - split; [|split; [|split; [|split]]]; try constructor.
    destruct (String.eqb filePath "") eqn:Hroot; simpl.
    + apply (Hone _ _ (listFiles "")); [by left|done].
    + constructor.
Qed.

(** C1 fails on the code: [listDirectory], [uploadFile] and
    [getCollectionItem] hand their arguments to the provider without
    calling [validateFilePath], which rejects each of these paths and
    never returns them. With the local provider the directory listed for
    [../..] is the working directory of the process, two levels above
    the content root. *)
Theorem content_layer_forwards_unvalidated_paths (b : B) (buffer : string) :
  calls h (listDirectory "../..") b = [Invoked (listFiles "../..")]
  /\ calls h (Content.uploadFile 1700000000000 "../../evil.png" buffer) b
     = [Invoked (Provider.uploadFile "../../evil-1700000000000.png" buffer)]
  /\ (exists rest,
       calls h (getCollectionItem engineParse "../secrets" "notes") b
       = Invoked (exists_ "../secrets/notes.md") :: rest)
  /\ Storage.getFullPath
       {| Storage.cwd := "/srv/app"; Storage.localBaseDir := "public/content" |}
       "../.." = "/srv/app"
  /\ Validation.validateFilePath "../.." = Throw DirectoryTraversal
  /\ Validation.validateFilePath "../../evil-1700000000000.png"
     = Throw DirectoryTraversal
  /\ Validation.validateFilePath "../secrets/notes.md" = Throw DirectoryTraversal
  /\ forall raw,
      Validation.validateFilePath raw <> Ok "../.."
      /\ Validation.validateFilePath raw <> Ok "../../evil-1700000000000.png"
      /\ Validation.validateFilePath raw <> Ok "../secrets/notes.md".
Proof.
  split; [|split; [|split; [|split; [|split; [|split; [|split]]]]]]; try reflexivity.
  - unfold calls, listDirectory. by rewrite run_await.
  - unfold calls, Content.uploadFile.
    change (JS.removeFirst _ _ +:+ _) with "../../evil-1700000000000.png".
    by rewrite run_await.
  - unfold calls, getCollectionItem. simpl.
    destruct (h bool _ b) as [r b']. destruct (run h _ b') as [[out b''] log].
    by eexists.
  - intros raw. repeat split; intros H%validateFilePath_Ok_no_dotdot; discriminate H.
Qed.

End ContentLayer.

Lemma saveMarkdownContent_size_ceiling_witness :
  Provider.calls Samples.memoryProvider
    (Content.saveMarkdownContent Samples.parseFlat Samples.stringifyFlat
       "a/b.md" [("title", VStr "T")] "body") ∅
  = [Provider.Invoked
       (Provider.writeFile "a/b.md"
          ("---" +:+ JS.LFs +:+ "title: T" +:+ JS.LFs +:+ "---" +:+ JS.LFs
           +:+ "body" +:+ JS.LFs))].
Proof.
  refine (proj1 (proj2 (saveMarkdownContent_size_ceiling Samples.memoryProvider
                   Samples.parseFlat Samples.stringifyFlat ∅
                   "a/b.md" [("title", VStr "T")] "body" _ _ eq_refl eq_refl) _)).
  vm_compute. discriminate.
Defined.

(** ** Markdown layer: the round trip through [gray-matter] *)

Section Strings.

Lemma app_cons a s t : String a s +:+ t = String a (s +:+ t).
Proof. reflexivity. Qed.

Lemma app_empty_l s : EmptyString +:+ s = s.
Proof. reflexivity. Qed.

Lemma string_app_assoc s t u : (s +:+ t) +:+ u = s +:+ t +:+ u.
Proof. induction s as [|a s IH]; [done|]. by rewrite !app_cons, IH. Qed.

Lemma take_app_length s t : JS.take (String.length s) (s +:+ t) = s.
Proof. induction s as [|a s IH]; [by destruct t|]. simpl. by rewrite ?app_cons, IH. Qed.

Lemma drop_app_length s t n :
  JS.drop (String.length s + n) (s +:+ t) = JS.drop n t.
Proof. induction s as [|a s IH]; [done|]. simpl. by rewrite ?app_cons, IH. Qed.

Lemma startsWith_refl_app pat s : JS.startsWith pat (pat +:+ s) = true.
Proof.
  induction pat as [|a pat IH]; [done|].
  by rewrite app_cons, startsWith_cons, Ascii.eqb_refl, IH.
Qed.

Lemma endsWith_char_cons c a s :
  s <> "" -> JS.endsWith_char c (String a s) = JS.endsWith_char c s.
Proof. by destruct s. Qed.

Lemma endsWith_char_app c s t :
  t <> "" -> JS.endsWith_char c (s +:+ t) = JS.endsWith_char c t.
Proof.
  intros Ht. induction s as [|a s IH]; [done|].
  rewrite app_cons, endsWith_char_cons; [done|]. by destruct s, t.
Qed.

Lemma endsWith_char_nonempty c s : JS.endsWith_char c s = true -> s <> "".
Proof. by destruct s. Qed.

(** What remains after dropping characters from a string that ends with
    [c] is empty or ends with [c]. *)
Lemma endsWith_char_drop c n s :
  JS.endsWith_char c s = true ->
  JS.drop n s = "" \/ JS.endsWith_char c (JS.drop n s) = true.
Proof.
  revert s. induction n as [|n IH]; intros s Hs; [by right|].
  destruct s as [|a s]; [by left|]. simpl.
  destruct s as [|b s]; [left; by destruct n|].
  apply IH. by rewrite endsWith_char_cons in Hs.
Qed.

Lemma endsWith_char_rev_app c s a r :
  JS.endsWith_char c (String.rev_app s (String a r))
  = JS.endsWith_char c (String a r).
Proof.
  revert a r. induction s as [|x s IH]; intros a r; [done|].
  simpl. by rewrite IH.
Qed.

Lemma endsWith_char_rev c a r :
  JS.endsWith_char c (String.rev (String a r)) = Ascii.eqb a c.
Proof. unfold String.rev. simpl. by rewrite endsWith_char_rev_app. Qed.

(** Trimming stops at a character that is not white space. *)
Lemma trimStartWith_head sp2 sp3 s a r :
  JS.trimStartWith sp2 sp3 s = String a r -> JS.isSpace1 a = false.
Proof.
  remember (String.length s) as n eqn:Hn.
  revert s Hn a r. induction n as [n IH] using lt_wf_ind. intros s -> a r.
  destruct s as [|a1 s1]; [done|]. simpl.
  destruct (JS.isSpace1 a1) eqn:Ha1.
  { apply (IH (String.length s1)); [simpl; lia|done]. }
  destruct s1 as [|b s2]; [by intros [= <- <-]|].
  destruct (sp2 a1 b).
  { apply (IH (String.length s2)); [simpl; lia|done]. }
  destruct s2 as [|c s3]; [by intros [= <- <-]|].
  destruct (sp3 a1 b c).
  { apply (IH (String.length s3)); [simpl; lia|done]. }
  by intros [= <- <-].
Qed.

Lemma trim_no_trailing_newline s : JS.endsWith_char JS.LF (JS.trim s) = false.
Proof.
  unfold JS.trim, JS.trimEnd.
  destruct (JS.trimStartWith _ _ (String.rev (JS.trimStart s))) as [|a r] eqn:Ht;
    [done|].
  rewrite endsWith_char_rev. apply trimStartWith_head in Ht.
  destruct (Ascii.eqb a JS.LF) eqn:Ha; [|done].
  apply Ascii.eqb_eq in Ha as ->. discriminate Ht.
Qed.

Lemma startsWith_closing_inside x rest :
  x <> "" ->
  JS.startsWith GrayMatter.closing (x +:+ GrayMatter.closing +:+ rest) = true ->
  JS.startsWith GrayMatter.closing x = true.
Proof.
  intros Hx. unfold GrayMatter.closing.
  destruct x as [|c1 [|c2 [|c3 [|c4 x]]]]; [done|..]; rewrite ?app_cons, ?app_empty_l;
    rewrite ?startsWith_cons;
    repeat match goal with
           | |- context [Ascii.eqb ?a ?b] =>
               lazymatch a with
               | JS.LF => fail
               | _ => lazymatch b with JS.LF => change (Ascii.eqb a b) with false end
               end
           end;
    rewrite ?andb_false_r, ?andb_false_l; done.
Qed.

Lemma indexOf_unfold pat s :
  JS.indexOf pat s
  = if JS.startsWith pat s then Some 0%nat
    else match s with
         | EmptyString => None
         | String _ s' => S <$> JS.indexOf pat s'
         end.
Proof. by destruct s. Qed.

(** The first closing delimiter of [block ++ closing ++ rest] is the one
    written after [block] when [block] holds none. *)
Lemma indexOf_closing block rest :
  JS.includes GrayMatter.closing block = false ->
  JS.indexOf GrayMatter.closing (block +:+ GrayMatter.closing +:+ rest)
  = Some (String.length block).
Proof.
  induction block as [|a block IH]; intros Hnone.
  - by rewrite app_empty_l, indexOf_unfold, startsWith_refl_app.
  - rewrite includes_cons in Hnone. apply orb_false_elim in Hnone as [Hhere Hlater].
    rewrite indexOf_unfold.
    destruct (JS.startsWith GrayMatter.closing
                (String a block +:+ GrayMatter.closing +:+ rest)) eqn:Hstart.
    + apply startsWith_closing_inside in Hstart; [congruence|done].
    + rewrite app_cons, IH by done. done.
Qed.

End Strings.

Section RoundTrip.

Import Content.

Variable engineParse : string -> string -> result object.
Variable engineStringify : string -> object -> result string.

Lemma terminated_drop n s : GrayMatter.terminated s -> GrayMatter.terminated (JS.drop n s).
Proof.
  intros [-> | H]; [left; by destruct n|]. by apply endsWith_char_drop.
Qed.

Lemma terminated_tail a s : GrayMatter.terminated (String a s) -> GrayMatter.terminated s.
Proof. apply (terminated_drop 1). Qed.

Lemma terminated_afterClosing s : GrayMatter.terminated s -> GrayMatter.terminated (GrayMatter.afterClosing s).
Proof.
  intros H. unfold GrayMatter.afterClosing.
  assert (GrayMatter.terminated match s with
                     | String a s' => if Ascii.eqb a JS.CR then s' else s
                     | EmptyString => s
                     end) as H'.
  { destruct s as [|a s']; [done|].
    destruct (Ascii.eqb a JS.CR); [by eapply terminated_tail|done]. }
  destruct (match s with String _ _ => _ | EmptyString => _ end) as [|b t]; [done|].
  destruct (Ascii.eqb b JS.LF); [by eapply terminated_tail|done].
Qed.

(** The body [matter] finds in a text that ends with a line feed is
    itself empty or ends with one. *)
Lemma parseMarkdown_terminated raw md :
  JS.endsWith_char JS.LF raw = true ->
  parseMarkdown engineParse raw = Ok md ->
  GrayMatter.terminated (content md).
Proof.
  intros Hraw. unfold parseMarkdown, GrayMatter.matter.
  destruct (String.eqb raw "") eqn:Hempty.
  { apply String.eqb_eq in Hempty as ->. discriminate Hraw. }
  assert (GrayMatter.terminated (GrayMatter.stripBom raw)) as Hinput.
  { unfold GrayMatter.stripBom. destruct (JS.startsWith _ raw).
    - apply terminated_drop. by right.
    - by right. }
  revert Hinput. generalize (GrayMatter.stripBom raw). intros input Hinput.
  unfold GrayMatter.parseMatter.
  destruct (negb (JS.startsWith GrayMatter.opening input)); [by intros [= <-]|].
  destruct (JS.startsWith "-" (JS.drop 3 input)); [by intros [= <-]|].
  cbv zeta.
  set (str := if String.eqb _ "" then JS.drop 3 input else _).
  assert (GrayMatter.terminated str) as Hstr.
  { subst str. destruct (String.eqb (JS.trim _) "");
      [|apply terminated_drop]; apply terminated_drop; exact Hinput. }
  destruct (engineParse _ _) as [data|err]; [|done]. simpl.
  intros [= <-]. simpl.
  destruct (JS.indexOf GrayMatter.closing str); [|by left].
  by apply terminated_afterClosing, terminated_drop.
Qed.

Lemma newline_terminated s : JS.endsWith_char JS.LF (GrayMatter.newline s) = true.
Proof.
  unfold GrayMatter.newline. destruct (JS.endsWith_char JS.LF s) eqn:H; [done|].
  by rewrite endsWith_char_app.
Qed.

Lemma stringifyMarkdown_terminated data content raw :
  stringifyMarkdown engineParse engineStringify data content = Ok raw ->
  JS.endsWith_char JS.LF raw = true.
Proof.
  unfold stringifyMarkdown, GrayMatter.matter_stringify.
  destruct (GrayMatter.matter engineParse content) as [f|err]; [|done]. simpl.
  unfold GrayMatter.stringify.
  destruct (engineStringify _ _) as [text|err]; [|done]. simpl.
  intros [= <-]. rewrite endsWith_char_app; [apply newline_terminated|].
  eapply endsWith_char_nonempty, newline_terminated.
Qed.

(** The body that comes back from a round trip is empty or ends with a
    line feed, whatever the engines do. *)
Lemma round_trip_content_terminated data content md :
  stringifyMarkdown engineParse engineStringify data content
    ≫= parseMarkdown engineParse = Ok md ->
  GrayMatter.terminated (Content.content md).
Proof.
  destruct (stringifyMarkdown _ _ data content) as [raw|err] eqn:Hraw; [|done].
  simpl. apply parseMarkdown_terminated. by eapply stringifyMarkdown_terminated.
Qed.

End RoundTrip.

(** C3, as the spec words it, fails: a body without a final newline comes
    back with one, whatever the front-matter engine prints or reads. *)
Lemma markdown_round_trip_appends_newline :
  exists data content,
    Validation.sanitizeFrontmatter data = data
    /\ forall engineParse engineStringify,
        Content.stringifyMarkdown engineParse engineStringify data content
          ≫= Content.parseMarkdown engineParse
        <> Ok {| Content.content := content; Content.data := data |}.
Proof.
  exists [("title", VStr "T")], "body". split; [reflexivity|].
  intros engineParse engineStringify H.
  apply round_trip_content_terminated in H. by destruct H.
Qed.

Section RoundTripHolds.

Import Content.

Variable engineParse : string -> string -> result object.
Variable engineStringify : string -> object -> result string.

(** A pattern without line feed matches at the start of [s ++ LF] only
    if it matches at the start of [s]. *)
Lemma startsWith_app_newline pat s :
  pat <> "" ->
  JS.existsChar (Ascii.eqb JS.LF) pat = false ->
  JS.startsWith pat (s +:+ JS.LFs) = JS.startsWith pat s.
Proof.
  revert s. induction pat as [|a pat IH]; intros s Hne Hlf; [done|].
  simpl in Hlf. apply orb_false_elim in Hlf as [Ha Hpat].
  destruct s as [|b s].
  - rewrite app_empty_l. unfold JS.LFs. rewrite startsWith_cons.
    by rewrite Ascii.eqb_sym, Ha.
  - rewrite app_cons, !startsWith_cons.
    destruct pat as [|a' pat]; [done|]. by rewrite IH.
Qed.

Lemma newline_cases s :
  GrayMatter.newline s = s \/ GrayMatter.newline s = s +:+ JS.LFs.
Proof. unfold GrayMatter.newline. destruct (JS.endsWith_char _ s); auto. Qed.

Lemma startsWith_newline pat s :
  pat <> "" ->
  JS.existsChar (Ascii.eqb JS.LF) pat = false ->
  JS.startsWith pat (GrayMatter.newline s) = JS.startsWith pat s.
Proof.
  intros. destruct (newline_cases s) as [-> | ->]; [done|].
  by apply startsWith_app_newline.
Qed.

(** A text with no byte-order mark and no opening delimiter is all body. *)
Lemma matter_plain s :
  JS.startsWith GrayMatter.BOM s = false ->
  JS.startsWith GrayMatter.opening s = false ->
  GrayMatter.matter engineParse s
  = Ok {| GrayMatter.data := []; GrayMatter.content := s;
          GrayMatter.language := "yaml" |}.
Proof.
  intros Hbom Hopen. unfold GrayMatter.matter.
  destruct (String.eqb s "") eqn:Hs; [by apply String.eqb_eq in Hs as ->|].
  unfold GrayMatter.stripBom, GrayMatter.parseMatter. by rewrite Hbom, Hopen.
Qed.

(** [Object.assign] onto an empty target copies a clean object as it is. *)
Lemma assign_loop_clean (obj target : object) :
  Validation.cleanObject obj ->
  (forall key, key ∈ obj.*1 -> key ∉ target.*1) ->
  fold_left (fun t kv => setProperty kv.1 kv.2 t) obj target = target ++ obj.
Proof.
  revert target. induction obj as [|[key v] obj IH]; intros target.
  - intros _ _. by rewrite app_nil_r.
  - intros [Hdup Hall] Hdisjoint.
    apply NoDup_cons in Hdup as [Hkey Hdup].
    apply Forall_cons in Hall as [(_ & Hproto & _) Hall]. simpl in *.
    unfold setProperty at 2. apply String.eqb_neq in Hproto. rewrite Hproto.
    rewrite assign_fresh by (apply Hdisjoint; set_solver).
    rewrite IH.
    + by rewrite <- app_assoc.
    + done.
    + intros k Hk. rewrite fmap_app. simpl.
      intros [Hin | ->%list_elem_of_singleton]%elem_of_app; [|done].
      eapply Hdisjoint; [|done]. set_solver.
Qed.

Lemma assignAll_clean (data : object) :
  Validation.cleanObject data -> GrayMatter.assignAll [[]; data] = data.
Proof.
  intros H. unfold GrayMatter.assignAll. simpl.
  rewrite assign_loop_clean; [done|done|set_solver].
Qed.

(** Reading back a text framed by [stringify]. *)
Lemma parseMatter_framed m body data :
  JS.includes GrayMatter.closing (JS.LFs +:+ m) = false ->
  engineParse "yaml" (JS.LFs +:+ m) = Ok data ->
  GrayMatter.parseMatter engineParse
    ("---" +:+ (JS.LFs +:+ m) +:+ GrayMatter.closing +:+ JS.LFs +:+ body)
  = Ok {| GrayMatter.data := data; GrayMatter.content := body;
          GrayMatter.language := "yaml" |}.
Proof.
  intros Hnone Hparse. unfold GrayMatter.parseMatter.
  set (block := JS.LFs +:+ m) in *.
  set (rest := JS.LFs +:+ body).
  change (JS.startsWith GrayMatter.opening ("---" +:+ block +:+ GrayMatter.closing +:+ rest))
    with true.
  change (JS.drop 3 ("---" +:+ block +:+ GrayMatter.closing +:+ rest))
    with (block +:+ GrayMatter.closing +:+ rest).
  change (JS.startsWith "-" (block +:+ GrayMatter.closing +:+ rest)) with false.
  change (JS.searchNewline (block +:+ GrayMatter.closing +:+ rest)) with (Some 0%nat).
  cbv iota beta zeta. change (negb true) with false. cbv iota.
  change (JS.take 0 (block +:+ GrayMatter.closing +:+ rest)) with EmptyString.
  change (String.eqb (JS.trim "") "") with true. cbv iota.
  rewrite indexOf_closing by done. rewrite take_app_length, Hparse. simpl.
  rewrite drop_app_length. done.
Qed.

(** C3, as the code has it. Let [data] be a sanitized map, let the yaml
    engine print it as [text], and let [content] begin neither with the
    [---] delimiter nor with a byte-order mark. If the trimmed print is
    [{}] and [data] is empty, or else the block made of a line feed and
    the trimmed print holds no closing delimiter and is read back as
    [data], then parsing what [stringifyMarkdown] wrote yields [data] and
    the content closed by a line feed: the content itself when it already
    ends with one. *)
Theorem markdown_round_trip (d : object) (content text : string) :
  let data := Validation.sanitizeFrontmatter d in
  let block := JS.LFs +:+ JS.trim text in
  JS.startsWith GrayMatter.opening content = false ->
  JS.startsWith GrayMatter.BOM content = false ->
  engineStringify "yaml" data = Ok text ->
  (JS.trim text = "{}" /\ data = [])
  \/ (JS.trim text <> "{}"
      /\ JS.includes GrayMatter.closing block = false
      /\ engineParse "yaml" block = Ok data) ->
  stringifyMarkdown engineParse engineStringify data content
    ≫= parseMarkdown engineParse
  = Ok {| Content.content := GrayMatter.newline content; Content.data := data |}
  /\ (JS.endsWith_char JS.LF content = true ->
      GrayMatter.newline content = content).
Proof.
  intros data block Hopen Hbom Htext Hengine. split.
  2: { intros H. unfold GrayMatter.newline. by rewrite H. }
  unfold stringifyMarkdown, GrayMatter.matter_stringify.
  rewrite matter_plain by done. simpl.
  unfold GrayMatter.stringify. simpl.
  rewrite assignAll_clean by apply sanitizeFrontmatter_clean.
  fold data. rewrite Htext. simpl.
  destruct Hengine as [[Hempty Hdata] | (Hfull & Hnone & Hparse)].
  - rewrite Hempty, Hdata. simpl. unfold parseMarkdown.
    rewrite app_empty_l, matter_plain; [done|by rewrite startsWith_newline..].
  - apply String.eqb_neq in Hfull. rewrite Hfull.
    unfold parseMarkdown, GrayMatter.matter.
    assert (GrayMatter.newline (JS.trim text) = JS.trim text +:+ JS.LFs) as ->.
    { unfold GrayMatter.newline. by rewrite trim_no_trailing_newline. }
    change (GrayMatter.newline GrayMatter.opening) with ("---" +:+ JS.LFs).
    assert ((("---" +:+ JS.LFs) +:+ (JS.trim text +:+ JS.LFs) +:+ "---" +:+ JS.LFs)
              +:+ GrayMatter.newline content
            = "---" +:+ block +:+ GrayMatter.closing +:+ JS.LFs
                +:+ GrayMatter.newline content) as ->.
    { subst block. unfold GrayMatter.closing, JS.LFs.
      rewrite !string_app_assoc. reflexivity. }
    change (String.eqb ("---" +:+ _) "") with false. cbv iota.
    change (GrayMatter.stripBom ("---" +:+ ?s)) with ("---" +:+ s).
    subst block. rewrite (parseMatter_framed _ _ data) by done. done.
Qed.

End RoundTripHolds.

Lemma markdown_round_trip_witness :
  Content.stringifyMarkdown Samples.parseFlat Samples.stringifyFlat
    [("title", VStr "T")] ("body" +:+ JS.LFs)
    ≫= Content.parseMarkdown Samples.parseFlat
  = Ok {| Content.content := GrayMatter.newline ("body" +:+ JS.LFs);
          Content.data := [("title", VStr "T")] |}.
Proof.
  refine (proj1 (markdown_round_trip Samples.parseFlat Samples.stringifyFlat
                   [("title", VStr "T"); ("bad key!", VNum 1)]
                   ("body" +:+ JS.LFs) ("title: T" +:+ JS.LFs)
                   eq_refl eq_refl eq_refl _)).
  right. split; [discriminate|]. split; reflexivity.
Defined.

(** ** Further properties of the validated core *)

Section Further.

Import Validation RateLimit.

(** What [validateFilePath] returns holds no [..], does not begin with a
    separator, holds none of the forbidden characters and no null byte,
    and is not a reserved device name. *)
Theorem validateFilePath_accepts_only_safe_paths (p q : string) :
  validateFilePath p = Ok q ->
  JS.includes ".." q = false
  /\ JS.startsWith "/" q = false
  /\ JS.startsWith "\" q = false
  /\ JS.existsChar isDangerousChar q = false
  /\ JS.includes NULs q = false
  /\ isReservedName q = false.
Proof.
  intros [_ H]%validateFilePath_Ok. simpl in H.
  repeat (apply orb_false_elim in H as [? H]).
  assert (Hsep : forall sep : ascii,
             isSeparator sep = true -> JS.startsWith (String sep "") q = false).
  { intros sep Hsep. destruct q as [|c q]; [done|].
    rewrite startsWith_cons, andb_true_r.
    destruct (Ascii.eqb sep c) eqn:Hc; [|done].
    apply Ascii.eqb_eq in Hc as <-. congruence. }
  repeat split; try done; by apply Hsep.
Qed.

Lemma validateFilePath_accepts_only_safe_paths_witness :
  validateFilePath "blog/post.md" = Ok "blog/post.md"
  /\ JS.includes ".." "blog/post.md" = false.
Proof.
  split; [reflexivity|].
  apply (validateFilePath_accepts_only_safe_paths "blog/post.md" "blog/post.md").
  reflexivity.
Defined.

(** After [resetRateLimit], [checkRateLimit] opens a new window with the
    full quota. *)
Theorem checkRateLimit_after_reset (now : Z) (identifier : string) (st : store) :
  checkRateLimit now identifier (resetRateLimit identifier st)
  = ({| isLimited := false; remaining := 5; resetAt := now + WINDOW_MS |},
     <[identifier := {| count := 0; resetTime := now + WINDOW_MS |}]>
       (resetRateLimit identifier st)).
Proof.
  unfold checkRateLimit, resetRateLimit. by rewrite lookup_delete_eq.
Qed.

Lemma timingSafeEqual_eqb a b : Login.timingSafeEqual (VStr a) b = String.eqb a b.
Proof.
  unfold Login.timingSafeEqual.
  destruct (Nat.eqb (String.length a) (String.length b)) eqn:Hlen; [done|].
  apply Nat.eqb_neq in Hlen. symmetry. apply String.eqb_neq. congruence.
Qed.

(** With both admin credentials configured, a well-formed input is
    accepted exactly when both the username and the password are the
    configured ones. *)
Theorem validateCredentials_decides (e : env) (username password : string)
    (envUsername envPassword : string) :
  configured e "CMS_ADMIN_USERNAME" = Some envUsername ->
  configured e "CMS_ADMIN_PASSWORD" = Some envPassword ->
  validateUsername (VStr username) = Ok true ->
  validatePassword (VStr password) = Ok true ->
  Login.validateCredentials e (VStr username) (VStr password)
  = Ok (bool_decide (username = envUsername /\ password = envPassword)).
Proof.
  intros HU HP Hu Hp. unfold Login.validateCredentials.
  rewrite Hu, Hp. simpl. rewrite HU, HP, !timingSafeEqual_eqb. f_equal.
  destruct (String.eqb_spec username envUsername) as [->|Hne];
    destruct (String.eqb_spec password envPassword) as [->|Hne']; simpl;
    symmetry; (apply bool_decide_eq_true || apply bool_decide_eq_false); tauto.
Qed.

Lemma validateCredentials_decides_witness :
  Login.validateCredentials
    {[ "CMS_ADMIN_USERNAME" := "admin"; "CMS_ADMIN_PASSWORD" := "password123" ]}
    (VStr "admin") (VStr "wrongpassword")
  = Ok false.
Proof.
  apply (validateCredentials_decides
           {[ "CMS_ADMIN_USERNAME" := "admin"; "CMS_ADMIN_PASSWORD" := "password123" ]}
           "admin" "wrongpassword" "admin" "password123"); reflexivity.
Defined.

(** A username of more than 100 code units is answered [false], whatever
    is configured and whatever the password. *)
Theorem validateCredentials_long_username (e : env) (username : string)
    (password : value) :
  JS.length username > MAX_USERNAME_LENGTH ->
  Login.validateCredentials e (VStr username) password = Ok false.
Proof.
  intros Hlong. unfold Login.validateCredentials, validateUsername.
  destruct (String.eqb username ""); [done|].
  destruct (JS.length username >? MAX_USERNAME_LENGTH) eqn:H; [done|lia].
Qed.

End Further.

(** ** Six failed logins in a row *)

Section SixAttempts.

Import RateLimit Handlers.

Variable signJWT : object -> string -> result string.
Variables (e : env) (req : request) (username password : value).

Hypothesis Hbody : json req ≫= destructure = Ok (username, password).
Hypothesis Husername : truthy username = true.
Hypothesis Hpassword : truthy password = true.
Hypothesis Hwrong : Login.validateCredentials e username password = Ok false.

Lemma handleLogin_failed t (st : store) entry :
  st !! clientIp req = Some entry ->
  within (resetTime entry) t ->
  count entry < 5 ->
  handleLogin signJWT e t req st
  = (invalidCredentials,
     <[clientIp req := {| count := count entry + 1; resetTime := resetTime entry |}]> st).
Proof.
  intros Hentry [Hcheck Hincr] Hcount. unfold handleLogin.
  rewrite (checkRateLimit_unexpired _ _ _ entry) by done.
  unfold MAX_ATTEMPTS. simpl.
  destruct (count entry >=? 5) eqn:Hlimited; [lia|].
  rewrite Hbody, Husername, Hpassword, Hwrong. simpl.
  by rewrite (incrementRateLimit_unexpired _ _ _ entry).
Qed.

Lemma handleLogin_failed_fresh t (st : store) :
  st !! clientIp req = None ->
  atIncrement t <= atCheck t + WINDOW_MS ->
  handleLogin signJWT e t req st
  = (invalidCredentials,
     <[clientIp req := {| count := 1; resetTime := atCheck t + WINDOW_MS |}]> st).
Proof.
  intros Hfresh Hincr. unfold handleLogin, checkRateLimit.
  rewrite Hfresh. simpl.
  rewrite Hbody, Husername, Hpassword, Hwrong. simpl.
  erewrite incrementRateLimit_unexpired; [|apply lookup_insert_eq|done].
  simpl. by rewrite insert_insert_eq.
Qed.

Lemma handleLogin_limited t (st : store) entry :
  st !! clientIp req = Some entry ->
  atCheck t <= resetTime entry ->
  count entry >= 5 ->
  handleLogin signJWT e t req st
  = (tooManyAttempts (ceilSeconds (resetTime entry - atRetryAfter t)), st).
Proof.
  intros Hentry Hcheck Hcount. unfold handleLogin.
  rewrite (checkRateLimit_unexpired _ _ _ entry) by done.
  unfold MAX_ATTEMPTS. simpl.
  destruct (count entry >=? 5) eqn:Hlimited; [done|lia].
Qed.

Lemma serve_app clocks later (st : store) :
  serve signJWT e (clocks ++ later) req st
  = ((serve signJWT e clocks req st).1
       ++ (serve signJWT e later req (serve signJWT e clocks req st).2).1,
     (serve signJWT e later req (serve signJWT e clocks req st).2).2).
Proof.
  revert st. induction clocks as [|t clocks IH]; intros st.
  - simpl. by destruct (serve signJWT e later req st).
  - cbn [serve app]. destruct (handleLogin signJWT e t req st) as [answer st1].
    rewrite IH. by destruct (serve signJWT e clocks req st1).
Qed.

Lemma serve_single t (st : store) :
  serve signJWT e [t] req st
  = ([(handleLogin signJWT e t req st).1], (handleLogin signJWT e t req st).2).
Proof. simpl. by destruct (handleLogin signJWT e t req st). Qed.

(** Failed attempts inside the window only add to the counter. *)
Lemma serve_failed clocks (st : store) entry :
  st !! clientIp req = Some entry ->
  Forall (within (resetTime entry)) clocks ->
  count entry + Z.of_nat (length clocks) <= 5 ->
  serve signJWT e clocks req st
  = (replicate (length clocks) invalidCredentials,
     <[clientIp req := {| count := count entry + Z.of_nat (length clocks);
                          resetTime := resetTime entry |}]> st).
Proof.
  revert st entry. induction clocks as [|t clocks IH]; intros st entry Hentry Hall Hcount.
  - simpl. rewrite Z.add_0_r, insert_id; [done|]. by destruct entry.
  - apply Forall_cons in Hall as [Ht Hall]. cbn [serve length replicate] in *.
    rewrite (handleLogin_failed _ _ entry); [|done|done|lia].
    rewrite (IH _ {| count := count entry + 1; resetTime := resetTime entry |});
      [|apply lookup_insert_eq|done|simpl; lia].
    simpl. rewrite insert_insert_eq.
    replace (count entry + 1 + Z.of_nat (length clocks))
      with (count entry + Z.of_nat (S (length clocks))) by lia.
    done.
Qed.

Lemma ceilSeconds_positive ms : 0 < ms -> 0 < ceilSeconds ms.
Proof.
  intros H. unfold ceilSeconds.
  assert (- ms / 1000 < 0) by (apply Z.div_lt_upper_bound; lia). lia.
Qed.

(** Six failed logins from one client inside one window: five answers
    401, the sixth 429 with a [Retry-After] that is positive as long as
    the window has not closed. *)
Theorem sixth_failed_login_is_rate_limited
    (first t2 t3 t4 t5 sixth : clock) (st : store) :
  st !! clientIp req = None ->
  let deadline := atCheck first + WINDOW_MS in
  atIncrement first <= deadline ->
  Forall (within deadline) [t2; t3; t4; t5] ->
  atCheck sixth <= deadline ->
  atRetryAfter sixth < deadline ->
  (serve signJWT e [first; t2; t3; t4; t5; sixth] req st).1
  = replicate 5 invalidCredentials
      ++ [tooManyAttempts (ceilSeconds (deadline - atRetryAfter sixth))]
  /\ status invalidCredentials = 401
  /\ status (tooManyAttempts (ceilSeconds (deadline - atRetryAfter sixth))) = 429
  /\ 0 < ceilSeconds (deadline - atRetryAfter sixth).
Proof.
  intros Hfresh deadline Hfirst Hmiddle Hcheck Hretry.
  split; [|split; [done|split; [done|apply ceilSeconds_positive; lia]]].
  change [first; t2; t3; t4; t5; sixth] with ([first] ++ [t2; t3; t4; t5] ++ [sixth]).
  rewrite !serve_app, !serve_single.
  rewrite handleLogin_failed_fresh by done. cbn [fst snd].
  rewrite (serve_failed _ _ {| count := 1; resetTime := deadline |});
    [|apply lookup_insert_eq|done|simpl; lia].
  cbn [fst snd length].
  rewrite (handleLogin_limited _ _ {| count := 1 + Z.of_nat 4; resetTime := deadline |});
    [|apply lookup_insert_eq|done|simpl; lia].
  reflexivity.
Qed.

End SixAttempts.

Lemma sixth_failed_login_is_rate_limited_witness :
  let e : env :=
    {[ "CMS_ADMIN_USERNAME" := "admin"; "CMS_ADMIN_PASSWORD" := "password123" ]} in
  let req :=
    {| Handlers.headers := {[ "x-real-ip" := "203.0.113.7" ]};
       Handlers.json :=
         Ok (VObj [("username", VStr "admin"); ("password", VStr "wrong")]) |} in
  let t := {| Handlers.atCheck := 1000; Handlers.atRetryAfter := 1000;
              Handlers.atIncrement := 1000; Handlers.atSession := 1000 |} in
  map Handlers.status
    (Handlers.serve (fun _ _ => Ok "token") e [t; t; t; t; t; t] req ∅).1
  = [401; 401; 401; 401; 401; 429].
Proof.
  intros e req t.
  assert (Hwrong : Login.validateCredentials e (VStr "admin") (VStr "wrong") = Ok false)
    by (vm_compute; reflexivity).
  assert (Hwithin : Handlers.within (Handlers.atCheck t + RateLimit.WINDOW_MS) t)
    by (split; vm_compute; discriminate).
  assert (Hmiddle : Forall (Handlers.within (Handlers.atCheck t + RateLimit.WINDOW_MS))
                      [t; t; t; t])
    by (repeat apply Forall_cons_2; try exact Hwithin; apply Forall_nil_2).
  assert (Hretry : Handlers.atRetryAfter t < Handlers.atCheck t + RateLimit.WINDOW_MS)
    by (vm_compute; reflexivity).
  destruct (sixth_failed_login_is_rate_limited (fun _ _ => Ok "token") e req
              (VStr "admin") (VStr "wrong") eq_refl eq_refl eq_refl Hwrong
              t t t t t t ∅ (lookup_empty _) (proj2 Hwithin) Hmiddle
              (proj1 Hwithin) Hretry)
    as [Hanswers _].
  rewrite Hanswers. reflexivity.
Defined.

Lemma validateCredentials_long_username_witness :
  Login.validateCredentials
    {[ "CMS_ADMIN_USERNAME" := "admin"; "CMS_ADMIN_PASSWORD" := "password123" ]}
    (VStr (JS.join EmptyString (replicate 101 "a"))) (VStr "password123")
  = Ok false.
Proof.
  apply validateCredentials_long_username. vm_compute. reflexivity.
Defined.

(** ** Paths: segments, normal forms and the content root *)

Section Segments.

Import Validation.

Lemma string_app_empty_r s : s +:+ "" = s.
Proof. induction s as [|a s IH]; [done|]. by rewrite app_cons, IH. Qed.

Lemma rev_app_app s t : String.rev_app s t = String.rev s +:+ t.
Proof.
  unfold String.rev. revert t. induction s as [|a s IH]; intros t; [done|].
  simpl. rewrite IH, (IH (String a "")). by rewrite string_app_assoc.
Qed.

Lemma rev_cons a s : String.rev (String a s) = String.rev s +:+ String a "".
Proof. unfold String.rev at 1. simpl. by rewrite rev_app_app. Qed.

(** [split] cuts at every separator: the pieces of [a ++ sep ++ b] are
    those of [a] followed by those of [b]. *)
Lemma split_go_app sep cur a b :
  JS.split_go sep cur (a +:+ String sep b)
  = JS.split_go sep cur a ++ JS.split sep b.
Proof.
  revert cur. induction a as [|c a IH]; intros cur.
  - rewrite app_empty_l. simpl. by rewrite Ascii.eqb_refl.
  - rewrite app_cons. simpl. destruct (Ascii.eqb c sep); [|apply IH].
    by rewrite IH.
Qed.

Lemma split_app sep a b :
  JS.split sep (a +:+ String sep b) = JS.split sep a ++ JS.split sep b.
Proof. apply split_go_app. Qed.

Lemma includes_app_l pat a b :
  JS.includes pat a = true -> JS.includes pat (a +:+ b) = true.
Proof.
  induction a as [|c a IH].
  - destruct pat; [by destruct b|done].
  - rewrite app_cons, !includes_cons. intros [H|H]%orb_prop.
    + by rewrite <- app_cons, startsWith_app.
    + rewrite IH by done. apply orb_true_r.
Qed.

Lemma includes_app_r pat a b :
  JS.includes pat b = true -> JS.includes pat (a +:+ b) = true.
Proof.
  intros H. induction a as [|c a IH]; [done|].
  rewrite app_cons, includes_cons, IH. apply orb_true_r.
Qed.

(** A piece of a string holds nothing that the string does not hold. *)
Lemma split_go_includes pat sep cur s seg :
  In seg (JS.split_go sep cur s) ->
  JS.includes pat seg = true ->
  JS.includes pat (String.rev cur +:+ s) = true.
Proof.
  revert cur. induction s as [|c s IH]; intros cur; simpl.
  - intros [<-|[]]. by rewrite string_app_empty_r.
  - destruct (Ascii.eqb c sep).
    + intros [<-|Hin] Hseg; [by apply includes_app_l|].
      apply includes_app_r. rewrite includes_cons.
      pose proof (IH EmptyString Hin Hseg) as H. change (JS.includes pat s = true) in H.
      rewrite H. apply orb_true_r.
    + intros Hin Hseg. specialize (IH _ Hin Hseg).
      by rewrite rev_cons, string_app_assoc in IH.
Qed.

Lemma split_includes pat sep s seg :
  In seg (JS.split sep s) -> JS.includes pat s = false -> JS.includes pat seg = false.
Proof.
  intros Hin Hs. destruct (JS.includes pat seg) eqn:Hseg; [|done].
  pose proof (split_go_includes pat sep EmptyString s seg Hin Hseg) as H.
  change (JS.includes pat s = true) in H. congruence.
Qed.

Lemma existsChar_app p a b :
  JS.existsChar p (a +:+ b) = JS.existsChar p a || JS.existsChar p b.
Proof.
  induction a as [|c a IH]; [done|]. rewrite app_cons. simpl.
  by rewrite IH, orb_assoc.
Qed.

(** No piece holds the separator. *)
Lemma split_go_sepfree sep cur s seg :
  In seg (JS.split_go sep cur s) ->
  JS.existsChar (fun a => Ascii.eqb a sep) (String.rev cur) = false ->
  JS.existsChar (fun a => Ascii.eqb a sep) seg = false.
Proof.
  revert cur. induction s as [|c s IH]; intros cur; simpl.
  - by intros [<-|[]].
  - destruct (Ascii.eqb c sep) eqn:Hc.
    + intros [<-|Hin] Hcur; [done|]. by apply (IH EmptyString).
    + intros Hin Hcur. apply (IH _ Hin).
      rewrite rev_cons, existsChar_app, Hcur. simpl. by rewrite Hc.
Qed.

Lemma split_sepfree sep s seg :
  In seg (JS.split sep s) -> JS.existsChar (fun a => Ascii.eqb a sep) seg = false.
Proof. intros Hin. by apply (split_go_sepfree sep EmptyString s). Qed.

(** A string without the separator is its own single piece. *)
Lemma split_go_single sep cur s :
  JS.existsChar (fun a => Ascii.eqb a sep) s = false ->
  JS.split_go sep cur s = [String.rev cur +:+ s].
Proof.
  revert cur. induction s as [|c s IH]; intros cur; simpl.
  - by rewrite string_app_empty_r.
  - intros [Hc Hs]%orb_false_elim. rewrite Hc, IH by done.
    by rewrite rev_cons, string_app_assoc.
Qed.

Lemma split_single sep s :
  JS.existsChar (fun a => Ascii.eqb a sep) s = false -> JS.split sep s = [s].
Proof. intros H. unfold JS.split. by rewrite split_go_single. Qed.

Lemma join_cons sep p q ps :
  JS.join sep (p :: q :: ps) = p +:+ sep +:+ JS.join sep (q :: ps).
Proof. reflexivity. Qed.

(** Splitting what [join] assembled gives the parts back. *)
Lemma split_join sep (parts : list string) :
  parts <> [] ->
  Forall (fun p => JS.existsChar (fun a => Ascii.eqb a sep) p = false) parts ->
  JS.split sep (JS.join (String sep "") parts) = parts.
Proof.
  induction parts as [|p [|q ps] IH]; [done|..]; intros _ Hall.
  - apply Forall_cons in Hall as [Hp _]. by apply split_single.
  - apply Forall_cons in Hall as [Hp Hall].
    rewrite join_cons, app_cons, app_empty_l, split_app, split_single by done.
    by rewrite IH.
Qed.

End Segments.

Section NormalForm.

Import Validation.

Lemma pushSegment_named allow res seg :
  seg <> ".." ->
  Path.pushSegment allow res seg = if Path.named seg then seg :: res else res.
Proof.
  intros Hseg. unfold Path.pushSegment, Path.named.
  destruct (String.eqb seg "" || String.eqb seg "."); [done|]. simpl.
  by apply String.eqb_neq in Hseg as ->.
Qed.

Lemma fold_pushSegment allow segs res :
  Forall (fun seg => seg <> "..") segs ->
  fold_left (Path.pushSegment allow) segs res
  = rev (List.filter Path.named segs) ++ res.
Proof.
  revert res. induction segs as [|seg segs IH]; intros res Hall; [done|].
  apply Forall_cons in Hall as [Hseg Hall]. simpl.
  rewrite pushSegment_named, IH by done.
  destruct (Path.named seg); [|done]. simpl. by rewrite <- app_assoc.
Qed.

(** Without [..] in the string no segment is [..]. *)
Lemma no_dotdot_segments p :
  JS.includes ".." p = false ->
  Forall (fun seg => JS.includes ".." seg = false) (JS.split "/" p).
Proof.
  intros Hp. apply List.Forall_forall. intros seg Hin.
  by apply (split_includes _ _ _ _ Hin).
Qed.

Lemma no_dotdot_segments_ne p :
  JS.includes ".." p = false ->
  Forall (fun seg => seg <> "..") (JS.split "/" p).
Proof.
  intros Hp. eapply Forall_impl; [by apply no_dotdot_segments|].
  intros seg Hseg ->. discriminate Hseg.
Qed.

Lemma normalizeString_segments p allow :
  JS.includes ".." p = false ->
  Path.normalizeString p allow = JS.join "/" (Path.segments p).
Proof.
  intros Hp. unfold Path.normalizeString, Path.segments.
  rewrite fold_pushSegment by by apply no_dotdot_segments_ne.
  by rewrite app_nil_r, rev_involutive.
Qed.

Lemma named_nonempty seg : Path.named seg = true -> seg <> "".
Proof. by intros H ->. Qed.

Lemma join_named_nonempty seg segs :
  Path.named seg = true -> JS.join "/" (seg :: segs) <> "".
Proof.
  intros H%named_nonempty. destruct segs; [done|].
  rewrite join_cons. by destruct seg.
Qed.

(** The normal form of a relative path without [..]: its Path.named Path.segments
    joined by [/], the trailing separator kept; [.] when there is none. *)
Lemma normalize_relative p :
  p <> "" ->
  JS.startsWith "/" p = false ->
  JS.includes ".." p = false ->
  Path.normalize p
  = match Path.segments p with
    | [] => if JS.endsWith_char "/" p then "./" else "."
    | segs => JS.join "/" segs +:+ (if JS.endsWith_char "/" p then "/" else "")
    end.
Proof.
  intros Hne Hrel Hp. unfold Path.normalize.
  apply String.eqb_neq in Hne. rewrite Hne, Hrel, normalizeString_segments by done.
  destruct (Path.segments p) as [|seg segs] eqn:Hsegs; [done|].
  assert (Hseg : Path.named seg = true).
  { assert (In seg (Path.segments p)) as Hin by (rewrite Hsegs; by left).
    by apply filter_In in Hin as [_ ?]. }
  pose proof (join_named_nonempty seg segs Hseg) as Hjoin.
  apply String.eqb_neq in Hjoin. rewrite Hjoin.
  destruct (JS.endsWith_char "/" p); [done|]. by rewrite string_app_empty_r.
Qed.

End NormalForm.

Section Idempotent.

Import Validation.

Lemma code_dot a : (JS.code a =? 46)%N = Ascii.eqb "." a.
Proof.
  destruct (Ascii.eqb_spec "." a) as [<-|Hne]; [done|].
  apply N.eqb_neq. intros H. apply Hne.
  rewrite <- (ascii_N_embedding a). unfold JS.code in H. by rewrite H.
Qed.

Lemma stripLeadingDotDot_id s :
  JS.startsWith ".." s = false -> stripLeadingDotDot s = s.
Proof.
  destruct s as [|a [|b rest]]; [done..|].
  rewrite !startsWith_cons. simpl. rewrite !code_dot, andb_true_r.
  by intros ->.
Qed.

Lemma segments_named p : Forall (fun seg => Path.named seg = true) (Path.segments p).
Proof.
  apply List.Forall_forall. intros seg Hin. by apply filter_In in Hin as [_ ?].
Qed.

Lemma segments_sepfree p :
  Forall (fun seg => JS.existsChar (fun a => Ascii.eqb a "/") seg = false) (Path.segments p).
Proof.
  apply List.Forall_forall. intros seg Hin. apply filter_In in Hin as [Hin _].
  by apply split_sepfree in Hin.
Qed.

Lemma segments_no_dotdot p :
  JS.includes ".." p = false ->
  Forall (fun seg => JS.includes ".." seg = false) (Path.segments p).
Proof.
  intros Hp. apply List.Forall_forall. intros seg Hin.
  apply filter_In in Hin as [Hin _]. by apply (split_includes _ _ _ _ Hin).
Qed.

Lemma filter_named_id segs :
  Forall (fun seg => Path.named seg = true) segs -> List.filter Path.named segs = segs.
Proof.
  induction 1 as [|seg segs Hseg _ IH]; [done|]. simpl. by rewrite Hseg, IH.
Qed.

Lemma endsWith_char_sepfree c s :
  JS.existsChar (fun a => Ascii.eqb a c) s = false -> JS.endsWith_char c s = false.
Proof.
  induction s as [|a s IH]; [done|]. simpl. intros [Ha Hs]%orb_false_elim.
  destruct s; [done|]. by apply IH.
Qed.

Lemma join_no_trailing_separator segs :
  segs <> [] ->
  Forall (fun seg => Path.named seg = true) segs ->
  Forall (fun seg => JS.existsChar (fun a => Ascii.eqb a "/") seg = false) segs ->
  JS.endsWith_char "/" (JS.join "/" segs) = false.
Proof.
  induction segs as [|seg [|seg' segs] IH]; [done|..]; intros _ Hnamed Hfree.
  - apply Forall_cons in Hfree as [Hfree _]. by apply endsWith_char_sepfree.
  - apply Forall_cons in Hnamed as [_ Hnamed]. apply Forall_cons in Hfree as [_ Hfree].
    rewrite join_cons, endsWith_char_app by done.
    rewrite app_cons, app_empty_l, endsWith_char_cons; [by apply IH|].
    apply Forall_cons in Hnamed as [Hseg' _]. by apply join_named_nonempty.
Qed.

(** The Path.segments and the trailing separator of a normal form are those it
    was built from. *)
Lemma segments_join segs (trailing : bool) :
  segs <> [] ->
  Forall (fun seg => Path.named seg = true) segs ->
  Forall (fun seg => JS.existsChar (fun a => Ascii.eqb a "/") seg = false) segs ->
  let q := JS.join "/" segs +:+ (if trailing then "/" else "") in
  Path.segments q = segs /\ JS.endsWith_char "/" q = trailing.
Proof.
  intros Hne Hnamed Hfree q. subst q. unfold Path.segments. destruct trailing.
  - rewrite split_app, split_join, List.filter_app, filter_named_id by done.
    split; [apply app_nil_r|]. by rewrite endsWith_char_app.
  - rewrite string_app_empty_r, split_join, filter_named_id by done.
    split; [done|]. by apply join_no_trailing_separator.
Qed.

Lemma startsWith_dotdot_segment seg rest :
  Path.named seg = true ->
  rest = "" \/ JS.startsWith "/" rest = true ->
  JS.startsWith ".." (seg +:+ rest) = JS.startsWith ".." seg.
Proof.
  intros Hseg Hrest. destruct seg as [|a [|b seg]].
  { discriminate Hseg. }
  2:{ by rewrite !app_cons, !startsWith_cons. }
  rewrite app_cons, app_empty_l, !startsWith_cons.
  destruct Hrest as [->|[rest' ->]%startsWith_slash_inv]; [done|].
  rewrite startsWith_cons. change (Ascii.eqb "." "/") with false.
  cbn [JS.startsWith andb]. by rewrite !andb_false_r.
Qed.

Lemma join_head seg segs (suffix : string) :
  suffix = "" \/ suffix = "/" ->
  exists rest,
    JS.join "/" (seg :: segs) +:+ suffix = seg +:+ rest
    /\ (rest = "" \/ JS.startsWith "/" rest = true).
Proof.
  intros Hsuffix. destruct segs as [|seg' segs].
  - exists suffix. split; [done|]. destruct Hsuffix as [->| ->]; auto.
  - exists ("/" +:+ JS.join "/" (seg' :: segs) +:+ suffix).
    rewrite join_cons, !string_app_assoc. auto.
Qed.

(** What [validateFilePath] accepts went through every guard. *)
Lemma validateFilePath_Ok_inv p q :
  validateFilePath p = Ok q ->
  p <> ""
  /\ JS.includes NULs p = false
  /\ JS.includes ".." p = false
  /\ JS.startsWith "/" p = false
  /\ q = stripLeadingDotDot (Path.normalize p)
  /\ JS.startsWith "/" q || JS.startsWith "\" q = false
  /\ existsb (fun pattern => pattern q) dangerousPatterns = false.
Proof.
  unfold validateFilePath. intros H.
  destruct (String.eqb p "") eqn:Hne; [done|]. apply String.eqb_neq in Hne.
  destruct (JS.includes NULs p) eqn:Hnul; [done|].
  destruct (JS.includes ".." p) eqn:Hdots; [done|]. cbv zeta in H.
  destruct (JS.startsWith "/" _ || JS.startsWith "\" _) eqn:Hroot; [done|].
  destruct (existsb _ dangerousPatterns) eqn:Hpat; [done|].
  injection H as <-. repeat split; try done.
  destruct (JS.startsWith "/" p) eqn:Hp; [|done].
  apply normalize_keeps_root in Hp.
  rewrite stripLeadingDotDot_keeps_root, Hp in Hroot by done. done.
Qed.

(** An accepted path is in normal form. *)
Lemma validateFilePath_normal_form p q :
  validateFilePath p = Ok q ->
  q = match Path.segments p with
      | [] => if JS.endsWith_char "/" p then "./" else "."
      | segs => JS.join "/" segs +:+ (if JS.endsWith_char "/" p then "/" else "")
      end.
Proof.
  intros (Hne & _ & Hdots & Hrel & -> & _)%validateFilePath_Ok_inv.
  rewrite normalize_relative by done.
  apply stripLeadingDotDot_id.
  pose proof (segments_named p) as Hnamed.
  pose proof (segments_no_dotdot p Hdots) as Hclean.
  destruct (Path.segments p) as [|seg segs]; [by destruct (JS.endsWith_char "/" p)|].
  apply Forall_cons in Hnamed as [Hseg _]. apply Forall_cons in Hclean as [Hclean _].
  destruct (join_head seg segs (if JS.endsWith_char "/" p then "/" else ""))
    as (rest & -> & Hrest); [destruct (JS.endsWith_char "/" p); auto|].
  rewrite startsWith_dotdot_segment by done.
  destruct (JS.startsWith ".." seg) eqn:Hstart; [|done].
  apply startsWith_includes in Hstart. congruence.
Qed.

Lemma normalize_accepted p q :
  validateFilePath p = Ok q -> Path.normalize q = q.
Proof.
  intros Hq. pose proof (validateFilePath_normal_form p q Hq) as Hform.
  pose proof (validateFilePath_Ok_inv p q Hq) as (_ & _ & _ & _ & _ & Hroot & Hpat).
  apply orb_false_elim in Hroot as [Hroot _].
  simpl in Hpat. apply orb_false_elim in Hpat as [Hdots _].
  pose proof (segments_named p) as Hnamed.
  pose proof (segments_sepfree p) as Hfree.
  destruct (Path.segments p) as [|seg segs] eqn:Hsegs.
  - subst q. by destruct (JS.endsWith_char "/" p).
  - destruct (segments_join (seg :: segs) (JS.endsWith_char "/" p))
      as [Hsegments Htrailing]; [done..|].
    rewrite <- Hform in Hsegments, Htrailing.
    rewrite normalize_relative; [|by intros ->; destruct (JS.endsWith_char "/" p)|done..].
    by rewrite Hsegments, Htrailing.
Qed.

Lemma validateFilePath_accepts_its_output p q :
  validateFilePath p = Ok q -> validateFilePath q = Ok q.
Proof.
  intros Hq. pose proof (normalize_accepted p q Hq) as Hnormal.
  pose proof (validateFilePath_Ok_inv p q Hq) as (_ & _ & _ & _ & _ & Hroot & Hpat).
  assert (Hdots : JS.includes ".." q = false).
  { simpl in Hpat. by apply orb_false_elim in Hpat as [? _]. }
  assert (Hnul : JS.includes NULs q = false).
  { simpl in Hpat. repeat (apply orb_false_elim in Hpat as [? Hpat]). done. }
  assert (Hne : q <> "").
  { intros ->. discriminate Hnormal. }
  unfold validateFilePath. apply String.eqb_neq in Hne.
  rewrite Hne, Hnul, Hdots, Hnormal. cbv zeta.
  rewrite stripLeadingDotDot_id.
  - by rewrite Hroot, Hpat.
  - destruct (JS.startsWith ".." q) eqn:Hstart; [|done].
    apply startsWith_includes in Hstart. congruence.
Qed.

(** What [validateFilePath] returns is a fixed point: [path.normalize]
    leaves it as it is and [validateFilePath] accepts it and returns it
    again, so a validated path can be validated once more at no cost. *)
Theorem validateFilePath_idempotent (p q : string) :
  validateFilePath p = Ok q ->
  validateFilePath q = Ok q /\ Path.normalize q = q.
Proof.
  intros Hq. split; [by eapply validateFilePath_accepts_its_output|].
  by eapply normalize_accepted.
Qed.

End Idempotent.

Lemma validateFilePath_idempotent_witness :
  Validation.validateFilePath "blog//post.md" = Ok "blog/post.md"
  /\ Validation.validateFilePath "blog/post.md" = Ok "blog/post.md".
Proof.
  split; [reflexivity|].
  apply (validateFilePath_idempotent "blog//post.md" "blog/post.md"). reflexivity.
Defined.

Section Containment.

Import Validation Storage.

Lemma normalize_absolute root :
  JS.startsWith "/" root = true ->
  Path.normalize root
  = let path := Path.normalizeString root false in
    if String.eqb path "" then "/"
    else "/" +:+ path +:+ (if JS.endsWith_char "/" root then "/" else "").
Proof.
  intros Habs. unfold Path.normalize. rewrite Habs.
  destruct (String.eqb root "") eqn:Hroot.
  { apply String.eqb_eq in Hroot as ->. discriminate Habs. }
  simpl. destruct (String.eqb (Path.normalizeString root false) ""); [done|].
  destruct (JS.endsWith_char "/" root); [done|]. by rewrite string_app_empty_r.
Qed.

Lemma join_app (front back : list string) :
  front <> [] ->
  JS.join "/" (front ++ back)
  = match back with
    | [] => JS.join "/" front
    | _ => JS.join "/" front +:+ "/" +:+ JS.join "/" back
    end.
Proof.
  intros Hfront. destruct back as [|seg back]; [by rewrite app_nil_r|].
  induction front as [|a [|b front] IH]; [done|done|].
  change ((a :: b :: front) ++ seg :: back) with (a :: b :: (front ++ seg :: back)).
  rewrite !join_cons. change (b :: front ++ seg :: back) with ((b :: front) ++ seg :: back).
  rewrite IH by done. by rewrite !string_app_assoc.
Qed.

(** Below an absolute directory whose normal form has no trailing
    separator, an accepted path normalizes to the directory followed by
    the path. *)
Lemma normalize_below root p q :
  JS.startsWith "/" root = true ->
  JS.endsWith_char "/" (Path.normalize root) = false ->
  validateFilePath p = Ok q ->
  Path.normalize (root +:+ "/" +:+ q)
  = Path.normalize root
    +:+ (if String.eqb q "." then ""
         else if String.eqb q "./" then "/" else "/" +:+ q).
Proof.
  intros Habs Hopen Hq.
  pose proof (normalize_accepted p q Hq) as Hnormal.
  pose proof (validateFilePath_accepts_its_output p q Hq) as Hq'.
  pose proof (validateFilePath_Ok_inv q q Hq') as (Hne & _ & Hdots & Hrel & _).
  rewrite normalize_relative in Hnormal by done.
  replace (root +:+ "/" +:+ q) with (root +:+ String "/" q) by done.
  rewrite (normalize_absolute root Habs) in Hopen |- *.
  rewrite normalize_absolute by by apply startsWith_app.
  cbv zeta in Hopen |- *.
  assert (Htrailing : JS.endsWith_char "/" (root +:+ String "/" q) = JS.endsWith_char "/" q).
  { rewrite endsWith_char_app by done. by apply endsWith_char_cons. }
  rewrite Htrailing.
  unfold Path.normalizeString in Hopen |- *.
  rewrite split_app, fold_left_app.
  rewrite (fold_pushSegment false (JS.split "/" q)) by by apply no_dotdot_segments_ne.
  fold (Path.segments q). rewrite rev_app_distr, rev_involutive.
  set (kept := rev (fold_left (Path.pushSegment false) (JS.split "/" root) [])) in *.
  destruct (String.eqb (JS.join "/" kept) "") eqn:Hpath; [done|].
  assert (Hkept : kept <> []) by (intros Hnil; by rewrite Hnil in Hpath).
  assert (Hroot : JS.endsWith_char "/" root = false).
  { destruct (JS.endsWith_char "/" root); [|done].
    by rewrite <- string_app_assoc, endsWith_char_app in Hopen. }
  rewrite Hroot, string_app_empty_r. rewrite join_app by done.
  pose proof (segments_named q) as Hnamed.
  destruct (Path.segments q) as [|seg segs] eqn:Hsegs.
  - rewrite Hpath. destruct (JS.endsWith_char "/" q); rewrite <- Hnormal; simpl.
    + by rewrite string_app_assoc.
    + by rewrite !string_app_empty_r.
  - assert (String.eqb q "." = false) as ->.
    { apply String.eqb_neq. intros ->. discriminate Hsegs. }
    assert (String.eqb q "./" = false) as ->.
    { apply String.eqb_neq. intros ->. discriminate Hsegs. }
    assert (String.eqb (JS.join "/" kept +:+ "/" +:+ JS.join "/" (seg :: segs)) "" = false)
      as ->.
    { destruct (JS.join "/" kept) as [|a rest]; [discriminate Hpath|].
      apply String.eqb_neq. by rewrite app_cons. }
    rewrite !string_app_assoc. by rewrite Hnormal.
Qed.

Lemma getFullPath_root (this : LocalStorage) :
  JS.startsWith "/" (cwd this) = true ->
  exists root,
    JS.startsWith "/" root = true
    /\ getFullPath this "" = Path.normalize root
    /\ forall q, q <> "" -> getFullPath this q = Path.normalize (root +:+ "/" +:+ q).
Proof.
  intros Habs. unfold getFullPath, Path.join.
  assert (Hcwd : cwd this <> "") by (intros H; by rewrite H in Habs).
  destruct (decide (localBaseDir this = "")) as [Hbase|Hbase].
  - exists (cwd this). split; [done|]. rewrite Hbase. split.
    + rewrite !filter_cons. repeat case_decide; try done. simpl.
      apply String.eqb_neq in Hcwd. by rewrite Hcwd.
    + intros q Hq. rewrite !filter_cons. repeat case_decide; try done. simpl.
      destruct (String.eqb _ "") eqn:Hempty; [|done].
      apply String.eqb_eq in Hempty. by destruct (cwd this).
  - exists (cwd this +:+ "/" +:+ localBaseDir this). split; [by apply startsWith_app|].
    split.
    + rewrite !filter_cons. repeat case_decide; try done. simpl.
      destruct (String.eqb _ "") eqn:Hempty; [|done].
      apply String.eqb_eq in Hempty. by destruct (cwd this).
    + intros q Hq. rewrite !filter_cons. repeat case_decide; try done. simpl.
      rewrite !string_app_assoc.
      destruct (String.eqb _ "") eqn:Hempty; [|done].
      apply String.eqb_eq in Hempty. by destruct (cwd this).
Qed.

Theorem validated_path_stays_under_content_root
    (this : LocalStorage) (p q : string) :
  JS.startsWith "/" (cwd this) = true ->
  JS.endsWith_char "/" (getFullPath this "") = false ->
  validateFilePath p = Ok q ->
  getFullPath this q
  = getFullPath this ""
    +:+ (if String.eqb q "." then ""
         else if String.eqb q "./" then "/" else "/" +:+ q)
  /\ JS.startsWith (getFullPath this "") (getFullPath this q) = true
  /\ JS.includes ".." q = false.
Proof.
  intros Habs Hopen Hq.
  destruct (getFullPath_root this Habs) as (root & Hroot & Hbase & Hfull).
  assert (Hne : q <> "").
  { by pose proof (validateFilePath_Ok_inv q q (validateFilePath_accepts_its_output p q Hq))
      as (? & _). }
  assert (Heq : getFullPath this q
                = getFullPath this ""
                  +:+ (if String.eqb q "." then ""
                       else if String.eqb q "./" then "/" else "/" +:+ q)).
  { rewrite Hfull, Hbase by done. apply (normalize_below root p q); [done| |done].
    by rewrite <- Hbase. }
  split; [done|]. split.
  - rewrite Heq. apply startsWith_refl_app.
  - by apply validateFilePath_Ok_no_dotdot in Hq.
Qed.

End Containment.

Lemma validated_path_stays_under_content_root_witness :
  Storage.getFullPath
    {| Storage.cwd := "/srv/app"; Storage.localBaseDir := "public/content" |}
    "blog/post.md"
  = "/srv/app/public/content" +:+ "/" +:+ "blog/post.md".
Proof.
  apply (validated_path_stays_under_content_root
           {| Storage.cwd := "/srv/app"; Storage.localBaseDir := "public/content" |}
           "blog//post.md" "blog/post.md"); reflexivity.
Defined.

(** ** Rate limiter and login: sweeping, isolation, lockout, success *)

Section RateLimiterMore.

Import RateLimit Handlers.

Lemma cleanup_lookup swept identifier (st : store) :
  cleanupRateLimitStore swept st !! identifier
  = match st !! identifier with
    | Some entry => if swept >? resetTime entry then None else Some entry
    | None => None
    end.
Proof.
  unfold cleanupRateLimitStore.
  destruct (st !! identifier) as [entry|] eqn:Hentry.
  - destruct (swept >? resetTime entry) eqn:Hswept.
    + apply map_lookup_filter_None. right. intros entry' Hentry'. simpl.
      assert (entry' = entry) as -> by congruence. lia.
    + apply map_lookup_filter_Some. split; [done|]. simpl. lia.
  - apply map_lookup_filter_None. by left.
Qed.

(** The periodic sweep removes the entries whose window closed before it
    ran and no other; no later call of [checkRateLimit] or
    [incrementRateLimit] can tell whether it ran. *)
Theorem cleanupRateLimitStore_unobservable
    (swept now : Z) (identifier : string) (st : store) :
  swept <= now ->
  (forall entry,
      cleanupRateLimitStore swept st !! identifier = Some entry
      <-> st !! identifier = Some entry /\ swept <= resetTime entry)
  /\ (checkRateLimit now identifier (cleanupRateLimitStore swept st)).1
     = (checkRateLimit now identifier st).1
  /\ incrementRateLimit now identifier (cleanupRateLimitStore swept st) !! identifier
     = incrementRateLimit now identifier st !! identifier.
Proof.
  intros Hlater. pose proof (cleanup_lookup swept identifier st) as Hswept.
  split; [|split].
  - intros entry. rewrite Hswept.
    destruct (st !! identifier) as [entry'|]; [|naive_solver].
    destruct (swept >? resetTime entry') eqn:Hgone.
    + split; [done|]. intros [[= ->] ?]. lia.
    + split; [intros [= ->]; split; [done|lia]|]. by intros [? _].
  - unfold checkRateLimit. rewrite Hswept.
    destruct (st !! identifier) as [entry|]; [|done].
    destruct (swept >? resetTime entry) eqn:Hgone;
      destruct (now >? resetTime entry) eqn:Hexpired; try done; try lia.
    by destruct (count entry >=? MAX_ATTEMPTS).
  - unfold incrementRateLimit. rewrite Hswept.
    destruct (st !! identifier) as [entry|]; [|by rewrite !lookup_insert_eq].
    destruct (swept >? resetTime entry) eqn:Hgone.
    + destruct (now >? resetTime entry) eqn:Hexpired; [|lia].
      by rewrite !lookup_insert_eq.
    + destruct (now >? resetTime entry); by rewrite !lookup_insert_eq.
Qed.

Lemma checkRateLimit_other now identifier other (st : store) :
  other <> identifier ->
  (checkRateLimit now identifier st).2 !! other = st !! other.
Proof.
  intros Hother. unfold checkRateLimit.
  destruct (st !! identifier) as [entry|]; simpl.
  - destruct (now >? resetTime entry); simpl; [by rewrite lookup_insert_ne|].
    by destruct (count entry >=? MAX_ATTEMPTS).
  - by rewrite lookup_insert_ne.
Qed.

Lemma incrementRateLimit_other now identifier other (st : store) :
  other <> identifier ->
  incrementRateLimit now identifier st !! other = st !! other.
Proof.
  intros Hother. unfold incrementRateLimit.
  destruct (st !! identifier) as [entry|]; [destruct (now >? resetTime entry)|];
    by rewrite lookup_insert_ne.
Qed.

Variable signJWT : object -> string -> result string.

(** A login request changes the rate-limit entry of the address it came
    from and of no other. *)
Theorem handleLogin_touches_only_the_requester
    (e : env) (t : clock) (req : request) (st : store) (other : string) :
  other <> clientIp req ->
  (handleLogin signJWT e t req st).2 !! other = st !! other.
Proof.
  intros Hother. unfold handleLogin.
  pose proof (checkRateLimit_other (atCheck t) (clientIp req) other st Hother) as Hcheck.
  destruct (checkRateLimit (atCheck t) (clientIp req) st) as [rateLimit st1].
  simpl in Hcheck. destruct (isLimited rateLimit); [done|].
  destruct (json req ≫= destructure) as [[username password]|]; [|done].
  destruct (negb (truthy username) || negb (truthy password)); [done|].
  destruct (Login.validateCredentials e username password) as [[|]|]; [| |done].
  - destruct (Session.createSession _ _ _ _); simpl; unfold resetRateLimit;
      by rewrite lookup_delete_ne.
  - simpl. by rewrite incrementRateLimit_other.
Qed.

(** While the window of a client that used up its attempts is open,
    every login request from it is refused with 429, whatever it sends,
    and the store stays as it is; the first request after the window
    closed is no longer refused for that reason. *)
Theorem lockout_lasts_one_window
    (e : env) (req : request) (st : store) (entry : RateLimitEntry) :
  st !! clientIp req = Some entry ->
  count entry >= MAX_ATTEMPTS ->
  (forall t, atCheck t <= resetTime entry ->
     handleLogin signJWT e t req st
     = (tooManyAttempts (ceilSeconds (resetTime entry - atRetryAfter t)), st))
  /\ (forall t, resetTime entry < atCheck t ->
     status (handleLogin signJWT e t req st).1 <> 429
     /\ forall later,
         (handleLogin signJWT e t req st).2 !! clientIp req = Some later ->
         resetTime later = atCheck t + WINDOW_MS
         \/ resetTime later = atIncrement t + WINDOW_MS).
Proof.
  intros Hentry Hcount. split.
  - intros t Ht. unfold handleLogin.
    rewrite (checkRateLimit_unexpired _ _ _ entry) by done. simpl.
    destruct (count entry >=? MAX_ATTEMPTS) eqn:Hlimited; [done|lia].
  - intros t Ht. unfold handleLogin, checkRateLimit. rewrite Hentry.
    destruct (atCheck t >? resetTime entry) eqn:Hexpired; [|lia].
    assert (Hchecked : forall later,
              <[clientIp req := {| count := 0; resetTime := atCheck t + WINDOW_MS |}]> st
                !! clientIp req = Some later ->
              resetTime later = atCheck t + WINDOW_MS
              \/ resetTime later = atIncrement t + WINDOW_MS).
    { intros later. rewrite lookup_insert_eq. intros [= <-]. simpl. lia. }
    destruct (json req ≫= destructure) as [[username password]|]; [|by split].
    destruct (negb (truthy username) || negb (truthy password)); [by split|].
    destruct (Login.validateCredentials e username password) as [[|]|]; [| |by split].
    + destruct (Session.createSession _ _ _ _); simpl;
        (split; [done|]); intros later; unfold resetRateLimit;
        by rewrite lookup_delete_eq.
    + simpl. split; [done|]. intros later. unfold incrementRateLimit.
      rewrite lookup_insert_eq. simpl.
      destruct (atIncrement t >? atCheck t + WINDOW_MS);
        rewrite lookup_insert_eq; intros [= <-]; simpl; lia.
Qed.

(** What [checkRateLimit] reports is consistent: limited exactly when no
    attempt remains, never a negative remainder, and at most 5 as long
    as no counter of the store is negative, which every operation of the
    module preserves. *)
Theorem rate_limit_status_is_consistent (now : Z) (identifier : string) (st : store) :
  let counted (s : store) := map_Forall (fun _ entry => 0 <= count entry) s in
  let r := (checkRateLimit now identifier st).1 in
  (isLimited r = true <-> remaining r = 0)
  /\ 0 <= remaining r
  /\ (counted st ->
      remaining r <= MAX_ATTEMPTS
      /\ counted (checkRateLimit now identifier st).2
      /\ counted (incrementRateLimit now identifier st)
      /\ counted (resetRateLimit identifier st)
      /\ counted (cleanupRateLimitStore now st)).
Proof.
  intros counted r. subst r. unfold checkRateLimit, MAX_ATTEMPTS.
  split; [|split].
  - destruct (st !! identifier) as [entry|]; [|done].
    destruct (now >? resetTime entry); [done|].
    destruct (count entry >=? 5) eqn:Hc; simpl; [done|]. split; [done|lia].
  - destruct (st !! identifier) as [entry|]; [|done].
    destruct (now >? resetTime entry); [done|].
    destruct (count entry >=? 5) eqn:Hc; simpl; lia.
  - intros Hst.
    assert (Hfresh : forall n, 0 <= n ->
              counted (<[identifier := {| count := n; resetTime := now + WINDOW_MS |}]> st)).
    { intros n Hn. by apply map_Forall_insert_2. }
    split; [|split; [|split; [|split]]].
    + destruct (st !! identifier) as [entry|] eqn:Hentry; [|done].
      specialize (Hst _ _ Hentry). simpl in Hst.
      destruct (now >? resetTime entry); [done|].
      destruct (count entry >=? 5); simpl; lia.
    + destruct (st !! identifier) as [entry|]; [|by apply Hfresh].
      destruct (now >? resetTime entry); [by apply Hfresh|].
      by destruct (count entry >=? 5).
    + unfold incrementRateLimit.
      destruct (st !! identifier) as [entry|] eqn:Hentry; [|by apply Hfresh].
      destruct (now >? resetTime entry); [by apply Hfresh|].
      apply map_Forall_insert_2; [|done]. specialize (Hst _ _ Hentry). simpl in *. lia.
    + by apply map_Forall_delete.
    + unfold cleanupRateLimitStore. intros k entry [Hk _]%map_lookup_filter_Some.
      by apply (Hst k).
Qed.

Lemma validateCredentials_true_inv (e : env) (username password : value) :
  Login.validateCredentials e username password = Ok true ->
  exists u p,
    username = VStr u /\ password = VStr p
    /\ configured e "CMS_ADMIN_USERNAME" = Some u
    /\ configured e "CMS_ADMIN_PASSWORD" = Some p.
Proof.
  unfold Login.validateCredentials. intros H.
  destruct (Validation.validateUsername username) eqn:HvU; simpl in H; [|done].
  destruct (Validation.validatePassword password) eqn:HvP; simpl in H; [|done].
  destruct username as [| | | |u| | |]; try discriminate HvU.
  destruct password as [| | | |p| | |]; try discriminate HvP.
  destruct (configured e "CMS_ADMIN_USERNAME") as [envUsername|]; [|done].
  destruct (configured e "CMS_ADMIN_PASSWORD") as [envPassword|]; [|done].
  injection H as H. apply andb_prop in H as [Hu Hp].
  rewrite timingSafeEqual_eqb in Hu, Hp.
  apply String.eqb_eq in Hu as ->. apply String.eqb_eq in Hp as ->.
  by exists envUsername, envPassword.
Qed.

(** The login endpoint answers 200 only to the configured username and
    password; it sets the session cookie with a 200 and with no other
    answer, and a 200 leaves no rate-limit entry for the client. *)
Theorem handleLogin_succeeds_only_with_the_configured_credentials
    (e : env) (t : clock) (req : request) (st : store) :
  let out := handleLogin signJWT e t req st in
  (status out.1 = 200 <-> is_Some (sessionCookie out.1))
  /\ (status out.1 = 200 ->
      exists username password token,
        json req ≫= destructure = Ok (VStr username, VStr password)
        /\ configured e "CMS_ADMIN_USERNAME" = Some username
        /\ configured e "CMS_ADMIN_PASSWORD" = Some password
        /\ Session.createSession signJWT e (atSession t) username = Ok token
        /\ sessionCookie out.1 = Some token
        /\ out.2 !! clientIp req = None).
Proof.
  intros out. subst out. unfold handleLogin.
  destruct (checkRateLimit (atCheck t) (clientIp req) st) as [rateLimit st1].
  assert (Hno : forall code (body : object),
             code <> 200 ->
             (status (jsonResponse code body) = 200
              <-> is_Some (sessionCookie (jsonResponse code body)))
             /\ (status (jsonResponse code body) = 200 -> False)).
  { intros code body Hcode. simpl. split; [|done]. split; [done|].
    by intros [? ?]. }
  destruct (isLimited rateLimit).
  { simpl. split; [split; [done|by intros [? ?]]|done]. }
  destruct (json req ≫= destructure) as [[username password]|] eqn:Hbody.
  2:{ destruct (Hno 500 [("error", VStr "Authentication service temporarily unavailable")])
        as [? ?]; [done|]. split; [done|]. simpl. done. }
  destruct (negb (truthy username) || negb (truthy password)).
  { simpl. split; [split; [done|by intros [? ?]]|done]. }
  destruct (Login.validateCredentials e username password) as [[|]|] eqn:Hvalid.
  - apply validateCredentials_true_inv in Hvalid as (u & p & -> & -> & HU & HP).
    simpl. destruct (Session.createSession signJWT e (atSession t) u) as [token|] eqn:Htoken; simpl.
    + split; [split; [by eexists|done]|]. intros _. exists u, p, token.
      repeat split; try done. unfold resetRateLimit. by rewrite lookup_delete_eq.
    + split; [split; [done|by intros [? ?]]|done].
  - simpl. split; [split; [done|by intros [? ?]]|done].
  - simpl. split; [split; [done|by intros [? ?]]|done].
Qed.

End RateLimiterMore.

Lemma cleanupRateLimitStore_unobservable_witness :
  let st : RateLimit.store :=
    {[ "203.0.113.7" := {| RateLimit.count := 3; RateLimit.resetTime := 5 |} ]} in
  (RateLimit.checkRateLimit 20 "203.0.113.7" (RateLimit.cleanupRateLimitStore 10 st)).1
  = (RateLimit.checkRateLimit 20 "203.0.113.7" st).1.
Proof.
  intros st. apply (cleanupRateLimitStore_unobservable 10 20 "203.0.113.7" st). lia.
Defined.

Lemma handleLogin_touches_only_the_requester_witness :
  let st : RateLimit.store :=
    {[ "203.0.113.7" := {| RateLimit.count := 4; RateLimit.resetTime := 1000 |} ]} in
  let req :=
    {| Handlers.headers := {[ "x-real-ip" := "198.51.100.1" ]};
       Handlers.json :=
         Ok (VObj [("username", VStr "admin"); ("password", VStr "wrong")]) |} in
  let t := {| Handlers.atCheck := 10; Handlers.atRetryAfter := 10;
              Handlers.atIncrement := 10; Handlers.atSession := 10 |} in
  (Handlers.handleLogin (fun _ _ => Ok "token") ∅ t req st).2 !! "203.0.113.7"
  = st !! "203.0.113.7".
Proof.
  intros st req t.
  apply (handleLogin_touches_only_the_requester (fun _ _ => Ok "token") ∅ t req st).
  intros H. vm_compute in H. discriminate H.
Defined.

Lemma lockout_lasts_one_window_witness :
  let st : RateLimit.store :=
    {[ "unknown" := {| RateLimit.count := 5; RateLimit.resetTime := 1000 |} ]} in
  let req :=
    {| Handlers.headers := ∅;
       Handlers.json :=
         Ok (VObj [("username", VStr "admin"); ("password", VStr "password123")]) |} in
  let e : env :=
    {[ "CMS_ADMIN_USERNAME" := "admin"; "CMS_ADMIN_PASSWORD" := "password123" ]} in
  let t := {| Handlers.atCheck := 999; Handlers.atRetryAfter := 999;
              Handlers.atIncrement := 999; Handlers.atSession := 999 |} in
  Handlers.status (Handlers.handleLogin (fun _ _ => Ok "token") e t req st).1 = 429.
Proof.
  intros st req e t.
  assert (Hentry : st !! Handlers.clientIp req
                   = Some {| RateLimit.count := 5; RateLimit.resetTime := 1000 |})
    by (vm_compute; reflexivity).
  assert (Hcount : RateLimit.count {| RateLimit.count := 5; RateLimit.resetTime := 1000 |}
                   >= RateLimit.MAX_ATTEMPTS) by (vm_compute; discriminate).
  assert (Ht : Handlers.atCheck t
               <= RateLimit.resetTime {| RateLimit.count := 5; RateLimit.resetTime := 1000 |})
    by (vm_compute; discriminate).
  rewrite (proj1 (lockout_lasts_one_window (fun _ _ => Ok "token") e req st _ Hentry Hcount)
             t Ht).
  reflexivity.
Defined.

(** ** Programs over a provider *)

Section Programs.

Import Provider.

Context {B : Type} (h : handler B).

(** Running a sequence: the first program, then the second from the
    state the first left, unless the first raised. *)
Lemma run_bind {A C} (m : io A) (k : A -> io C) (b : B) :
  run h (m ≫= k) b
  = match run h m b with
    | (Ok a, b', log) =>
        let '(out, b'', log') := run h (k a) b' in (out, b'', log ++ log')
    | (Throw e, b', log) => (Throw e, b', log)
    end.
Proof.
  revert b. induction m as [a|e|X c k' IH]; intros b.
  - simpl. change (Return a ≫= k) with (k a). by destruct (run h (k a) b) as [[? ?] ?].
  - done.
  - change (Await c k' ≫= k) with (Await c (fun r => k' r ≫= k)). simpl.
    destruct (h X c b) as [r b']. rewrite IH.
    destruct (run h (k' r) b') as [[[a|e] b''] log]; [|done].
    by destruct (run h (k a) b'') as [[? ?] ?].
Qed.

Lemma run_io_catch {A} (m : io A) (recover : error -> io A) (b : B) :
  run h (io_catch m recover) b
  = match run h m b with
    | (Ok a, b', log) => (Ok a, b', log)
    | (Throw e, b', log) =>
        let '(out, b'', log') := run h (recover e) b' in (out, b'', log ++ log')
    end.
Proof.
  revert b. induction m as [a|e|X c k IH]; intros b.
  - done.
  - simpl. by destruct (run h (recover e) b) as [[? ?] ?].
  - simpl. destruct (h X c b) as [r b']. rewrite IH.
    destruct (run h (k r) b') as [[[a|e] b''] log]; [done|].
    by destruct (run h (recover e) b'') as [[? ?] ?].
Qed.

(** A program of the shape [try { ... return good } catch { return bad }]
    settles to a value, and to [bad] unless the body returned. *)
Lemma outcome_io_catch_Return {A} (m : io A) (bad : A) (b : B) :
  outcome h (io_catch m (fun _ => Return bad)) b
  = match outcome h m b with
    | Ok a => Ok a
    | Throw _ => Ok bad
    end.
Proof.
  unfold outcome. rewrite run_io_catch.
  by destruct (run h m b) as [[[a|e] b'] log].
Qed.

Lemma outcome_bind_Return {A C} (m : io A) (f : A -> C) (b : B) :
  outcome h (m ≫= fun a => Return (f a)) b
  = match outcome h m b with
    | Ok a => Ok (f a)
    | Throw e => Throw e
    end.
Proof.
  unfold outcome. rewrite run_bind.
  destruct (run h m b) as [[[a|e] b'] log]; [|done]. simpl. done.
Qed.

Lemma run_lift {A} (r : result A) (b : B) : run h (lift r) b = (r, b, []).
Proof. by destruct r. Qed.

End Programs.

(** ** Uploads: the stored name *)

Section Upload.

Import Provider.

Context {B : Type} (h : handler B).

Lemma string_length_app s t :
  String.length (s +:+ t) = (String.length s + String.length t)%nat.
Proof. induction s as [|a s IH]; [done|]. rewrite app_cons. simpl. by rewrite IH. Qed.

Lemma string_app_inv_head s t u : s +:+ t = s +:+ u -> t = u.
Proof. induction s as [|a s IH]; [done|]. rewrite !app_cons. intros [= H]. auto. Qed.

Lemma string_app_inv_tail s t u : s +:+ u = t +:+ u -> s = t.
Proof.
  revert t. induction s as [|a s IH]; intros [|b t]; rewrite ?app_cons, ?app_empty_l.
  - done.
  - intros H. apply (f_equal String.length) in H. simpl in H.
    rewrite string_length_app in H. lia.
  - intros H. apply (f_equal String.length) in H. simpl in H.
    rewrite string_length_app in H. lia.
  - intros [= -> H]. f_equal. auto.
Qed.

(** A pattern that begins with a character the string does not hold is
    nowhere in it. *)
Lemma includes_absent_char c pat s :
  JS.existsChar (fun a => Ascii.eqb a c) s = false ->
  JS.includes (String c pat) s = false.
Proof.
  induction s as [|a s IH]; [done|]. simpl.
  intros [Ha Hs]%orb_false_elim. rewrite IH by done.
  by rewrite Ascii.eqb_sym, Ha.
Qed.

Lemma removeFirst_absent pat s :
  JS.includes pat s = false -> JS.removeFirst pat s = s.
Proof.
  induction s as [|a s IH].
  - by destruct pat.
  - rewrite includes_cons. intros [Hhere Hlater]%orb_false_elim.
    cbn [JS.removeFirst]. rewrite Hhere. by rewrite IH.
Qed.

(** An extension without a dot cannot begin inside the stem and run
    over the dot that follows it. *)
Lemma startsWith_over_dot ext stem rest :
  JS.existsChar (fun a => Ascii.eqb a ".") ext = false ->
  JS.startsWith ext (stem +:+ String "." rest) = true ->
  JS.startsWith ext stem = true.
Proof.
  revert stem. induction ext as [|x ext IH]; intros stem Hext; [by destruct stem|].
  simpl in Hext. apply orb_false_elim in Hext as [Hx Hext].
  destruct stem as [|y stem].
  - rewrite app_empty_l, startsWith_cons. rewrite Hx. done.
  - rewrite app_cons, !startsWith_cons. intros [-> H]%andb_prop. by rewrite (IH stem).
Qed.

Lemma startsWith_refl s : JS.startsWith s s = true.
Proof. induction s as [|a s IH]; [done|]. by rewrite startsWith_cons, Ascii.eqb_refl. Qed.

Lemma drop_length s : JS.drop (String.length s) s = "".
Proof. by induction s. Qed.

Lemma removeFirst_extension stem ext :
  JS.existsChar (fun a => Ascii.eqb a ".") ext = false ->
  JS.includes ("." +:+ ext) stem = false ->
  JS.removeFirst ("." +:+ ext) (stem +:+ "." +:+ ext) = stem.
Proof.
  change ("." +:+ ext) with (String "." ext).
  intros Hext. induction stem as [|a stem IH]; intros Hstem.
  - rewrite app_empty_l. cbn [JS.removeFirst].
    by rewrite startsWith_refl, drop_length.
  - rewrite includes_cons in Hstem. apply orb_false_elim in Hstem as [Hhere Hlater].
    rewrite app_cons. cbn [JS.removeFirst].
    destruct (JS.startsWith (String "." ext) (String a (stem +:+ String "." ext)))
      eqn:Hstart.
    + rewrite startsWith_cons in Hstart, Hhere.
      apply andb_prop in Hstart as [Ha Hstart].
      rewrite Ha in Hhere. simpl in Hhere.
      by rewrite (startsWith_over_dot ext stem ext) in Hhere.
    + by rewrite IH.
Qed.

Lemma last_split_extension stem ext :
  JS.existsChar (fun a => Ascii.eqb a ".") ext = false ->
  List.last (JS.split "." (stem +:+ "." +:+ ext)) EmptyString = ext.
Proof.
  intros Hext. change ("." +:+ ext) with (String "." ext).
  rewrite split_app, (split_single "." ext) by done. apply last_last.
Qed.

(** The name under which [uploadFile] stores a file: for [stem.ext],
    where [ext] holds no dot and [.ext] does not occur in [stem], it is
    [stem-timestamp.ext]; for a name without any dot the whole name is
    taken for the extension and the file is stored as
    [name-timestamp.name]. *)
Theorem uploadFile_names_the_upload (b : B) (timestamp : Z) (buffer : string) :
  (forall stem ext,
      JS.existsChar (fun a => Ascii.eqb a ".") ext = false ->
      JS.includes ("." +:+ ext) stem = false ->
      calls h (Content.uploadFile timestamp (stem +:+ "." +:+ ext) buffer) b
      = [Invoked (uploadFile (stem +:+ "-" +:+ JS.ofInt timestamp +:+ "." +:+ ext)
                    buffer)])
  /\ (forall fileName,
      JS.existsChar (fun a => Ascii.eqb a ".") fileName = false ->
      calls h (Content.uploadFile timestamp fileName buffer) b
      = [Invoked (uploadFile (fileName +:+ "-" +:+ JS.ofInt timestamp +:+ "." +:+ fileName)
                    buffer)]).
Proof.
  split.
  - intros stem ext Hext Hstem. unfold calls, Content.uploadFile.
    rewrite last_split_extension, removeFirst_extension by done.
    by rewrite run_await.
  - intros fileName Hname. unfold calls, Content.uploadFile.
    rewrite (split_single "." fileName) by done. cbn [List.last].
    rewrite removeFirst_absent by by apply includes_absent_char.
    by rewrite run_await.
Qed.

Lemma ofInt_inj m n : JS.ofInt m = JS.ofInt n -> m = n.
Proof.
  unfold JS.ofInt. intros H. apply DecimalZ.to_int_inj.
  assert (Hnorm : forall z, Z.to_int z <> Decimal.Pos Decimal.Nil
                            /\ Z.to_int z <> Decimal.Neg Decimal.Nil).
  { intros z.
    assert (Hz : Z.to_int z = Decimal.norm (Z.to_int z))
      by by rewrite <- DecimalZ.to_of, DecimalZ.of_to.
    rewrite Hz. destruct (Z.to_int z) as [d|d]; simpl.
    - split; [|done]. intros [= Hd]. by apply DecimalFacts.unorm_nonnil in Hd.
    - destruct (Decimal.nzhead d); done. }
  apply (f_equal NilZero.int_of_string) in H.
  rewrite !NilZero.isi in H by apply Hnorm. by injection H.
Qed.

(** Two uploads of the same file name at different times are stored under
    different names. *)
Theorem uploadFile_timestamps_tell_uploads_apart
    (b b' : B) (t1 t2 : Z) (fileName buffer : string) :
  t1 <> t2 ->
  exists name1 name2,
    calls h (Content.uploadFile t1 fileName buffer) b
    = [Invoked (uploadFile name1 buffer)]
    /\ calls h (Content.uploadFile t2 fileName buffer) b'
       = [Invoked (uploadFile name2 buffer)]
    /\ name1 <> name2.
Proof.
  intros Hdiff. unfold calls, Content.uploadFile. do 2 eexists.
  split; [by rewrite run_await|]. split; [by rewrite run_await|].
  intros H. apply string_app_inv_head, string_app_inv_head, string_app_inv_tail in H.
  by apply ofInt_inj in H.
Qed.

End Upload.

Lemma uploadFile_timestamps_tell_uploads_apart_witness :
  exists name1 name2,
    Provider.calls Samples.memoryProvider
      (Content.uploadFile 1700000000000 "photo.png" "bytes") ∅
    = [Provider.Invoked (Provider.uploadFile name1 "bytes")]
    /\ Provider.calls Samples.memoryProvider
         (Content.uploadFile 1700000000001 "photo.png" "bytes") ∅
       = [Provider.Invoked (Provider.uploadFile name2 "bytes")]
    /\ name1 <> name2.
Proof.
  apply (uploadFile_timestamps_tell_uploads_apart Samples.memoryProvider ∅ ∅
           1700000000000 1700000000001 "photo.png" "bytes").
  lia.
Defined.

(** ** The content, listing and upload endpoints *)

Section EndpointProperties.

Import Provider Handlers.

Context {B : Type} (h : handler B).
Variable jwtVerify : string -> string -> result object.
Variable engineParse : string -> string -> result object.
Variable engineStringify : string -> object -> result string.

Lemma getSessionFromCookies_None (e : env) (cookies : Session.cookieStore) :
  (forall token,
      cookies !! Session.SESSION_COOKIE_NAME = Some token -> token <> "" ->
      Session.verifySession jwtVerify e token = Ok None) ->
  Session.getSessionFromCookies jwtVerify e cookies = Ok None.
Proof.
  intros Hnone. unfold Session.getSessionFromCookies.
  destruct (cookies !! Session.SESSION_COOKIE_NAME) as [token|] eqn:Hcookie; [|done].
  destruct (String.eqb_spec token "") as [->|Hne]; [done|]. by apply Hnone.
Qed.

(** Without a session cookie whose token verifies, each of the five
    endpoints answers 401 Unauthorized; no method of the provider is
    called and the backend stays as it was. *)
Theorem endpoints_require_a_session
    (b : B) (e : env) (cookies : Session.cookieStore) (filePath directory : string)
    (json : result saveBody) (timestamp : Z) (file : result (option formEntry)) :
  (forall token,
      cookies !! Session.SESSION_COOKIE_NAME = Some token -> token <> "" ->
      Session.verifySession jwtVerify e token = Ok None) ->
  status unauthorized = 401
  /\ run h (handleGetContent jwtVerify engineParse e cookies filePath) b
     = (Ok unauthorized, b, [])
  /\ run h (handleSaveContent jwtVerify engineParse engineStringify e cookies json
              filePath) b
     = (Ok unauthorized, b, [])
  /\ run h (handleDeleteContent jwtVerify e cookies filePath) b
     = (Ok unauthorized, b, [])
  /\ run h (handleListFiles jwtVerify e cookies directory) b
     = (Ok unauthorized, b, [])
  /\ run h (handleUpload jwtVerify e cookies timestamp file) b
     = (Ok unauthorized, b, []).
Proof.
  intros Hnone%getSessionFromCookies_None.
  unfold handleGetContent, handleSaveContent,
    handleDeleteContent, handleListFiles, handleUpload.
  rewrite Hnone. by repeat split.
Qed.

(** No endpoint rejects: whatever the request, the configuration and the
    provider do, it settles to a response with one of its status codes. *)
Theorem endpoints_always_answer
    (b : B) (e : env) (cookies : Session.cookieStore) (filePath directory : string)
    (json : result saveBody) (timestamp : Z) (file : result (option formEntry)) :
  let answers (m : io response) (codes : list Z) :=
    exists r, outcome h m b = Ok r /\ In (status r) codes in
  answers (handleGetContent jwtVerify engineParse e cookies filePath)
    [200; 401; 500]
  /\ answers (handleSaveContent jwtVerify engineParse engineStringify e cookies json
                filePath)
       [200; 401; 500]
  /\ answers (handleDeleteContent jwtVerify e cookies filePath) [200; 401; 500]
  /\ answers (handleListFiles jwtVerify e cookies directory) [200; 401; 500]
  /\ answers (handleUpload jwtVerify e cookies timestamp file) [200; 400; 401; 500].
Proof.
  intros answers. subst answers.
  unfold handleGetContent, handleSaveContent,
    handleDeleteContent, handleListFiles, handleUpload.
  rewrite !outcome_io_catch_Return.
  destruct (Session.getSessionFromCookies jwtVerify e cookies) as [[session|]|err].
  - change (lift (Ok (Some session)) ≫= ?k) with (k (Some session)). cbv beta iota.
    rewrite !outcome_bind_Return.
    repeat split.
    + destruct (outcome h (Content.getMarkdownContent _ _) b); eexists; split;
        try reflexivity; simpl; auto.
    + destruct json as [body|err]; simpl.
      * change (Return body ≫= ?k) with (k body). cbv beta.
        rewrite outcome_bind_Return.
        destruct (outcome h (Content.saveMarkdownContent _ _ _ _ _) b); eexists; split;
          try reflexivity; simpl; auto.
      * eexists; split; [reflexivity|]. simpl; auto.
    + destruct (outcome h (Content.deleteMarkdownContent _) b); eexists; split;
        try reflexivity; simpl; auto.
    + destruct (outcome h (Content.listDirectory _) b); eexists; split;
        try reflexivity; simpl; auto.
    + destruct file as [[[name bytes|[|c text]]|]|err];
        try (eexists; split; [reflexivity|]; simpl; by auto 6).
      change (lift (Ok (Some (FormFile name bytes))) ≫= ?k)
        with (k (Some (FormFile name bytes))).
      cbv beta iota. rewrite outcome_bind_Return.
      destruct (outcome h (Content.uploadFile _ _ _) b); eexists; split;
        try reflexivity; simpl; auto.
  - repeat split; eexists; (split; [reflexivity|]); simpl; auto.
  - repeat split; eexists; (split; [reflexivity|]); simpl; auto.
Qed.

Lemma includes_dotdot_throws p :
  JS.includes ".." p = true -> throws (Validation.validateFilePath p).
Proof.
  intros Hp. destruct (JS.includes Validation.NULs p) eqn:Hnul.
  - destruct (validateFilePath_nul p Hnul) as [-> | ->]; by eexists.
  - rewrite validateFilePath_traversal;
      [by eexists|by eapply includes_nonempty|done|by left].
Qed.

Lemma includes_join_dotdot (path : list string) :
  In ".." path -> JS.includes ".." (JS.join "/" path) = true.
Proof.
  induction path as [|seg [|seg' path] IH]; [done|..].
  - intros [->|[]]. reflexivity.
  - intros [->|Hin]; rewrite join_cons.
    + by apply includes_app_l.
    + apply includes_app_r, includes_app_r. by apply IH.
Qed.

(** A path that [validateFilePath] rejects gets no further than the
    handler: reading, saving and deleting answer 401 or 500, call no
    method of the provider and leave the backend as it was. So does every
    request to the catch-all route one of whose segments is [..]. *)
Theorem rejected_paths_never_reach_storage
    (b : B) (e : env) (cookies : Session.cookieStore) (json : result saveBody) :
  let stopped (m : io response) :=
    exists r, run h m b = (Ok r, b, []) /\ (status r = 401 \/ status r = 500) in
  (forall filePath,
      throws (Validation.validateFilePath filePath) ->
      stopped (handleGetContent jwtVerify engineParse e cookies filePath)
      /\ stopped (handleSaveContent jwtVerify engineParse engineStringify e cookies
                    json filePath)
      /\ stopped (handleDeleteContent jwtVerify e cookies filePath))
  /\ (forall path,
      In ".." path ->
      stopped (contentGET jwtVerify engineParse e cookies path)
      /\ stopped (contentPOST jwtVerify engineParse engineStringify e cookies json path)
      /\ stopped (contentDELETE jwtVerify e cookies path)).
Proof.
  intros stopped.
  assert (Hrejected : forall filePath,
            throws (Validation.validateFilePath filePath) ->
            stopped (handleGetContent jwtVerify engineParse e cookies filePath)
            /\ stopped (handleSaveContent jwtVerify engineParse engineStringify e cookies
                          json filePath)
            /\ stopped (handleDeleteContent jwtVerify e cookies filePath)).
  { intros filePath [err Herr]. subst stopped. cbv beta.
    unfold handleGetContent, handleSaveContent,
      handleDeleteContent.
    rewrite !run_io_catch.
    destruct (Session.getSessionFromCookies jwtVerify e cookies) as [[session|]|err'].
    - change (lift (Ok (Some session)) ≫= ?k) with (k (Some session)). cbv beta iota.
      rewrite !run_bind.
      unfold Content.getMarkdownContent, Content.deleteMarkdownContent.
      rewrite Herr. split; [|split].
      + eexists. split; [reflexivity|by right].
      + destruct json as [body|err'].
        * change (run h (lift (Ok body)) b) with (@Ok saveBody body, b, @nil invocation).
          cbv beta iota. rewrite run_bind.
          rewrite (saveMarkdownContent_invalid_path h _ _ b _ _ _ err) by done.
          eexists. split; [reflexivity|by right].
        * eexists. split; [reflexivity|by right].
      + eexists. split; [reflexivity|by right].
    - repeat split; eexists; (split; [reflexivity|by left]).
    - repeat split; eexists; (split; [reflexivity|by right]). }
  split; [done|].
  intros path Hin. apply Hrejected, includes_dotdot_throws.
  by apply includes_join_dotdot.
Qed.

End EndpointProperties.

Lemma endpoints_require_a_session_witness :
  Provider.run Samples.memoryProvider
    (Handlers.handleDeleteContent (fun _ _ => Throw (BackendError 401)) ∅ ∅ "blog/post.md")
    {[ "blog/post.md" := "text" ]}
  = (Ok Handlers.unauthorized, {[ "blog/post.md" := "text" ]}, []).
Proof.
  apply (endpoints_require_a_session Samples.memoryProvider
           (fun _ _ => Throw (BackendError 401)) Samples.parseFlat Samples.stringifyFlat
           {[ "blog/post.md" := "text" ]} ∅ ∅ "blog/post.md" ""
           (Throw MalformedBody) 0 (Ok None)).
  intros token Hcookie. by rewrite lookup_empty in Hcookie.
Defined.

(** ** The authentication middleware *)

Section AuthMiddleware.

Import Middleware.

Variable jwtVerify : string -> string -> result object.

(** The middleware lets a request through without looking at the session
    when its path begins with none of the protected prefixes or is the
    login page; any other request passes with a session and is sent to
    the login page, with its own path as [from], without one. A path is
    protected as soon as it begins with a protected prefix, whatever
    follows, and an empty list of prefixes protects nothing. *)
Theorem createAuthMiddleware_guards_protected_paths
    (opts : options) (e : env) (cookies : Session.cookieStore) (pathname : string) :
  let login :=
    match loginPath opts with
    | Some p => if String.eqb p "" then "/admin/login" else p
    | None => "/admin/login"
    end in
  let prefixes := default ["/admin"] (protectedPaths opts) in
  let middleware := createAuthMiddleware jwtVerify opts e cookies pathname in
  (Forall (fun path => JS.startsWith path pathname = false) prefixes ->
   middleware = Ok next)
  /\ (pathname = login -> middleware = Ok next)
  /\ (forall path rest,
      In path prefixes -> pathname = path +:+ rest -> pathname <> login ->
      (Session.getSessionFromCookies jwtVerify e cookies = Ok None ->
       middleware = Ok (redirect login pathname))
      /\ (forall session,
          Session.getSessionFromCookies jwtVerify e cookies = Ok (Some session) ->
          middleware = Ok next))
  /\ (protectedPaths opts = Some [] -> middleware = Ok next).
Proof.
  intros login prefixes middleware. subst middleware.
  unfold createAuthMiddleware. fold login. fold prefixes.
  split; [|split; [|split]].
  - intros Hnone.
    assert (existsb (fun path => JS.startsWith path pathname) prefixes = false) as ->;
      [|done].
    induction Hnone as [|path paths Hpath _ IH]; [done|]. simpl. by rewrite Hpath.
  - intros ->. rewrite String.eqb_refl.
    by destruct (existsb _ prefixes).
  - intros path rest Hin -> Hlogin.
    assert (existsb (fun p => JS.startsWith p (path +:+ rest)) prefixes = true) as ->.
    { apply existsb_exists. exists path. split; [done|apply startsWith_refl_app]. }
    apply String.eqb_neq in Hlogin. rewrite Hlogin. simpl.
    split; [by intros ->|]. by intros session ->.
  - subst prefixes. by intros ->.
Qed.

End AuthMiddleware.

(** ** Collections *)

Section CollectionProperties.

Import Provider Content.

Context {B : Type} (h : handler B).
Variable engineParse : string -> string -> result object.

Lemma removeSuffix_app stem suffix : JS.removeSuffix suffix (stem +:+ suffix) = stem.
Proof.
  induction stem as [|a stem IH].
  - rewrite app_empty_l. destruct suffix; cbn [JS.removeSuffix]; by rewrite String.eqb_refl.
  - rewrite app_cons. cbn [JS.removeSuffix].
    destruct (String.eqb_spec suffix (String a (stem +:+ suffix))) as [H|_].
    + apply (f_equal String.length) in H. simpl in H. rewrite string_length_app in H. lia.
    + by rewrite IH.
Qed.

(** The slug that [getCollectionItems] derives from the path of an item
    is the slug under which [getCollectionItem] looks that path up. *)
Theorem slugOfPath_inverts_the_item_path (b : B) (folderName slug : string) :
  JS.existsChar (fun a => Ascii.eqb a "/") slug = false ->
  let filePath := folderName +:+ "/" +:+ slug +:+ ".md" in
  slugOfPath filePath = slug
  /\ exists rest,
      calls h (getCollectionItem engineParse folderName slug) b
      = Invoked (exists_ filePath) :: rest.
Proof.
  intros Hslug filePath. subst filePath. split.
  - unfold slugOfPath. change ("/" +:+ slug +:+ ".md") with (String "/" (slug +:+ ".md")).
    rewrite split_app, (split_single "/" (slug +:+ ".md")).
    + rewrite last_last. apply removeSuffix_app.
    + rewrite existsChar_app, Hslug. reflexivity.
  - unfold calls, getCollectionItem. simpl.
    destruct (h bool _ b) as [r b']. destruct (run h _ b') as [[out b''] log].
    by eexists.
Qed.

(** From the [try] on, [getCollectionItem] settles to a value whatever
    the provider and the parser do. *)
Lemma getCollectionItem_try_settles (b : B) (folderName slug : string) :
  let filePath := folderName +:+ "/" +:+ slug +:+ ".md" in
  let item := getCollectionItem engineParse folderName slug in
  (exists found, outcome h item b = Ok found)
  /\ (forall b', h bool (exists_ filePath) b = (Ok false, b') ->
      run h item b = (Ok None, b', [Invoked (exists_ filePath)]))
  /\ (throws (h bool (exists_ filePath) b).1 -> outcome h item b = Ok None)
  /\ (forall b', h bool (exists_ filePath) b = (Ok true, b') ->
      (throws (h string (readFile filePath) b').1 -> outcome h item b = Ok None)
      /\ (forall rawContent,
          (h string (readFile filePath) b').1 = Ok rawContent ->
          outcome h item b
          = Ok match parseMarkdown engineParse rawContent with
               | Ok parsed =>
                   Some {| itemContent := content parsed; itemData := data parsed;
                           slug := slug |}
               | Throw _ => None
               end)).
Proof.
  intros filePath item. subst item. unfold getCollectionItem. fold filePath.
  split; [|split; [|split]].
  - rewrite outcome_io_catch_Return. destruct (outcome h _ b); by eexists.
  - intros b' Hexists. rewrite run_io_catch. simpl. by rewrite Hexists.
  - intros [err Herr]. rewrite outcome_io_catch_Return. unfold outcome. simpl.
    destruct (h bool (exists_ filePath) b) as [r b']. simpl in Herr. by subst r.
  - intros b' Hexists. split.
    + intros [err Herr]. rewrite outcome_io_catch_Return. unfold outcome. simpl.
      rewrite Hexists. simpl.
      destruct (h string (readFile filePath) b') as [r b'']. simpl in Herr. by subst r.
    + intros rawContent Hread. rewrite outcome_io_catch_Return. unfold outcome. simpl.
      rewrite Hexists. simpl.
      destruct (h string (readFile filePath) b') as [r b'']. simpl in Hread. subst r.
      simpl. by destruct (parseMarkdown engineParse rawContent).
Qed.

Lemma run_awaitEach {X} (requests : list (StorageCall X)) (b : B) :
  exists answers b',
    run h (awaitEach requests) b
    = (Ok answers, b', map (fun c => Invoked c) requests)
    /\ length answers = length requests.
Proof.
  revert b. induction requests as [|c requests IH]; intros b.
  - by exists [], b.
  - cbn [awaitEach run]. destruct (h X c b) as [r b1].
    destruct (IH b1) as (answers & b' & Hrun & Hlen).
    rewrite run_bind, Hrun. exists (r :: answers), b'. split; [|by simpl; rewrite Hlen].
    simpl. by rewrite app_nil_r.
Qed.

Lemma all_collectionItem (files : list FileEntry) (answers : list (result string)) items :
  all (zip_with (collectionItem engineParse) files answers) = Ok items ->
  length answers = length files ->
  map slug items = map (fun f => slugOfPath (path f)) files.
Proof.
  revert answers items. induction files as [|f files IH]; intros [|r answers] items; try done.
  - by intros [= <-].
  - cbn [zip_with all]. unfold collectionItem at 1.
    destruct r as [rawContent|]; [|done]. simpl.
    destruct (parseMarkdown engineParse rawContent) as [parsed|]; [|done]. simpl.
    destruct (all _) as [rest|] eqn:Hrest; [|done]. simpl.
    intros [= <-] [= Hlen]. simpl. f_equal. by apply (IH answers).
Qed.

Lemma run_getCollectionItems (b : B) (folderName : string) :
  match h _ (listFiles folderName) b with
  | (Ok entries, b1) =>
      let mdFiles :=
        filter (fun entry => type entry = file
                             /\ JS.endsWith ".md" (path entry) = true) entries in
      exists answers b2,
        length answers = length mdFiles
        /\ run h (getCollectionItems engineParse folderName) b
           = (all (zip_with (collectionItem engineParse) mdFiles answers), b2,
              Invoked (listFiles folderName)
              :: map (fun f => Invoked (readFile (path f))) mdFiles)
  | (Throw err, b1) =>
      run h (getCollectionItems engineParse folderName) b
      = (Throw err, b1, [Invoked (listFiles folderName)])
  end.
Proof.
  unfold getCollectionItems. rewrite run_bind, run_await.
  destruct (h _ (listFiles folderName) b) as [[entries|err] b1]; cbn [fst snd]; [|done].
  set (mdFiles := filter _ entries). rewrite run_bind.
  destruct (run_awaitEach (map (fun file => readFile (path file)) mdFiles) b1)
    as (answers & b2 & Hrun & Hlen).
  rewrite Hrun, run_lift. rewrite length_map in Hlen.
  exists answers, b2. split; [done|]. by rewrite app_nil_r, map_map.
Qed.

(** [getCollectionItems] lists the folder once and then asks for every
    entry of the listing that is a file whose path ends in [.md], in the
    order of the listing, and for nothing else, also when a read fails;
    when it succeeds there is one item per such file, in that order; a
    listing that fails makes it reject. *)
Theorem getCollectionItems_reads_the_markdown_files (b : B) (folderName : string) :
  let listed := (h _ (listFiles folderName) b).1 in
  let items := getCollectionItems engineParse folderName in
  (forall entries,
      listed = Ok entries ->
      let mdFiles :=
        filter (fun entry => type entry = file
                             /\ JS.endsWith ".md" (path entry) = true) entries in
      calls h items b
      = Invoked (listFiles folderName)
        :: map (fun f => Invoked (readFile (path f))) mdFiles
      /\ forall found,
          outcome h items b = Ok found ->
          map slug found = map (fun f => slugOfPath (path f)) mdFiles)
  /\ (throws listed ->
      throws (outcome h items b) /\ calls h items b = [Invoked (listFiles folderName)]).
Proof.
  intros listed items. subst listed items. unfold calls, outcome.
  pose proof (run_getCollectionItems b folderName) as Hrun.
  destruct (h _ (listFiles folderName) b) as [[entries|err] b1]; cbn [fst snd].
  - split; [|by intros [? ?]]. intros ? [= <-]. cbv zeta in Hrun |- *.
    destruct Hrun as (answers & b2 & Hlen & ->). cbn [fst snd].
    split; [done|]. intros found Hfound. by apply (all_collectionItem _ answers).
  - rewrite Hrun. split; [done|]. intros _. split; [by eexists|done].
Qed.

End CollectionProperties.

Lemma slugOfPath_inverts_the_item_path_witness :
  Content.slugOfPath ("blog" +:+ "/" +:+ "my-first-post" +:+ ".md") = "my-first-post".
Proof.
  apply (slugOfPath_inverts_the_item_path Samples.memoryProvider Samples.parseFlat ∅
           "blog" "my-first-post").
  reflexivity.
Defined.

Section CollectionItem.

Import Provider Content.

Context {B : Type} (serve : Backend.provider -> handler B).
Variable engineParse : string -> string -> result object.

(** [getCollectionItem] rejects only when [getStorageProvider()] throws:
    that call precedes the [try], so in a misconfigured environment the
    promise rejects with the configuration error and no provider method
    is called. Once a provider is built the function settles to a value
    whatever the provider and the parser do: [null] when the provider
    says the file does not exist, without reading it, and [null] again
    when [exists], [readFile] or the parser fails. *)
Theorem getCollectionItem_rejects_only_when_misconfigured
    (e : env) (cwd : string) (b : B) (folderName slug : string) :
  let filePath := folderName +:+ "/" +:+ slug +:+ ".md" in
  let item := getCollectionItem engineParse folderName slug in
  let settled := withStorageProvider serve e cwd item b in
  (forall why,
      Backend.getStorageProvider e cwd = Backend.Misconfigured why ->
      settled = Backend.Misconfigured why)
  /\ (forall storage,
      Backend.getStorageProvider e cwd = Backend.Built storage ->
      let h := serve storage in
      settled = Backend.Built (run h item b)
      /\ (exists found, outcome h item b = Ok found)
      /\ (forall b', h bool (exists_ filePath) b = (Ok false, b') ->
          run h item b = (Ok None, b', [Invoked (exists_ filePath)]))
      /\ (throws (h bool (exists_ filePath) b).1 -> outcome h item b = Ok None)
      /\ (forall b', h bool (exists_ filePath) b = (Ok true, b') ->
          (throws (h string (readFile filePath) b').1 -> outcome h item b = Ok None)
          /\ (forall rawContent,
              (h string (readFile filePath) b').1 = Ok rawContent ->
              outcome h item b
              = Ok match parseMarkdown engineParse rawContent with
                   | Ok parsed =>
                       Some {| itemContent := content parsed; itemData := data parsed;
                               slug := slug |}
                   | Throw _ => None
                   end))).
Proof.
  intros filePath item settled. subst settled. unfold withStorageProvider. split.
  - by intros why ->.
  - intros storage ->. cbv zeta. split; [done|].
    apply (getCollectionItem_try_settles (serve storage) engineParse b folderName slug).
Qed.

End CollectionItem.

Lemma getCollectionItem_rejects_only_when_misconfigured_witness :
  let e : env :=
    {[ "CLOUDFLARE_ACCOUNT_ID" := "account";
       "CLOUDFLARE_ACCESS_KEY_ID" := "key";
       "CLOUDFLARE_SECRET_ACCESS_KEY" := "secret" ]} in
  Content.withStorageProvider (fun _ => Samples.memoryProvider) e "/srv/app"
    (Content.getCollectionItem Samples.parseFlat "blog" "my-first-post") ∅
  = Backend.Misconfigured Backend.R2SettingsMissing.
Proof.
  intros e.
  apply (proj1 (getCollectionItem_rejects_only_when_misconfigured
                  (fun _ => Samples.memoryProvider) Samples.parseFlat e "/srv/app" ∅
                  "blog" "my-first-post")).
  vm_compute. reflexivity.
Defined.

(** ** The R2 provider *)

Section R2.

Import Storage.

(** The R2 provider keeps what was written under a path until it is
    deleted and touches no other path; a file written with empty content
    exists but cannot be read. *)
Theorem r2_keeps_what_was_written
    (this : CloudflareR2Storage) (filePath content : string) (objects : bucket) :
  let written := (Backend.writeFile this filePath content objects).2 in
  (Backend.writeFile this filePath content objects).1 = Ok tt
  /\ exists_ this filePath written = (true, written)
  /\ readFile this filePath written
     = (if String.eqb content "" then Throw FileNotFoundOrEmpty else Ok content, written)
  /\ (forall other,
      other <> filePath ->
      (readFile this other written).1 = (readFile this other objects).1
      /\ (exists_ this other written).1 = (exists_ this other objects).1)
  /\ (exists_ this filePath (deleteFile this filePath written).2).1 = false.
Proof.
  intros written. subst written.
  unfold Backend.writeFile, Backend.s3_PutObject, exists_, readFile, deleteFile,
    CloudflareR2Storage_provider, s3_GetObject, s3_DeleteObject. cbn [fst snd].
  rewrite lookup_insert_eq, lookup_delete_eq.
  split; [done|]. split; [done|]. split; [done|]. split; [|done].
  intros other Hother.
  rewrite lookup_insert_ne; [done|].
  unfold getR2Path. intros H. by apply string_app_inv_head, string_app_inv_head in H.
Qed.

Context (s3_ListObjectsV2 : string -> bucket -> result Backend.ListObjectsV2Output).
Variable engineParse : string -> string -> result object.
Variable engineStringify : string -> object -> result string.

(** Through the R2 provider, what [saveMarkdownContent] stored is what
    [getMarkdownContent] parses: the saved text is never empty, so the
    read never fails on it, and it fits the size limit of the reader. The
    file exists until [deleteMarkdownContent] removes it. *)
Theorem r2_saved_markdown_reads_back
    (this : CloudflareR2Storage) (objects : bucket)
    (filePath validatedPath markdown : string) (data : object) (content : string) :
  Validation.validateFilePath filePath = Ok validatedPath ->
  Content.stringifyMarkdown engineParse engineStringify
    (Validation.sanitizeFrontmatter data) content = Ok markdown ->
  JS.byteLength markdown <= Validation.MAX_FILE_SIZE ->
  let provider := Backend.r2Provider s3_ListObjectsV2 this in
  let saved :=
    Provider.run provider
      (Content.saveMarkdownContent engineParse engineStringify filePath data content)
      objects in
  saved.1.1 = Ok tt
  /\ saved.1.2 !! getR2Path this validatedPath = Some markdown
  /\ Provider.outcome provider (Content.getMarkdownContent engineParse filePath) saved.1.2
     = Content.parseMarkdown engineParse markdown
  /\ Provider.outcome provider (Content.markdownFileExists filePath) saved.1.2 = Ok true
  /\ Provider.outcome provider (Content.markdownFileExists filePath)
       (Provider.finalState provider (Content.deleteMarkdownContent filePath) saved.1.2)
     = Ok false.
Proof.
  intros Hpath Hmarkdown Hsize provider saved.
  assert (Hne : String.eqb markdown "" = false).
  { apply String.eqb_neq. eapply endsWith_char_nonempty.
    by eapply stringifyMarkdown_terminated. }
  assert (Hsaved : saved = (Ok tt, <[getR2Path this validatedPath := markdown]> objects,
                            [Provider.Invoked (Provider.writeFile validatedPath markdown)])).
  { subst saved. unfold Content.saveMarkdownContent. rewrite Hpath, Hmarkdown.
    change (Provider.lift (Ok validatedPath) ≫= ?k) with (k validatedPath). cbv beta zeta.
    change (Provider.lift (Ok markdown) ≫= ?k) with (k markdown). cbv beta zeta.
    destruct (JS.byteLength markdown >? Validation.MAX_FILE_SIZE) eqn:Hlarge; [lia|].
    by rewrite run_await. }
  rewrite Hsaved. cbn [fst snd].
  unfold Provider.outcome, Provider.finalState, Content.getMarkdownContent,
    Content.markdownFileExists, Content.deleteMarkdownContent.
  rewrite Hpath.
  change (Provider.lift (Ok validatedPath) ≫= ?k) with (k validatedPath). cbv beta.
  rewrite !run_await, run_bind, run_await.
  subst provider. unfold Backend.r2Provider.
  unfold exists_, readFile, deleteFile, CloudflareR2Storage_provider,
    s3_GetObject, s3_DeleteObject. cbn [fst snd].
  rewrite !lookup_insert_eq, lookup_delete_eq. cbn [mbind result_bind fst snd].
  rewrite Hne.
  destruct (JS.byteLength markdown >? Validation.MAX_FILE_SIZE) eqn:Hlarge; [lia|].
  repeat split; try done.
  by rewrite run_lift.
Qed.

End R2.

Lemma r2_saved_markdown_reads_back_witness :
  let this :=
    {| Storage.bucketName := "cms"; Storage.publicUrl := "https://cdn.example.com";
       Storage.r2BaseDir := "content" |} in
  let provider := Backend.r2Provider (fun _ _ => Throw NoSuchKey) this in
  let saved :=
    Provider.run provider
      (Content.saveMarkdownContent Samples.parseFlat Samples.stringifyFlat
         "a/b.md" [("title", VStr "T")] "body") ∅ in
  saved.1.2 !! "content/a/b.md"
  = Some ("---" +:+ JS.LFs +:+ "title: T" +:+ JS.LFs +:+ "---" +:+ JS.LFs
          +:+ "body" +:+ JS.LFs)
  /\ Provider.outcome provider (Content.markdownFileExists "a/b.md") saved.1.2 = Ok true.
Proof.
  intros this provider saved.
  assert (Hsize : JS.byteLength ("---" +:+ JS.LFs +:+ "title: T" +:+ JS.LFs +:+ "---"
                                 +:+ JS.LFs +:+ "body" +:+ JS.LFs)
                  <= Validation.MAX_FILE_SIZE) by (vm_compute; discriminate).
  destruct (r2_saved_markdown_reads_back (fun _ _ => Throw NoSuchKey)
              Samples.parseFlat Samples.stringifyFlat this ∅
              "a/b.md" "a/b.md" _ [("title", VStr "T")] "body" eq_refl eq_refl Hsize)
    as (_ & Hstored & _ & Hexists & _).
  split; [exact Hstored|exact Hexists].
Defined.

Section R2Listing.

Import Storage Provider.

Variable s3_ListObjectsV2 : string -> bucket -> result Backend.ListObjectsV2Output.

Lemma removeFirst_prefix pat s : JS.removeFirst pat (pat +:+ s) = s.
Proof.
  destruct pat as [|a pat]; [by destruct s|].
  rewrite app_cons. cbn [JS.removeFirst]. rewrite <- app_cons, startsWith_refl_app.
  rewrite <- (Nat.add_0_r (String.length _)). by rewrite drop_app_length.
Qed.

Lemma removeFirst_empty s : JS.removeFirst "" s = s.
Proof. by destruct s. Qed.

Lemma removeFirst_char c s rest :
  JS.existsChar (fun a => Ascii.eqb a c) s = false ->
  JS.removeFirst (String c "") (s +:+ String c rest) = s +:+ rest.
Proof.
  induction s as [|a s IH]; intros Hs.
  - rewrite !app_empty_l. cbn [JS.removeFirst]. by rewrite startsWith_cons, Ascii.eqb_refl.
  - simpl in Hs. apply orb_false_elim in Hs as [Ha Hs].
    rewrite !app_cons. cbn [JS.removeFirst].
    rewrite startsWith_cons, Ascii.eqb_sym, Ha. cbn [andb]. by rewrite IH.
Qed.

Lemma basename_below directory name :
  name <> "" ->
  JS.existsChar (fun a => Ascii.eqb a "/") name = false ->
  Path.basename (directory +:+ String "/" name) = name /\ Path.basename name = name.
Proof.
  intros Hne Hname. unfold Path.basename.
  rewrite split_app, (split_single "/" name), List.filter_app by done.
  cbn [List.filter]. apply String.eqb_neq in Hne. rewrite Hne. cbn [negb].
  split; [apply last_last|done].
Qed.

(** Where the service answers a listing as S3 specifies it for the
    delimiter [/] (each common prefix is the listed prefix, a name and a
    [/]; each key is the listed prefix and a name; names hold no [/] and
    are not empty), [listFiles] of the R2 provider returns the
    directories, then the objects whose name ends in [.md], each under
    its name and with the path [directory/name], or [name] at the root;
    when the service fails it returns the empty list. *)
Theorem r2_listFiles_names_the_entries
    (this : CloudflareR2Storage) (directory : string) (objects : bucket)
    (directories files : list string) :
  let prefix :=
    if String.eqb directory "" then r2BaseDir this +:+ "/"
    else r2BaseDir this +:+ "/" +:+ directory +:+ "/" in
  let below name :=
    if String.eqb directory "" then name else directory +:+ "/" +:+ name in
  let plain name :=
    name <> "" /\ JS.existsChar (fun a => Ascii.eqb a "/") name = false in
  Forall plain directories -> Forall plain files ->
  (s3_ListObjectsV2 prefix objects
   = Ok {| Backend.CommonPrefixes :=
             Some (map (fun name => Some (prefix +:+ name +:+ "/")) directories);
           Backend.Contents := Some (map (fun name => Some (prefix +:+ name)) files) |} ->
   Backend.listFiles s3_ListObjectsV2 this directory objects
   = (Ok (map (fun name => {| path := below name; name := name; type := Provider.directory |})
            directories
          ++ map (fun name => {| path := below name; name := name; type := file |})
               (List.filter (JS.endsWith ".md") files)),
      objects))
  /\ (throws (s3_ListObjectsV2 prefix objects) ->
      Backend.listFiles s3_ListObjectsV2 this directory objects = (Ok [], objects)).
Proof.
  intros prefix below plain Hdirectories Hfiles.
  unfold Backend.listFiles. fold prefix. split; [|by intros [err ->]].
  intros ->. cbn [Backend.CommonPrefixes Backend.Contents default from_option id].
  do 2 f_equal. f_equal.
  - clear Hfiles. induction Hdirectories as [|name names [Hne Hname] _ IH]; [done|].
    cbn [map omap list_omap]. rewrite IH. clear IH.
    unfold Backend.directoryEntry at 1.
    assert (String.eqb (prefix +:+ name +:+ "/") "" = false) as ->.
    { apply String.eqb_neq. subst prefix.
      destruct (String.eqb directory ""); by destruct (r2BaseDir this). }
    assert (JS.removeFirst "/"
              (JS.removeFirst
                 (if String.eqb directory "" then EmptyString else directory +:+ "/")
                 (JS.removeFirst (r2BaseDir this +:+ "/") (prefix +:+ name +:+ "/")))
            = name) as ->.
    { subst prefix. destruct (String.eqb directory "").
      - rewrite removeFirst_prefix, removeFirst_empty.
        rewrite removeFirst_char by done. apply string_app_empty_r.
      - replace ((r2BaseDir this +:+ "/" +:+ directory +:+ "/") +:+ name +:+ "/")
          with ((r2BaseDir this +:+ "/") +:+ (directory +:+ "/") +:+ name +:+ "/")
          by by rewrite !string_app_assoc.
        rewrite !removeFirst_prefix.
        rewrite removeFirst_char by done. apply string_app_empty_r. }
    apply String.eqb_neq in Hne. rewrite Hne. subst below. cbv beta.
    by destruct (String.eqb directory "").
  - clear Hdirectories. induction Hfiles as [|name names [Hne Hname] _ IH]; [done|].
    cbn [map omap list_omap List.filter]. rewrite IH. clear IH.
    unfold Backend.fileEntry at 1.
    assert (String.eqb (prefix +:+ name) "" = false) as ->.
    { apply String.eqb_neq. subst prefix.
      destruct (String.eqb directory ""); by destruct (r2BaseDir this). }
    assert (String.eqb (prefix +:+ name) prefix = false) as ->.
    { apply String.eqb_neq. intros H.
      rewrite <- (string_app_empty_r prefix) in H at 2.
      apply string_app_inv_head in H. done. }
    cbn [orb].
    assert (JS.removeFirst (r2BaseDir this +:+ "/") (prefix +:+ name) = below name) as ->.
    { subst prefix below. cbv beta. destruct (String.eqb directory "").
      - by rewrite removeFirst_prefix.
      - replace ((r2BaseDir this +:+ "/" +:+ directory +:+ "/") +:+ name)
          with ((r2BaseDir this +:+ "/") +:+ directory +:+ "/" +:+ name)
          by by rewrite !string_app_assoc.
        by rewrite removeFirst_prefix. }
    assert (Path.basename (below name) = name) as ->.
    { subst below. cbv beta. destruct (String.eqb directory "").
      - by apply (basename_below EmptyString).
      - by apply (basename_below directory name). }
    by destruct (JS.endsWith ".md" name).
Qed.

End R2Listing.

Lemma r2_listFiles_names_the_entries_witness :
  let this :=
    {| Storage.bucketName := "cms"; Storage.publicUrl := "https://cdn.example.com";
       Storage.r2BaseDir := "content" |} in
  Backend.listFiles
    (fun _ _ =>
       Ok {| Backend.CommonPrefixes := Some [Some "content/blog/2024/"];
             Backend.Contents :=
               Some [Some "content/blog/post.md"; Some "content/blog/cover.png"] |})
    this "blog" ∅
  = (Ok [ {| Provider.path := "blog/2024"; Provider.name := "2024";
             Provider.type := Provider.directory |};
          {| Provider.path := "blog/post.md"; Provider.name := "post.md";
             Provider.type := Provider.file |} ],
     ∅).
Proof.
  intros this.
  apply (r2_listFiles_names_the_entries
           (fun _ _ =>
              Ok {| Backend.CommonPrefixes := Some [Some "content/blog/2024/"];
                    Backend.Contents :=
                      Some [Some "content/blog/post.md"; Some "content/blog/cover.png"] |})
           this "blog" ∅ ["2024"] ["post.md"; "cover.png"]).
  - repeat apply Forall_cons_2; try apply Forall_nil_2; by split.
  - repeat apply Forall_cons_2; try apply Forall_nil_2; by split.
  - reflexivity.
Defined.

(** ** Choosing the provider *)

Section ChooseProvider.

Import Backend.

(** [getStorageProvider] never falls back to a provider of lower rank
    when the settings of one of higher rank are incomplete. With the
    three Cloudflare credentials set it answers the R2 provider, or
    fails when the public URL or the bucket name is missing; otherwise,
    in production with a GitHub token, the GitHub provider with a
    well-formed owner and repository, or fails; otherwise the local
    provider under [public/content], which always succeeds. *)
Theorem getStorageProvider_never_falls_back (e : env) (cwd : string) :
  let given name := is_Some (configured e name) in
  let r2 :=
    given "CLOUDFLARE_ACCOUNT_ID" /\ given "CLOUDFLARE_ACCESS_KEY_ID"
    /\ given "CLOUDFLARE_SECRET_ACCESS_KEY" in
  let github := e !! "NODE_ENV" = Some "production" /\ given "GITHUB_TOKEN" in
  (r2 ->
   match getStorageProvider e cwd with
   | Built (R2 this) =>
       given "NEXT_PUBLIC_R2_PUBLIC_URL"
       /\ configured e "R2_BUCKET_NAME" = Some (Storage.bucketName this)
       /\ Storage.r2BaseDir this = "content"
   | Misconfigured why =>
       why = R2SettingsMissing
       /\ (configured e "NEXT_PUBLIC_R2_PUBLIC_URL" = None
           \/ configured e "R2_BUCKET_NAME" = None)
   | Built _ => False
   end)
  /\ (~ r2 -> github ->
      match getStorageProvider e cwd with
      | Built (GitHub this) =>
          Storage.owner this <> "" /\ Storage.repo this <> ""
          /\ Storage.githubBaseDir this = "public/content"
          /\ (Storage.branch this = "main"
              \/ configured e "GITHUB_BRANCH" = Some (Storage.branch this))
      | Misconfigured GitHubSettingsMissing => configured e "GITHUB_REPO" = None
      | Misconfigured GitHubRepoMalformed => given "GITHUB_REPO"
      | _ => False
      end)
  /\ (~ r2 -> ~ github ->
      getStorageProvider e cwd
      = Built (Local {| Storage.cwd := cwd; Storage.localBaseDir := "public/content" |})).
Proof.
  intros given r2 github. subst given r2 github.
  unfold getStorageProvider, newCloudflareR2Storage, newGitHubStorage.
  split; [|split].
  - intros ([account Haccount] & [key Hkey] & [secret Hsecret]).
    rewrite Haccount, Hkey, Hsecret.
    destruct (configured e "NEXT_PUBLIC_R2_PUBLIC_URL") as [publicUrl|];
      destruct (configured e "R2_BUCKET_NAME") as [bucketName|]; simpl; auto.
  - intros Hr2 [Hproduction [token Htoken]].
    assert (Hskip : forall A (x y : A),
              match configured e "CLOUDFLARE_ACCOUNT_ID",
                    configured e "CLOUDFLARE_ACCESS_KEY_ID",
                    configured e "CLOUDFLARE_SECRET_ACCESS_KEY" with
              | Some _, Some _, Some _ => x
              | _, _, _ => y
              end = y).
    { intros A x y.
      destruct (configured e "CLOUDFLARE_ACCOUNT_ID"); [|done].
      destruct (configured e "CLOUDFLARE_ACCESS_KEY_ID"); [|done].
      destruct (configured e "CLOUDFLARE_SECRET_ACCESS_KEY"); [|done].
      exfalso. apply Hr2. by repeat split. }
    rewrite Hskip, Htoken.
    rewrite bool_decide_eq_true_2 by done.
    rewrite bool_decide_eq_true_2 by by eexists. cbn [andb].
    destruct (configured e "GITHUB_REPO") as [repoInfo|]; [|done].
    destruct (JS.split "/" repoInfo) as [|owner [|repo rest]]; [by eexists..|].
    destruct (String.eqb_spec owner "") as [->|Howner]; [by eexists|].
    destruct (String.eqb_spec repo "") as [->|Hrepo]; [by eexists|].
    cbn [orb Storage.owner Storage.repo Storage.githubBaseDir Storage.branch].
    repeat split; try done.
    destruct (configured e "GITHUB_BRANCH"); simpl; auto.
  - intros Hr2 Hgithub.
    assert (Hskip : forall A (x y : A),
              match configured e "CLOUDFLARE_ACCOUNT_ID",
                    configured e "CLOUDFLARE_ACCESS_KEY_ID",
                    configured e "CLOUDFLARE_SECRET_ACCESS_KEY" with
              | Some _, Some _, Some _ => x
              | _, _, _ => y
              end = y).
    { intros A x y.
      destruct (configured e "CLOUDFLARE_ACCOUNT_ID"); [|done].
      destruct (configured e "CLOUDFLARE_ACCESS_KEY_ID"); [|done].
      destruct (configured e "CLOUDFLARE_SECRET_ACCESS_KEY"); [|done].
      exfalso. apply Hr2. by repeat split. }
    rewrite Hskip.
    destruct (bool_decide (e !! "NODE_ENV" = Some "production")) eqn:Hproduction; [|done].
    destruct (bool_decide (is_Some (configured e "GITHUB_TOKEN"))) eqn:Htoken; [|done].
    apply bool_decide_eq_true in Hproduction, Htoken. by destruct Hgithub.
Qed.

End ChooseProvider.

(** ** Frontmatter sanitization: what is kept *)

Section SanitizeOutput.

Import Validation.

Lemma includes_NULs_stripNul s : JS.includes NULs (JS.stripNul s) = false.
Proof.
  induction s as [|a s IH]; [done|]. simpl.
  destruct (JS.code a =? 0)%N eqn:Ha; [done|].
  rewrite includes_cons, IH, orb_false_r. unfold NULs. rewrite startsWith_cons.
  destruct (Ascii.eqb_spec JS.NUL a) as [<-|]; [|done]. discriminate Ha.
Qed.

(** What one entry of the input contributes to the output. *)
Lemma sanitize_loop_filters (data sanitized : object) :
  NoDup data.*1 ->
  (forall key, key ∈ data.*1 -> key ∉ sanitized.*1) ->
  fold_left (sanitizeEntry sanitizeValue) data sanitized
  = sanitized
    ++ omap (fun kv =>
               if JS.isWord kv.1 && negb (String.eqb kv.1 "__proto__")
               then pair kv.1 <$> sanitizeValue kv.2 else None) data.
Proof.
  revert sanitized. induction data as [|[key v] data IH]; intros sanitized Hdup Hfresh.
  - by rewrite app_nil_r.
  - apply NoDup_cons in Hdup as [Hkey Hdup]. simpl.
    assert (Hrest : forall acc : object,
              acc.*1 = sanitized.*1 \/ acc.*1 = sanitized.*1 ++ [key] ->
              forall k, k ∈ data.*1 -> k ∉ acc.*1).
    { intros acc Hacc k Hk. destruct Hacc as [-> | ->].
      - apply Hfresh. set_solver.
      - intros [Hin | ->%list_elem_of_singleton]%elem_of_app; [|done].
        eapply Hfresh; [|done]. set_solver. }
    unfold sanitizeEntry at 2. simpl.
    destruct (JS.isWord key); simpl; [|by apply IH; [|apply Hrest; left]].
    destruct (sanitizeValue v) as [v'|]; simpl.
    2:{ destruct (negb _); by apply IH; [|apply Hrest; left]. }
    unfold setProperty. destruct (String.eqb key "__proto__"); simpl.
    + by apply IH; [|apply Hrest; left].
    + rewrite assign_fresh by (apply Hfresh; set_solver).
      rewrite IH; [by rewrite <- app_assoc|done|].
      apply Hrest. right. by rewrite fmap_app.
Qed.

Lemma sanitizeValue_strings v v' :
  sanitizeValue v = Some v' ->
  match v' with
  | VStr s => JS.includes NULs s = false
  | VArr items =>
      Forall (fun item => match item with
                          | VStr s => JS.includes NULs s = false
                          | _ => True
                          end) items
  | VUndefined | VOther => False
  | _ => True
  end.
Proof.
  destruct v; simpl; intros [= <-]; try done.
  - apply includes_NULs_stripNul.
  - apply Forall_forall. intros item [item0 [-> _]]%list_elem_of_fmap.
    destruct item0; simpl; try done. apply includes_NULs_stripNul.
Qed.

(** On an object (its keys are distinct) [sanitizeFrontmatter] keeps, in
    their order, the entries whose key matches the pattern, is not
    [__proto__] and whose value is a string, a number, a boolean, [null],
    an array or an object, each with its value sanitized, and drops the
    others. No string of the output, at the top or as an item of an
    array, holds a null byte. *)
Theorem sanitizeFrontmatter_keeps_what_is_valid (data : object) :
  NoDup data.*1 ->
  sanitizeFrontmatter data
  = omap (fun kv =>
            if JS.isWord kv.1 && negb (String.eqb kv.1 "__proto__")
            then pair kv.1 <$> sanitizeValue kv.2 else None) data
  /\ Forall (fun kv =>
              match kv.2 with
              | VStr s => JS.includes NULs s = false
              | VArr items =>
                  Forall (fun item => match item with
                                      | VStr s => JS.includes NULs s = false
                                      | _ => True
                                      end) items
              | VUndefined | VOther => False
              | _ => True
              end) (sanitizeFrontmatter data).
Proof.
  intros Hdup.
  assert (Heq : sanitizeFrontmatter data
                = omap (fun kv =>
                          if JS.isWord kv.1 && negb (String.eqb kv.1 "__proto__")
                          then pair kv.1 <$> sanitizeValue kv.2 else None) data).
  { unfold sanitizeFrontmatter. rewrite sanitize_loop_filters; [done|done|set_solver]. }
  split; [done|]. rewrite Heq. apply Forall_forall.
  intros kv [kv0 [_ Hkv]]%list_elem_of_omap.
  destruct (JS.isWord kv0.1 && negb (String.eqb kv0.1 "__proto__")); [|done].
  destruct (sanitizeValue kv0.2) as [v'|] eqn:Hv; [|done].
  injection Hkv as <-. by apply (sanitizeValue_strings kv0.2).
Qed.

End SanitizeOutput.

Lemma sanitizeFrontmatter_keeps_what_is_valid_witness :
  Validation.sanitizeFrontmatter
    [("title", VStr "Hello"); ("bad key", VNum 1); ("__proto__", VObj []);
     ("tags", VArr [VStr "a"; VNum 2])]
  = [("title", VStr "Hello"); ("tags", VArr [VStr "a"; VNum 2])].
Proof.
  apply (sanitizeFrontmatter_keeps_what_is_valid
           [("title", VStr "Hello"); ("bad key", VNum 1); ("__proto__", VObj []);
            ("tags", VArr [VStr "a"; VNum 2])]).
  apply (bool_decide_unpack _). vm_compute. exact I.
Defined.

(** ** Plain texts, short secrets and the size limit on reading *)

Section PlainText.

Variable engineParse : string -> string -> result object.

Lemma startsWith_drop front back s :
  JS.startsWith (front +:+ back) s = true ->
  JS.startsWith back (JS.drop (String.length front) s) = true.
Proof.
  revert s. induction front as [|a front IH]; intros s; [done|].
  destruct s as [|c s]; [done|]. rewrite app_cons, startsWith_cons.
  intros [_ H]%andb_prop. by apply IH.
Qed.

Lemma parseMatter_plain text :
  JS.startsWith "---" text = false \/ JS.startsWith "----" text = true ->
  GrayMatter.parseMatter engineParse text
  = Ok {| GrayMatter.data := []; GrayMatter.content := text;
          GrayMatter.language := "yaml" |}.
Proof.
  intros Hplain. unfold GrayMatter.parseMatter, GrayMatter.opening.
  destruct (JS.startsWith "---" text) eqn:Hopen; [|done].
  destruct Hplain as [|Hdashes]; [done|].
  apply (startsWith_drop "---" "-") in Hdashes. cbn [String.length] in Hdashes.
  by rewrite Hdashes.
Qed.

(** A text that, its byte order mark set aside, does not begin with
    [---], or begins with four dashes, has no front matter: it parses to
    empty data and to itself as content, without a word from the YAML
    engine. *)
Theorem parseMarkdown_without_front_matter (rawContent : string) :
  let text := GrayMatter.stripBom rawContent in
  JS.startsWith "---" text = false \/ JS.startsWith "----" text = true ->
  Content.parseMarkdown engineParse rawContent
  = Ok {| Content.content := text; Content.data := [] |}.
Proof.
  intros text Hplain. unfold Content.parseMarkdown, GrayMatter.matter.
  destruct (String.eqb_spec rawContent "") as [->|_]; [done|].
  fold text. by rewrite parseMatter_plain.
Qed.

End PlainText.

Lemma parseMarkdown_without_front_matter_witness :
  Content.parseMarkdown (fun _ _ => Throw (BackendError 0)) "# Title"
  = Ok {| Content.content := "# Title"; Content.data := [] |}.
Proof.
  apply (parseMarkdown_without_front_matter (fun _ _ => Throw (BackendError 0)) "# Title").
  left. reflexivity.
Defined.

Section ShortSecret.

Import Handlers.

Variable jwtVerify : string -> string -> result object.
Variable signJWT : object -> string -> result string.

(** With a session secret that is unset or shorter than 32 characters no
    session can exist: [createSession] fails before signing, every token
    and every cookie is answered [null], and the login endpoint answers
    no request with 200 nor sets a cookie, not even for the configured
    credentials. *)
Theorem short_secret_disables_sessions (e : env) :
  (forall secret, e !! "CMS_SESSION_SECRET" = Some secret -> JS.length secret < 32) ->
  (forall now username,
      Session.createSession signJWT e now username = Throw MisconfiguredSecret)
  /\ (forall token, Session.verifySession jwtVerify e token = Ok None)
  /\ (forall cookies, Session.getSessionFromCookies jwtVerify e cookies = Ok None)
  /\ (forall t req st,
      status (handleLogin signJWT e t req st).1 <> 200
      /\ sessionCookie (handleLogin signJWT e t req st).1 = None).
Proof.
  intros Hshort.
  assert (Hkey : Session.getSecretKey e = Throw MisconfiguredSecret).
  { unfold Session.getSecretKey, configured.
    destruct (e !! "CMS_SESSION_SECRET") as [secret|] eqn:Hsecret; [|done].
    destruct (String.eqb secret ""); [done|].
    specialize (Hshort secret eq_refl).
    destruct (JS.length secret <? 32) eqn:Hlen; [done|lia]. }
  assert (Hverify : forall token, Session.verifySession jwtVerify e token = Ok None).
  { intros token. unfold Session.verifySession. by rewrite Hkey. }
  assert (Hcreate : forall now username,
            Session.createSession signJWT e now username = Throw MisconfiguredSecret).
  { intros now username. unfold Session.createSession. by rewrite Hkey. }
  split; [done|]. split; [done|]. split.
  - intros cookies. unfold Session.getSessionFromCookies.
    destruct (cookies !! Session.SESSION_COOKIE_NAME) as [token|]; [|done].
    by destruct (String.eqb token "").
  - intros t req st. unfold handleLogin.
    destruct (RateLimit.checkRateLimit _ _ _) as [rateLimit st1].
    destruct (RateLimit.isLimited rateLimit); [done|].
    destruct (json req ≫= destructure) as [[username password]|]; [|done].
    destruct (negb (truthy username) || negb (truthy password)); [done|].
    destruct (Login.validateCredentials e username password) as [[|]|]; [|done..].
    by rewrite Hcreate.
Qed.

End ShortSecret.

Lemma short_secret_disables_sessions_witness :
  Session.verifySession (fun _ _ => Ok [("username", VStr "admin"); ("exp", VNum 0)])
    {[ "CMS_SESSION_SECRET" := "too-short" ]} "token"
  = Ok None.
Proof.
  apply (short_secret_disables_sessions
           (fun _ _ => Ok [("username", VStr "admin"); ("exp", VNum 0)])
           (fun _ _ => Ok "token")
           {[ "CMS_SESSION_SECRET" := "too-short" ]}).
  intros secret Hsecret. vm_compute in Hsecret. injection Hsecret as <-.
  vm_compute. reflexivity.
Defined.

Section ReadLimit.

Import Provider Content.

Context {B : Type} (h : handler B).
Variable engineParse : string -> string -> result object.

(** With a path that [validateFilePath] accepts, [getMarkdownContent]
    calls the provider once, to read the validated path. A failed read is
    passed on; a text above 10 MiB is rejected with the size error
    whatever it holds; any other text is parsed. *)
Theorem getMarkdownContent_size_ceiling (b : B) (filePath validatedPath : string) :
  Validation.validateFilePath filePath = Ok validatedPath ->
  let read := h string (readFile validatedPath) b in
  let get := getMarkdownContent engineParse filePath in
  calls h get b = [Invoked (readFile validatedPath)]
  /\ finalState h get b = read.2
  /\ outcome h get b
     = match read.1 with
       | Ok rawContent =>
           if JS.byteLength rawContent >? Validation.MAX_FILE_SIZE
           then Throw (FileTooLarge (JS.byteLength rawContent))
           else parseMarkdown engineParse rawContent
       | Throw err => Throw err
       end.
Proof.
  intros Hpath read get. subst read get.
  unfold calls, finalState, outcome, getMarkdownContent. rewrite Hpath.
  change (lift (Ok validatedPath) ≫= ?k) with (k validatedPath). cbv beta.
  rewrite run_bind, run_await.
  destruct (h string (readFile validatedPath) b) as [[rawContent|err] b']; cbn [fst snd];
    [|done].
  cbv zeta. destruct (JS.byteLength rawContent >? Validation.MAX_FILE_SIZE); [done|].
  by rewrite run_lift.
Qed.

End ReadLimit.

Lemma getMarkdownContent_size_ceiling_witness :
  Provider.calls Samples.memoryProvider
    (Content.getMarkdownContent Samples.parseFlat "blog//post.md") ∅
  = [Provider.Invoked (Provider.readFile "blog/post.md")].
Proof.
  apply (getMarkdownContent_size_ceiling Samples.memoryProvider Samples.parseFlat ∅
           "blog//post.md" "blog/post.md").
  reflexivity.
Defined.
